(** * fake-email: the mailbox schema, the Next.js proxy routes and the mail view

    A shallow embedding of

    - the two migrations ([temporary_emails], [received_emails]) as a store
      with the constraint checks PostgreSQL runs on every statement,
    - [src/ui/src/app/api/generate/route.ts] (the zod schema and [POST]),
    - [src/ui/src/app/api/emails/[id]/route.ts] ([GET] and [DELETE]),
    - [src/ui/src/app/api/emails/route.ts] ([GET]),
    - [src/ui/src/app/api/emails/all/route.ts] ([DELETE]),
    - [src/ui/src/components/ui/email-view.tsx] ([renderBody]),
    - the pages [Home] ([onSubmit]) and [EmailsPage] (its handlers and what
      it renders),

    followed by the properties the specification states about them, and by
    further properties of the code. *)

From Stdlib Require Import ZArith NArith List String Ascii Bool Lia Floats.
Import ListNotations.

Set Implicit Arguments.

(** ** Text

    A character is its code: a code point in a PostgreSQL [TEXT]/[VARCHAR]
    value, a UTF-16 code unit in a JavaScript string.  The two coincide on
    ASCII, which is all the patterns of this repository accept. *)

Definition char := N.
Definition text := list char.

Definition chr (a : ascii) : char := N_of_ascii a.
Definition lit (s : string) : text := map chr (list_ascii_of_string s).
Arguments chr a%_char.
Arguments lit s%_string.

Definition char_eqb : char -> char -> bool := N.eqb.
Definition text_eq_dec : forall s t : text, {s = t} + {s <> t} :=
  list_eq_dec N.eq_dec.
Definition text_eqb (s t : text) : bool :=
  if text_eq_dec s t then true else false.

(** ** Regular expressions

    The fragment the repository's two patterns are written in: bracket
    expressions, literals, concatenation, [+], and the anchors [^] and [$].
    Matching is by derivatives, so it is a structural recursion on the
    subject string. *)

Module Regex.

Inductive t : Type :=
| Void
| Eps
| Chr (c : char)
| Bracket (ranges : list (char * char))
| Cat (r1 r2 : t)
| Alt (r1 r2 : t)
| Star (r : t).

(** [r+] *)
Definition Plus (r : t) : t := Cat r (Star r).

(** A range [lo-hi] of a bracket expression compares character codes. *)
Definition in_range (c : char) (lohi : char * char) : bool :=
  (fst lohi <=? c)%N && (c <=? snd lohi)%N.

Definition in_bracket (ranges : list (char * char)) (c : char) : bool :=
  existsb (in_range c) ranges.

Fixpoint nullable (r : t) : bool :=
  match r with
  | Void => false
  | Eps => true
  | Chr _ => false
  | Bracket _ => false
  | Cat r1 r2 => nullable r1 && nullable r2
  | Alt r1 r2 => nullable r1 || nullable r2
  | Star _ => true
  end.

Fixpoint deriv (c : char) (r : t) : t :=
  match r with
  | Void => Void
  | Eps => Void
  | Chr d => if char_eqb c d then Eps else Void
  | Bracket rs => if in_bracket rs c then Eps else Void
  | Cat r1 r2 =>
      if nullable r1
      then Alt (Cat (deriv c r1) r2) (deriv c r2)
      else Cat (deriv c r1) r2
  | Alt r1 r2 => Alt (deriv c r1) (deriv c r2)
  | Star r1 => Cat (deriv c r1) (Star r1)
  end.

(** The whole of [s] is a word of [r]. *)
Fixpoint matches (r : t) (s : text) : bool :=
  match s with
  | [] => nullable r
  | c :: s' => matches (deriv c r) s'
  end.

(** A pattern as it is written between the delimiters: an optional [^],
    the expression, an optional [$]. *)
Record pattern : Type := Pattern { bol : bool; body : t; eol : bool }.

Definition is_nil (s : text) : bool :=
  match s with [] => true | _ => false end.

(** Some prefix of [s] is a word of [r]; all of [s] when [$] closes the
    pattern. *)
Fixpoint match_prefix (to_end : bool) (r : t) (s : text) : bool :=
  (nullable r && (negb to_end || is_nil s))
  || match s with
     | [] => false
     | c :: s' => match_prefix to_end (deriv c r) s'
     end.

(** PostgreSQL's [subject ~ pattern] and JavaScript's [pattern.test(subject)]:
    the pattern matches somewhere in the subject, at its start only when
    the pattern opens with [^]. *)
Fixpoint search_from (p : pattern) (s : text) : bool :=
  match_prefix (eol p) (body p) s
  || (negb (bol p)
      && match s with
         | [] => false
         | _ :: s' => search_from p s'
         end).

Definition test (p : pattern) (s : text) : bool := search_from p s.

(** The words of an expression. *)
Inductive lang : t -> text -> Prop :=
| lang_eps : lang Eps []
| lang_chr c : lang (Chr c) [c]
| lang_bracket rs c : in_bracket rs c = true -> lang (Bracket rs) [c]
| lang_cat r1 r2 s1 s2 :
    lang r1 s1 -> lang r2 s2 -> lang (Cat r1 r2) (s1 ++ s2)
| lang_alt_l r1 r2 s : lang r1 s -> lang (Alt r1 r2) s
| lang_alt_r r1 r2 s : lang r2 s -> lang (Alt r1 r2) s
| lang_star_nil r : lang (Star r) []
| lang_star_app r s1 s2 :
    lang r s1 -> lang (Star r) s2 -> lang (Star r) (s1 ++ s2).

End Regex.

(** ** SQL values and constraint violations

    A column holds [None] for SQL NULL.  A comparison with NULL is unknown
    ([None] as a truth value), and a CHECK constraint rejects a row only
    when its expression is false. *)

Module Sql.

Definition uuid := N.
Definition timestamp := Z.
Definition truth := option bool.

(** [a <= b] *)
Definition le (a b : option Z) : truth :=
  match a, b with
  | Some x, Some y => Some (x <=? y)%Z
  | _, _ => None
  end.

(** [s ~ pattern] *)
Definition regex_match (s : option text) (p : Regex.pattern) : truth :=
  match s with
  | Some x => Some (Regex.test p x)
  | None => None
  end.

Definition check_passes (e : truth) : bool :=
  match e with
  | Some false => false
  | _ => true
  end.

Definition is_null {A : Type} (v : option A) : bool :=
  match v with None => true | Some _ => false end.

(** [column = x] for a non-null [x], as a WHERE clause keeps it: true only. *)
Definition uuid_is (v : option uuid) (x : uuid) : bool :=
  match v with Some y => N.eqb y x | None => false end.

Definition text_is (v : option text) (x : text) : bool :=
  match v with Some y => text_eqb y x | None => false end.

(** What an INSERT supplies for a column that has a DEFAULT. *)
Inductive supplied (A : Type) : Type :=
| DEFAULT
| VALUE (v : option A).
Arguments DEFAULT {A}.

Definition or_default {A : Type} (d : A) (s : supplied A) : option A :=
  match s with
  | DEFAULT => Some d
  | VALUE v => v
  end.

(** The values [gen_random_uuid()] and [NOW()] take in one statement. *)
Record session : Type := Session { gen_random_uuid : uuid; NOW : timestamp }.

(** Assignment to [VARCHAR(n)]: a longer value is an error unless the
    excess is spaces only, which are cut off. *)
Definition is_space (c : char) : bool := N.eqb c 32.

Definition varchar (n : nat) (s : text) : option text :=
  if (List.length s <=? n)%nat then Some s
  else if forallb is_space (skipn n s) then Some (firstn n s)
  else None.

(** [INTEGER] is a signed 32-bit number. *)
Definition int4 (z : Z) : bool :=
  ((-2147483648 <=? z) && (z <=? 2147483647))%Z.

Inductive violation : Type :=
| not_null_violation (column : string)
| unique_violation (constraint : string)
| check_violation (constraint : string)
| foreign_key_violation (constraint : string)
| string_data_right_truncation (column : string)
| numeric_value_out_of_range (column : string).

(** A statement either goes through or is rejected, leaving the store as
    it was.  PostgreSQL reports the first violation it meets; the order in
    which it meets them is not part of the schema, so a rejection carries
    every constraint the statement violates. *)
Inductive result (A : Type) : Type :=
| Ok (a : A)
| Rejected (vs : list violation).
Arguments Rejected {A}.

Definition when (b : bool) (v : violation) : list violation :=
  if b then [v] else [].

(** Coercion of a nullable text to [VARCHAR(n)]. *)
Definition to_varchar (column : string) (n : nat) (v : option text)
  : option text * list violation :=
  match v with
  | None => (None, [])
  | Some s =>
      match varchar n s with
      | Some s' => (Some s', [])
      | None => (None, [string_data_right_truncation column])
      end
  end.

Definition to_int4 (column : string) (v : option Z)
  : option Z * list violation :=
  match v with
  | None => (None, [])
  | Some z =>
      if int4 z then (Some z, [])
      else (None, [numeric_value_out_of_range column])
  end.

End Sql.

(** ** The table [temporary_emails] (first migration) *)

Module TemporaryEmail.
Import Sql.

Record row : Type := Row {
  id : option uuid;            (* UUID PRIMARY KEY DEFAULT gen_random_uuid() *)
  address : option text;       (* VARCHAR(255) UNIQUE NOT NULL *)
  username : option text;      (* VARCHAR(100) *)
  created_at : option timestamp; (* TIMESTAMP NOT NULL DEFAULT NOW() *)
  expires_at : option timestamp; (* TIMESTAMP NOT NULL *)
  is_active : option bool      (* BOOLEAN DEFAULT TRUE *)
}.

Record values : Type := Values {
  v_id : supplied uuid;
  v_address : option text;
  v_username : option text;
  v_created_at : supplied timestamp;
  v_expires_at : option timestamp;
  v_is_active : supplied bool
}.

(** ['^[a-zA-Z0-9_-]+@[a-zA-Z0-9.-]+$'] *)
Definition local_part : list (char * char) :=
  [(chr "a", chr "z"); (chr "A", chr "Z"); (chr "0", chr "9");
   (chr "_", chr "_"); (chr "-", chr "-")].

Definition domain_part : list (char * char) :=
  [(chr "a", chr "z"); (chr "A", chr "Z"); (chr "0", chr "9");
   (chr ".", chr "."); (chr "-", chr "-")].

Definition address_format_pattern : Regex.pattern :=
  Regex.Pattern true
    (Regex.Cat (Regex.Plus (Regex.Bracket local_part))
       (Regex.Cat (Regex.Chr (chr "@"))
          (Regex.Plus (Regex.Bracket domain_part))))
    true.

(** [CONSTRAINT address_format CHECK (address ~ '...')] *)
Definition address_format (r : row) : truth :=
  regex_match (address r) address_format_pattern.

(** The row an INSERT proposes: defaults filled in, values coerced to the
    column types. *)
Definition candidate (s : session) (v : values) : row * list violation :=
  let (a, va) := to_varchar "address" 255 (v_address v) in
  let (u, vu) := to_varchar "username" 100 (v_username v) in
  ({| id := or_default (gen_random_uuid s) (v_id v);
      address := a;
      username := u;
      created_at := or_default (NOW s) (v_created_at v);
      expires_at := v_expires_at v;
      is_active := or_default true (v_is_active v) |},
   va ++ vu).

Definition has_id (x : uuid) (r : row) : bool := uuid_is (id r) x.
Definition has_address (x : text) (r : row) : bool := text_is (address r) x.

(** A unique index never sees two NULLs as equal. *)
Definition id_taken (rows : list row) (v : option uuid) : bool :=
  match v with
  | Some x => existsb (has_id x) rows
  | None => false
  end.

Definition address_taken (rows : list row) (v : option text) : bool :=
  match v with
  | Some x => existsb (has_address x) rows
  | None => false
  end.

(** Every constraint of the table the row [r] violates against [rows]. *)
Definition violations (rows : list row) (r : row) : list violation :=
  when (is_null (id r)) (not_null_violation "id")
  ++ when (is_null (address r)) (not_null_violation "address")
  ++ when (is_null (created_at r)) (not_null_violation "created_at")
  ++ when (is_null (expires_at r)) (not_null_violation "expires_at")
  ++ when (negb (check_passes (address_format r)))
       (check_violation "address_format")
  ++ when (id_taken rows (id r)) (unique_violation "temporary_emails_pkey")
  ++ when (address_taken rows (address r))
       (unique_violation "temporary_emails_address_key").

End TemporaryEmail.

(** ** The table [received_emails] (second migration) *)

Module ReceivedEmail.
Import Sql.

(** [headers JSONB]: the document is opaque to every constraint. *)
Definition jsonb := text.

Record row : Type := Row {
  id : option uuid;            (* UUID PRIMARY KEY DEFAULT gen_random_uuid() *)
  temp_email_id : option uuid; (* UUID NOT NULL REFERENCES temporary_emails(id)
                                  ON DELETE CASCADE *)
  from_address : option text;  (* VARCHAR(255) NOT NULL *)
  subject : option text;       (* VARCHAR(500) *)
  body_plain : option text;    (* TEXT *)
  body_html : option text;     (* TEXT *)
  headers : option jsonb;      (* JSONB *)
  received_at : option timestamp; (* TIMESTAMP NOT NULL DEFAULT NOW() *)
  size_bytes : option Z        (* INTEGER *)
}.

Record values : Type := Values {
  v_id : supplied uuid;
  v_temp_email_id : option uuid;
  v_from_address : option text;
  v_subject : option text;
  v_body_plain : option text;
  v_body_html : option text;
  v_headers : option jsonb;
  v_received_at : supplied timestamp;
  v_size_bytes : option Z
}.

(** [CONSTRAINT reasonable_size CHECK (size_bytes <= 10485760)] *)
Definition reasonable_size (r : row) : truth :=
  le (size_bytes r) (Some 10485760%Z).

Definition candidate (s : session) (v : values) : row * list violation :=
  let (f, vf) := to_varchar "from_address" 255 (v_from_address v) in
  let (j, vj) := to_varchar "subject" 500 (v_subject v) in
  let (z, vz) := to_int4 "size_bytes" (v_size_bytes v) in
  ({| id := or_default (gen_random_uuid s) (v_id v);
      temp_email_id := v_temp_email_id v;
      from_address := f;
      subject := j;
      body_plain := v_body_plain v;
      body_html := v_body_html v;
      headers := v_headers v;
      received_at := or_default (NOW s) (v_received_at v);
      size_bytes := z |},
   vf ++ vj ++ vz).

Definition has_id (x : uuid) (r : row) : bool := uuid_is (id r) x.
Definition owned_by (x : uuid) (r : row) : bool := uuid_is (temp_email_id r) x.

Definition id_taken (rows : list row) (v : option uuid) : bool :=
  match v with
  | Some x => existsb (has_id x) rows
  | None => false
  end.

(** [REFERENCES temporary_emails(id)]: a non-null key must be the [id] of a
    row of [temporary_emails]. *)
Definition dangling (owners : list TemporaryEmail.row) (v : option uuid)
  : bool :=
  match v with
  | Some x => negb (existsb (TemporaryEmail.has_id x) owners)
  | None => false
  end.

(** The foreign-key violation on [temp_email_id]: the specification's
    [UnknownOwner]. *)
Definition UnknownOwner : violation :=
  foreign_key_violation "received_emails_temp_email_id_fkey".

Definition violations (owners : list TemporaryEmail.row) (rows : list row)
    (r : row) : list violation :=
  when (is_null (id r)) (not_null_violation "id")
  ++ when (is_null (temp_email_id r)) (not_null_violation "temp_email_id")
  ++ when (is_null (from_address r)) (not_null_violation "from_address")
  ++ when (is_null (received_at r)) (not_null_violation "received_at")
  ++ when (negb (check_passes (reasonable_size r)))
       (check_violation "reasonable_size")
  ++ when (id_taken rows (id r)) (unique_violation "received_emails_pkey")
  ++ when (dangling owners (temp_email_id r)) UnknownOwner.

End ReceivedEmail.

(** ** The store and the statements run against it *)

Module Store.
Import Sql.

Record t : Type := Make {
  temporary_emails : list TemporaryEmail.row;
  received_emails : list ReceivedEmail.row
}.

Definition empty : t := {| temporary_emails := []; received_emails := [] |}.

(** [INSERT INTO temporary_emails (...) VALUES (...)] *)
Definition insert_temporary_email (s : session) (v : TemporaryEmail.values)
    (st : t) : result t :=
  let (r, coercion) := TemporaryEmail.candidate s v in
  match coercion ++ TemporaryEmail.violations (temporary_emails st) r with
  | [] => Ok {| temporary_emails := temporary_emails st ++ [r];
                received_emails := received_emails st |}
  | vs => Rejected vs
  end.

(** [INSERT INTO received_emails (...) VALUES (...)] *)
Definition insert_received_email (s : session) (v : ReceivedEmail.values)
    (st : t) : result t :=
  let (r, coercion) := ReceivedEmail.candidate s v in
  match coercion
        ++ ReceivedEmail.violations (temporary_emails st)
             (received_emails st) r with
  | [] => Ok {| temporary_emails := temporary_emails st;
                received_emails := received_emails st ++ [r] |}
  | vs => Rejected vs
  end.

(** A message references one of the rows [gone]. *)
Definition references (gone : list TemporaryEmail.row)
    (m : ReceivedEmail.row) : bool :=
  match ReceivedEmail.temp_email_id m with
  | Some x => existsb (TemporaryEmail.has_id x) gone
  | None => false
  end.

(** [DELETE FROM temporary_emails WHERE p]; [ON DELETE CASCADE] removes, in
    the same statement, every message that references a deleted row. *)
Definition delete_temporary_emails (p : TemporaryEmail.row -> bool)
    (st : t) : t :=
  let gone := filter p (temporary_emails st) in
  {| temporary_emails := filter (fun r => negb (p r)) (temporary_emails st);
     received_emails :=
       filter (fun m => negb (references gone m)) (received_emails st) |}.

(** [DELETE FROM received_emails WHERE p] *)
Definition delete_received_emails (p : ReceivedEmail.row -> bool)
    (st : t) : t :=
  {| temporary_emails := temporary_emails st;
     received_emails := filter (fun m => negb (p m)) (received_emails st) |}.

Definition set_is_active (b : option bool) (r : TemporaryEmail.row)
  : TemporaryEmail.row :=
  {| TemporaryEmail.id := TemporaryEmail.id r;
     TemporaryEmail.address := TemporaryEmail.address r;
     TemporaryEmail.username := TemporaryEmail.username r;
     TemporaryEmail.created_at := TemporaryEmail.created_at r;
     TemporaryEmail.expires_at := TemporaryEmail.expires_at r;
     TemporaryEmail.is_active := b |}.

(** [UPDATE temporary_emails SET is_active = b WHERE p]: no constraint and
    no trigger of the schema involves [is_active]. *)
Definition update_is_active (b : option bool)
    (p : TemporaryEmail.row -> bool) (st : t) : t :=
  {| temporary_emails :=
       map (fun r => if p r then set_is_active b r else r)
         (temporary_emails st);
     received_emails := received_emails st |}.

(** [UPDATE temporary_emails SET ... WHERE id = x]: the SET clause gives the
    new values from the old row.  The new row meets the table's constraints
    against the other rows, and, the foreign key of [received_emails] being
    ON UPDATE NO ACTION, it keeps the [id] that messages reference. *)
Definition update_temporary_email (s : session) (x : uuid)
    (set : TemporaryEmail.row -> TemporaryEmail.values) (st : t) : result t :=
  match find (TemporaryEmail.has_id x) (temporary_emails st) with
  | None => Ok st
  | Some old =>
      let (r, coercion) := TemporaryEmail.candidate s (set old) in
      let others :=
        filter (fun q => negb (TemporaryEmail.has_id x q))
          (temporary_emails st) in
      let referenced :=
        existsb (ReceivedEmail.owned_by x) (received_emails st) in
      match coercion
            ++ TemporaryEmail.violations others r
            ++ when (referenced && negb (TemporaryEmail.has_id x r))
                 ReceivedEmail.UnknownOwner with
      | [] =>
          Ok {| temporary_emails :=
                  map (fun q => if TemporaryEmail.has_id x q then r else q)
                    (temporary_emails st);
                received_emails := received_emails st |}
      | vs => Rejected vs
      end
  end.

(** [UPDATE received_emails SET ... WHERE id = x] *)
Definition update_received_email (s : session) (x : uuid)
    (set : ReceivedEmail.row -> ReceivedEmail.values) (st : t) : result t :=
  match find (ReceivedEmail.has_id x) (received_emails st) with
  | None => Ok st
  | Some old =>
      let (r, coercion) := ReceivedEmail.candidate s (set old) in
      let others :=
        filter (fun q => negb (ReceivedEmail.has_id x q))
          (received_emails st) in
      match coercion
            ++ ReceivedEmail.violations (temporary_emails st) others r with
      | [] =>
          Ok {| temporary_emails := temporary_emails st;
                received_emails :=
                  map (fun q => if ReceivedEmail.has_id x q then r else q)
                    (received_emails st) |}
      | vs => Rejected vs
      end
  end.

(** The store a statement leaves behind. *)
Definition after (st : t) (r : result t) : t :=
  match r with
  | Ok st' => st'
  | Rejected _ => st
  end.

Inductive statement : Type :=
| INSERT_temporary_email (s : session) (v : TemporaryEmail.values)
| INSERT_received_email (s : session) (v : ReceivedEmail.values)
| DELETE_temporary_emails (p : TemporaryEmail.row -> bool)
| DELETE_received_emails (p : ReceivedEmail.row -> bool)
| UPDATE_is_active (b : option bool) (p : TemporaryEmail.row -> bool)
| UPDATE_temporary_email (s : session) (x : uuid)
    (set : TemporaryEmail.row -> TemporaryEmail.values)
| UPDATE_received_email (s : session) (x : uuid)
    (set : ReceivedEmail.row -> ReceivedEmail.values).

Definition execute (st : t) (q : statement) : t :=
  match q with
  | INSERT_temporary_email s v => after st (insert_temporary_email s v st)
  | INSERT_received_email s v => after st (insert_received_email s v st)
  | DELETE_temporary_emails p => delete_temporary_emails p st
  | DELETE_received_emails p => delete_received_emails p st
  | UPDATE_is_active b p => update_is_active b p st
  | UPDATE_temporary_email s x set =>
      after st (update_temporary_email s x set st)
  | UPDATE_received_email s x set =>
      after st (update_received_email s x set st)
  end.

(** The stores these statements build from the freshly migrated, empty
    database. *)
Definition run (qs : list statement) : t := fold_left execute qs empty.

Definition reachable (st : t) : Prop := exists qs, st = run qs.

End Store.

(** ** What every reachable store satisfies *)

Module Invariant.
Import Sql Store.

Definition address_ok (r : TemporaryEmail.row) : Prop :=
  TemporaryEmail.id r <> None
  /\ (exists a, TemporaryEmail.address r = Some a
                /\ Regex.test TemporaryEmail.address_format_pattern a = true)
  /\ TemporaryEmail.created_at r <> None
  /\ TemporaryEmail.expires_at r <> None.

Definition message_ok (owners : list TemporaryEmail.row)
    (m : ReceivedEmail.row) : Prop :=
  ReceivedEmail.id m <> None
  /\ (exists x, ReceivedEmail.temp_email_id m = Some x
                /\ existsb (TemporaryEmail.has_id x) owners = true)
  /\ ReceivedEmail.from_address m <> None
  /\ ReceivedEmail.received_at m <> None
  /\ (forall n, ReceivedEmail.size_bytes m = Some n -> (n <= 10485760)%Z).

Record wf (st : Store.t) : Prop := Wf {
  wf_addresses : Forall address_ok (temporary_emails st);
  wf_address_ids : NoDup (map TemporaryEmail.id (temporary_emails st));
  wf_address_unique :
    NoDup (map TemporaryEmail.address (temporary_emails st));
  wf_messages :
    Forall (message_ok (temporary_emails st)) (received_emails st);
  wf_message_ids : NoDup (map ReceivedEmail.id (received_emails st))
}.

End Invariant.

(** ** The address format, read off the pattern *)

Module AddressFormat.

Definition is_alphanumeric (c : char) : bool :=
  ((chr "a" <=? c) && (c <=? chr "z"))%N
  || ((chr "A" <=? c) && (c <=? chr "Z"))%N
  || ((chr "0" <=? c) && (c <=? chr "9"))%N.

(** Alphanumeric, underscore or hyphen. *)
Definition local_part_char (c : char) : bool :=
  is_alphanumeric c || char_eqb c (chr "_") || char_eqb c (chr "-").

(** Alphanumeric, dot or hyphen. *)
Definition domain_char (c : char) : bool :=
  is_alphanumeric c || char_eqb c (chr ".") || char_eqb c (chr "-").

(** [local-part@domain] *)
Definition well_formed (s : text) : Prop :=
  exists l d,
    s = l ++ chr "@" :: d
    /\ l <> [] /\ Forall (fun c => local_part_char c = true) l
    /\ d <> [] /\ Forall (fun c => domain_char c = true) d.

End AddressFormat.

(** ** The mailbox operations

    The Rust crate that issues the statements ([crates/db]) is not part of
    the sources; its operations are taken from the specification and
    phrased as the statements they send to the schema above. *)

Module Mailbox.
Import Sql Store.

(** Modelled from the spec: [insert_address] of crates/db, "atomic
    single-row insert" that "persists an active record"; the statement
    names the address, the owner hint and the expiry and leaves [id],
    [created_at] and [is_active] to the schema's defaults. *)
Definition insert_address_values (address : text) (owner_hint : option text)
    (expires_at : timestamp) : TemporaryEmail.values :=
  {| TemporaryEmail.v_id := DEFAULT;
     TemporaryEmail.v_address := Some address;
     TemporaryEmail.v_username := owner_hint;
     TemporaryEmail.v_created_at := DEFAULT;
     TemporaryEmail.v_expires_at := Some expires_at;
     TemporaryEmail.v_is_active := DEFAULT |}.

(** Modelled from the spec: [resolve] of crates/db, "looks up by exact
    string match". *)
Definition resolve (address : text) (st : Store.t)
  : option TemporaryEmail.row :=
  find (TemporaryEmail.has_address address) (temporary_emails st).

(** Modelled from the spec: the rows a mailbox address resolves to, for the
    operations of crates/db that are "scoped to the owning address". *)
Definition owners (address : text) (st : Store.t) : list TemporaryEmail.row :=
  filter (TemporaryEmail.has_address address) (temporary_emails st).

(** Modelled from the spec: the ownership test of crates/db, "the
    message's owner_address_id matches the resolved address". *)
Definition owned (a : TemporaryEmail.row) (m : ReceivedEmail.row) : bool :=
  match TemporaryEmail.id a with
  | Some x => ReceivedEmail.owned_by x m
  | None => false
  end.

(** Modelled from the spec: "currently active", for crates/db. *)
Definition is_activated (r : TemporaryEmail.row) : bool :=
  match TemporaryEmail.is_active r with
  | Some true => true
  | _ => false
  end.

(** Modelled from the spec: the check of crates/db that the key
    "references an existing, currently active address". *)
Definition references_active (st : Store.t) (v : option uuid) : bool :=
  match v with
  | Some x =>
      existsb (fun r => TemporaryEmail.has_id x r && is_activated r)
        (temporary_emails st)
  | None => false
  end.

(** Modelled from the spec: [insert_message] of crates/db, an "atomic
    single-row insert" that "fails with UnknownOwner if owner_address_id
    does not reference an existing, currently active address at insert
    time".  The INSERT it sends is checked by the schema as any other. *)
Definition insert_message (s : session) (v : ReceivedEmail.values)
    (st : Store.t) : result Store.t :=
  if references_active st (ReceivedEmail.v_temp_email_id v)
  then insert_received_email s v st
  else Rejected [ReceivedEmail.UnknownOwner].

(** Modelled from the spec: the result of a read of crates/db, "full
    record | NotFound". *)
Inductive lookup (A : Type) : Type :=
| Found (a : A)
| NotFound.
Arguments NotFound {A}.

(** Modelled from the spec: [get_message(address, id)] of crates/db, which
    "must additionally verify the message's owner_address_id matches the
    resolved address". *)
Definition get_message (address : text) (id : uuid) (st : Store.t)
  : lookup ReceivedEmail.row :=
  match resolve address st with
  | None => NotFound
  | Some a =>
      match find (ReceivedEmail.has_id id) (received_emails st) with
      | Some m => if owned a m then Found m else NotFound
      | None => NotFound
      end
  end.

(** Modelled from the spec: the rows [sweep_expired] of crates/db finds,
    "all addresses with is_active=true and now > expires_at". *)
Definition expired (now : timestamp) (r : TemporaryEmail.row) : bool :=
  match TemporaryEmail.is_active r, TemporaryEmail.expires_at r with
  | Some true, Some e => (e <? now)%Z
  | _, _ => false
  end.

(** Modelled from the spec: a row "after deactivation", for the row
    removal of crates/db. *)
Definition is_deactivated (r : TemporaryEmail.row) : bool :=
  match TemporaryEmail.is_active r with
  | Some false => true
  | _ => false
  end.

(** Modelled from the spec: [deactivate(address)] of crates/db, which "sets
    is_active=false" and deletes the owned messages "as part of the same
    atomic operation". *)
Definition deactivate_statements (address : text) (st : Store.t)
  : list statement :=
  [UPDATE_is_active (Some false) (TemporaryEmail.has_address address);
   DELETE_received_emails (references (owners address st))].

(** Modelled from the spec: the addresses a sweep of crates/db
    deactivates. *)
Definition addresses_of (rows : list TemporaryEmail.row) : list text :=
  flat_map (fun r => match TemporaryEmail.address r with
                     | Some a => [a]
                     | None => []
                     end) rows.

(** Modelled from the spec: the mutating operations of crates/db
    ([insert_address], [insert_message], [delete_message], [delete_all],
    [deactivate], [sweep_expired]) and the removal of a deactivated row. *)
Inductive operation : Type :=
| Insert_address (s : session) (address : text) (owner_hint : option text)
    (expires_at : timestamp)
| Insert_message (s : session) (v : ReceivedEmail.values)
| Delete_message (address : text) (id : uuid)
| Delete_all (address : text)
| Deactivate (address : text)
| Sweep_expired (now : timestamp) (batch : nat)
| Destroy (address : text).

(** Modelled from the spec: [deactivate(address)] of crates/db, as the
    store its transaction commits. *)
Definition deactivate (address : text) (st : Store.t) : Store.t :=
  fold_left execute (deactivate_statements address st) st.

(** Modelled from the spec: the store operations of crates/db (sections
    4.1 and 4.3) with the data model's row removal "only after
    deactivation".  Each is "atomic": it commits the effect of all its
    statements at once, the next store any reader sees; [sweep_expired]
    "deactivates each" expired address of its bounded batch. *)
Definition apply (st : Store.t) (o : operation) : Store.t :=
  match o with
  | Insert_address s address owner_hint expires_at =>
      execute st
        (INSERT_temporary_email s
           (insert_address_values address owner_hint expires_at))
  | Insert_message s v => after st (insert_message s v st)
  | Delete_message address id =>
      execute st
        (DELETE_received_emails
           (fun m => ReceivedEmail.has_id id m
                     && references (owners address st) m))
  | Delete_all address =>
      execute st (DELETE_received_emails (references (owners address st)))
  | Deactivate address => deactivate address st
  | Sweep_expired now batch =>
      fold_left (fun st' a => deactivate a st')
        (addresses_of
           (firstn batch (filter (expired now) (temporary_emails st))))
        st
  | Destroy address =>
      execute st
        (DELETE_temporary_emails
           (fun r => TemporaryEmail.has_address address r && is_deactivated r))
  end.

(** Modelled from the spec: the committed store after a history of
    operations of crates/db on the empty database. *)
Definition after_history (os : list operation) : Store.t :=
  fold_left apply os Store.empty.

(** Modelled from the spec: "no message may be created whose
    owner_address_id refers to an address that is not active", and none
    survives its mailbox's deactivation: whoever owns a message is
    active. *)
Definition owners_active (st : Store.t) : Prop :=
  forall a m,
    In a (temporary_emails st) -> In m (received_emails st) ->
    owned a m = true -> TemporaryEmail.is_active a = Some true.

End Mailbox.

(** ** JavaScript values that cross the routes *)

Module Js.

(** What [JSON.parse] returns.  An object keeps one member per key. *)
#[local] Unset Elimination Schemes.
Inductive json : Type :=
| JNull
| JBool (b : bool)
| JNumber (x : PrimFloat.float)
| JString (s : text)
| JArray (items : list json)
| JObject (members : list (text * json)).
#[local] Set Elimination Schemes.

(** A value read from a property or a variable: [undefined] is [None]. *)
Definition value := option json.

Fixpoint member (key : text) (members : list (text * json)) : value :=
  match members with
  | [] => None
  | (k, v) :: rest => if text_eqb k key then Some v else member key rest
  end.

(** ToBoolean *)
Definition truthy (v : value) : bool :=
  match v with
  | None => false
  | Some JNull => false
  | Some (JBool b) => b
  | Some (JNumber x) => negb (PrimFloat.is_zero x || PrimFloat.is_nan x)
  | Some (JString s) => negb (Regex.is_nil s)
  | Some (JArray _) => true
  | Some (JObject _) => true
  end.

(** [a || b] *)
Definition or_else (a b : value) : value := if truthy a then a else b.

(** [j.key]; reading a property of [null] throws a TypeError. *)
Inductive completion (A : Type) : Type :=
| Normal (a : A)
| Throw.
Arguments Throw {A}.

Definition get (j : json) (key : text) : completion value :=
  match j with
  | JNull => Throw
  | JObject members => Normal (member key members)
  | _ => Normal None
  end.

(** An object literal as [JSON.stringify] writes it: a member whose value
    is [undefined] is left out. *)
Fixpoint defined_members (ms : list (text * value)) : list (text * json) :=
  match ms with
  | [] => []
  | (k, Some v) :: rest => (k, v) :: defined_members rest
  | (_, None) :: rest => defined_members rest
  end.

Definition object (members : list (text * value)) : json :=
  JObject (defined_members members).

(** [!s] for [s : string | null | undefined] *)
Definition blank (s : option text) : bool :=
  match s with
  | Some (_ :: _) => false
  | _ => true
  end.

End Js.

(** ** Responses *)

Module Http.
Import Js.

Record response : Type := Response { status : Z; body : json }.

(** [Response.ok] *)
Definition ok (status : Z) : bool := ((200 <=? status) && (status <=? 299))%Z.

Definition null_body_status (status : Z) : bool :=
  existsb (Z.eqb status) [101; 204; 205; 304]%Z.

(** [NextResponse.json(body, { status })]: the Response constructor throws
    on a status outside 200..599 and on a body for a null-body status. *)
Definition json_response (status : Z) (body : json) : completion response :=
  if ((200 <=? status) && (status <=? 599))%Z && negb (null_body_status status)
  then Normal {| status := status; body := body |}
  else Throw.

(** What [await fetch(url, init)] followed by [await response.text()] gives
    the route: the status, the text, and what [JSON.parse] makes of the text
    ([None] when it throws a SyntaxError). *)
Record backend_response : Type := Backend {
  backend_status : Z;
  responseText : text;
  JSON_parse : option json
}.

End Http.

(** ** [GET /api/emails/[id]] ([src/ui/src/app/api/emails/[id]/route.ts]) *)

Module EmailRoute.
Import Js Http.

Definition backendUrl (address id : text) : text :=
  lit "http://127.0.0.1:3001/api/email/" ++ address ++ lit "/" ++ id.

Definition error_body (e : value) : json := object [(lit "error", e)].

Definition internal_server_error : response :=
  {| status := 500;
     body := error_body (Some (JString (lit "Internal server error."))) |}.

(** The [catch (error)] that encloses the body of the handler. *)
Definition or_internal_error (c : completion response) : response :=
  match c with
  | Normal r => r
  | Throw => internal_server_error
  end.

(** The branch [if (!backendResponse.ok)]: the inner [try] parses the text
    and reads [errorJson.error]; its [catch] answers with the raw text. *)
Definition relay_failure (r : backend_response) : completion response :=
  let attempt :=
    match JSON_parse r with
    | None => Throw
    | Some errorJson =>
        match get errorJson (lit "error") with
        | Throw => Throw
        | Normal e =>
            json_response (backend_status r)
              (error_body
                 (or_else e (Some (JString (lit "Failed to fetch email.")))))
        end
    end in
  match attempt with
  | Normal resp => Normal resp
  | Throw =>
      json_response (backend_status r)
        (error_body (Some (JString (responseText r))))
  end.

Definition bad_request : response :=
  {| status := 400;
     body := error_body
       (Some (JString (lit "Email ID and temporary address are required."))) |}.

(** [fetch] is the backend as the route reaches it: [None] when the call
    rejects.  [id] is [context.params.id], [address] is
    [searchParams.get("address")]. *)
Definition GET (fetch : text -> option backend_response)
    (id : text) (address : option text) : response :=
  if blank (Some id) || blank address then bad_request
  else
    let address := match address with Some a => a | None => [] end in
    or_internal_error
      match fetch (backendUrl address id) with
      | None => Throw
      | Some r =>
          if negb (ok (backend_status r)) then relay_failure r
          else
            match JSON_parse r with
            | None => Throw
            | Some email => json_response 200 email
            end
      end.

(** The backend behind the route. *)
Section Backend.

(** The text of the backend's not-found error, its rendering of a message
    as [{id, from_address, subject, body_plain, body_html, received_at}],
    and the text it sends for a JSON value; the specification fixes none of
    them. *)
Variable not_found_message : text.
Variable detail : ReceivedEmail.row -> json.
Variable JSON_stringify : json -> text.

Definition json_reply (status : Z) (j : json) : backend_response :=
  {| backend_status := status;
     responseText := JSON_stringify j;
     JSON_parse := Some j |}.

(** Modelled from the spec: [GET /api/email/{address}/{id}] of the HTTP
    server crate, which answers with the record, or with 404 and a
    structured JSON error "not found / cross-mailbox". *)
Definition reply (found : Mailbox.lookup ReceivedEmail.row)
  : backend_response :=
  match found with
  | Mailbox.Found m => json_reply 200 (detail m)
  | Mailbox.NotFound =>
      json_reply 404 (error_body (Some (JString not_found_message)))
  end.

End Backend.

End EmailRoute.

(** ** [POST /api/generate] ([src/ui/src/app/api/generate/route.ts]) *)

Module GenerateRoute.
Import Js Http.

(** [/^[a-zA-Z0-9_]+$/] *)
Definition username_chars : list (char * char) :=
  [(chr "a", chr "z"); (chr "A", chr "Z"); (chr "0", chr "9");
   (chr "_", chr "_")].

Definition username_pattern : Regex.pattern :=
  Regex.Pattern true (Regex.Plus (Regex.Bracket username_chars)) true.

(** The checks of [z.string().min(3).max(20).regex(...)]: zod runs all of
    them and reports every one that fails.  [length] counts UTF-16 code
    units, as [String.prototype.length] does. *)
Definition string_issues (s : text) : list text :=
  (if (List.length s <? 3)%nat
   then [lit "Username must be at least 3 characters long."] else [])
  ++ (if (20 <? List.length s)%nat
      then [lit "Username must be no more than 20 characters long."] else [])
  ++ (if Regex.test username_pattern s then []
      else [lit "Username can only contain letters, numbers, and underscores."]).

(** zod's name for the type of a value ("Expected string, received ..."). *)
Definition received (j : json) : text :=
  match j with
  | JNull => lit "null"
  | JBool _ => lit "boolean"
  | JNumber _ => lit "number"
  | JString _ => lit "string"
  | JArray _ => lit "array"
  | JObject _ => lit "object"
  end.

(** [validationResult.data.username] *)
Inductive username : Type :=
| Undefined
| Null
| Username (s : text).

(** [safeParse]: the parsed username, or
    [error.flatten().fieldErrors.username] ([None] when no issue is filed
    under [username], as for a body that is not an object). *)
Inductive validation : Type :=
| Success (data : username)
| Failure (fieldErrors_username : option (list text)).

Definition GenerateEmailRequestSchema (body : json) : validation :=
  match body with
  | JObject members =>
      match member (lit "username") members with
      | None => Success Undefined                      (* .optional() *)
      | Some JNull => Success Null                     (* .nullable() *)
      | Some (JString s) =>
          match string_issues s with
          | [] => Success (Username s)
          | issues => Failure (Some issues)
          end
      | Some other =>
          Failure (Some [lit "Expected string, received " ++ received other])
      end
  | _ => Failure None
  end.

(** [process.env] *)
Record env : Type := Env { BACKEND_URL : option text }.

(** [.replace(/\/$/, "")] *)
Fixpoint remove_trailing_slash (s : text) : text :=
  match s with
  | [] => []
  | [c] => if char_eqb c (chr "/") then [] else [c]
  | c :: rest => c :: remove_trailing_slash rest
  end.

(** The call [fetch(backendUrl, { method: "POST", ..., body })]. *)
Record forwarded : Type := Forward { url : text; payload : json }.

(** What one request does: the call made to the backend, if any, and the
    response. *)
Record outcome : Type := Outcome {
  forward : option forwarded;
  response : Http.response
}.

Definition error (message : string) : json :=
  object [(lit "error", Some (JString (lit message)))].

Definition internal_server_error : Http.response :=
  {| status := 500; body := error "Internal Server Error" |}.

(** The outer [catch] once the request body has been read: what is thrown
    from there on is not a SyntaxError. *)
Definition or_internal_error (c : completion Http.response) : Http.response :=
  match c with
  | Normal r => r
  | Throw => internal_server_error
  end.

(** [username || null] *)
Definition username_or_null (u : username) : json :=
  match u with
  | Username (c :: s) => JString (c :: s)
  | _ => JNull
  end.

(** From [const responseText = await backendResponse.text()] to the end of
    the [try] block. *)
Definition relay (r : backend_response) : completion Http.response :=
  match JSON_parse r with
  | None =>
      json_response (backend_status r)
        (object
           [(lit "error",
             Some (JString
                     (lit "Received an invalid (non-JSON) response from the backend.")));
            (lit "details", Some (JString (responseText r)))])
  | Some data =>
      if negb (ok (backend_status r))
      then
        match get data (lit "error") with
        | Throw => Throw
        | Normal e =>
            json_response (backend_status r)
              (object
                 [(lit "error",
                   or_else e
                     (Some (JString
                              (lit "An unknown error occurred from the backend."))))])
        end
      else json_response (backend_status r) data
  end.

(** [request_body] is what [await request.json()] gives: [None] when it
    throws a SyntaxError.  [fetch] is [None] when the call rejects. *)
Definition POST (e : env) (fetch : forwarded -> option backend_response)
    (request_body : option json) : outcome :=
  match request_body with
  | None =>
      {| forward := None;
         response := {| status := 400;
                        body := error "Invalid JSON in request body." |} |}
  | Some body =>
      match GenerateEmailRequestSchema body with
      | Failure details =>
          {| forward := None;
             response :=
               {| status := 400;
                  body := object
                    [(lit "error", Some (JString (lit "Invalid username.")));
                     (lit "details",
                      option_map (fun ms => JArray (map JString ms)) details)] |} |}
      | Success u =>
          if blank (BACKEND_URL e)
          then
            {| forward := None;
               response :=
                 {| status := 500;
                    body := error
                      "Server configuration error: BACKEND_URL is not set." |} |}
          else
            let baseUrl :=
              remove_trailing_slash
                (match BACKEND_URL e with Some b => b | None => [] end) in
            let call :=
              {| url := baseUrl ++ lit "/api/email/generate";
                 payload := object [(lit "username", Some (username_or_null u))] |} in
            {| forward := Some call;
               response :=
                 or_internal_error
                   match fetch call with
                   | None => Throw
                   | Some r => relay r
                   end |}
      end
  end.

End GenerateRoute.

(** ** [renderBody] ([src/ui/src/components/ui/email-view.tsx]) *)

Module EmailView.

Record EmailDetail : Type := Email {
  id : text;
  from_address : text;
  subject : text;
  body_plain : option text;   (* string | null *)
  body_html : option text;    (* string | null *)
  received_at : text
}.

(** The elements [renderBody] returns. *)
Inductive element : Type :=
| div_dangerouslySetInnerHTML (className : text) (__html : text)
| p (className : text) (children : text).

Definition renderBody (email : EmailDetail) : element :=
  match body_html email with
  | Some (c :: html) =>
      div_dangerouslySetInnerHTML
        (lit "prose prose-invert prose-sm md:prose-base max-w-none") (c :: html)
  | _ =>
      match body_plain email with
      | Some (c :: plain) => p (lit "whitespace-pre-wrap") (c :: plain)
      | _ => p (lit "text-zinc-500 italic") (lit "This email has no content.")
      end
  end.

Definition no_content : element :=
  p (lit "text-zinc-500 italic") (lit "This email has no content.").

End EmailView.

(** ** Rows that continue rows *)

Module Monotone.
Import Store.

(** Every row of [rows'] continues a row of [rows], and an inactive row is
    continued by an inactive one. *)
Definition continues (rows rows' : list TemporaryEmail.row) : Prop :=
  forall r', In r' rows' ->
    exists r, In r rows
              /\ TemporaryEmail.id r' = TemporaryEmail.id r
              /\ (TemporaryEmail.is_active r = Some false ->
                  TemporaryEmail.is_active r' = Some false).

(** The statements that add no address and reactivate none. *)
Definition quiet (q : statement) : Prop :=
  match q with
  | INSERT_temporary_email _ _ => False
  | UPDATE_temporary_email _ _ _ => False
  | UPDATE_is_active b _ => b = Some false
  | _ => True
  end.

End Monotone.

(** ** The characters of a username *)

Module Username.

(** A letter, a digit or an underscore. *)
Definition allowed (c : char) : bool :=
  AddressFormat.is_alphanumeric c || char_eqb c (chr "_").

End Username.

(** A backend that cannot be reached. *)
Definition no_backend : GenerateRoute.forwarded -> option Http.backend_response :=
  fun _ => None.

(** ** Sample data *)

Module Example.
Import Sql Store Mailbox.

Definition session (n : N) : Sql.session :=
  {| gen_random_uuid := n; NOW := (1000 * Z.of_N n)%Z |}.

Definition alice : text := lit "alice_01@mail.example.com".
Definition bob : text := lit "bob-2@mail.example.com".

Definition message (owner : option uuid) (size : option Z)
  : ReceivedEmail.values :=
  {| ReceivedEmail.v_id := DEFAULT;
     ReceivedEmail.v_temp_email_id := owner;
     ReceivedEmail.v_from_address := Some (lit "a@b.com");
     ReceivedEmail.v_subject := Some (lit "Test");
     ReceivedEmail.v_body_plain := Some (lit "hello");
     ReceivedEmail.v_body_html := None;
     ReceivedEmail.v_headers := None;
     ReceivedEmail.v_received_at := DEFAULT;
     ReceivedEmail.v_size_bytes := size |}.

(** Two mailboxes; alice (id 1) holds one message (id 3) of 5 bytes. *)
Definition two_mailboxes : list statement :=
  [INSERT_temporary_email (session 1)
     (insert_address_values alice None 86400000%Z);
   INSERT_temporary_email (session 2)
     (insert_address_values bob (Some (lit "bob")) 86400000%Z);
   INSERT_received_email (session 3) (message (Some 1%N) (Some 5%Z))].

Definition inbox : Store.t := Store.run two_mailboxes.

(** The same store after [UPDATE temporary_emails SET is_active = FALSE]
    on alice's row: the row stays, inactive. *)
Definition alice_inactive : Store.t :=
  Store.run
    (two_mailboxes
     ++ [UPDATE_is_active (Some false) (TemporaryEmail.has_address alice)]).

(** A message whose size was not recorded. *)
Definition unsized : Store.t :=
  Store.run
    (two_mailboxes
     ++ [INSERT_received_email (session 4) (message (Some 2%N) None)]).

Definition oversized : ReceivedEmail.values :=
  message (Some 1%N) (Some 10485761%Z).

(** A backend that answers every call with what [get_message] finds for
    one address and id. *)
Definition backend (st : Store.t) (address : text) (id : uuid)
  : text -> option Http.backend_response :=
  fun _ =>
    Some (EmailRoute.reply (lit "Email not found") (fun _ => Js.JNull)
            (fun _ => []) (get_message address id st)).

(** alice's mailbox, created and then deactivated. *)
Definition deactivated : list operation :=
  [Insert_address (session 1) alice None 86400000%Z; Deactivate alice].

End Example.

(** ** The statuses a response can be built with *)

Module Status.

(** [new Response(body, { status })] with a body takes a status from 200
    to 599 that is not a null-body status. *)
Definition constructible (status : Z) : bool :=
  ((200 <=? status) && (status <=? 599))%Z
  && negb (Http.null_body_status status).

End Status.

(** ** A response on the wire *)

Module Wire.
Import Js.

(** [JSON.parse(JSON.stringify(v))] for a [v] that [JSON.parse] returned:
    what the reader of a response gets for the value the route handed to
    [NextResponse.json].  [JSON.stringify] writes a number that is not
    finite as [null] and negative zero as [0]; every other value is read
    back as it was. *)
Fixpoint written (v : json) : json :=
  match v with
  | JNumber x =>
      if PrimFloat.is_nan x || PrimFloat.is_infinity x then JNull
      else if PrimFloat.is_zero x then JNumber PrimFloat.zero
      else JNumber x
  | JArray items => JArray (map written items)
  | JObject members =>
      JObject (map (fun kv => (fst kv, written (snd kv))) members)
  | other => other
  end.

(** The response as its reader gets it. *)
Definition delivered (r : Http.response) : Http.response :=
  {| Http.status := Http.status r; Http.body := written (Http.body r) |}.

End Wire.

(** ** [DELETE /api/emails/[id]] ([src/ui/src/app/api/emails/[id]/route.ts]) *)

Module DeleteEmailRoute.
Import Js Http.

(** The branch [if (!backendResponse.ok)] of [DELETE]. *)
Definition relay_failure (r : backend_response) : completion response :=
  let attempt :=
    match JSON_parse r with
    | None => Throw
    | Some errorJson =>
        match get errorJson (lit "error") with
        | Throw => Throw
        | Normal e =>
            json_response (backend_status r)
              (EmailRoute.error_body
                 (or_else e (Some (JString (lit "Failed to delete email.")))))
        end
    end in
  match attempt with
  | Normal resp => Normal resp
  | Throw =>
      json_response (backend_status r)
        (EmailRoute.error_body (Some (JString (responseText r))))
  end.

(** [fetch] is the backend as [fetch(backendUrl, { method: "DELETE" })]
    reaches it: [None] when the call rejects. *)
Definition DELETE (fetch : text -> option backend_response)
    (id : text) (address : option text) : response :=
  if blank (Some id) || blank address then EmailRoute.bad_request
  else
    let address := match address with Some a => a | None => [] end in
    EmailRoute.or_internal_error
      match fetch (EmailRoute.backendUrl address id) with
      | None => Throw
      | Some r =>
          if negb (ok (backend_status r)) then relay_failure r
          else
            match JSON_parse r with
            | None => Throw
            | Some deletedEmail => json_response 200 deletedEmail
            end
      end.

End DeleteEmailRoute.

(** ** [DELETE /api/emails/all] ([src/ui/src/app/api/emails/all/route.ts]) *)

Module DeleteAllRoute.
Import Js Http.

Definition backendUrl (address : text) : text :=
  lit "http://127.0.0.1:3001/api/email/" ++ address ++ lit "/all".

Definition bad_request : response :=
  {| status := 400;
     body := EmailRoute.error_body
       (Some (JString (lit "Temporary address is required."))) |}.

Definition relay_failure (r : backend_response) : completion response :=
  let attempt :=
    match JSON_parse r with
    | None => Throw
    | Some errorJson =>
        match get errorJson (lit "error") with
        | Throw => Throw
        | Normal e =>
            json_response (backend_status r)
              (EmailRoute.error_body
                 (or_else e (Some (JString (lit "Failed to delete emails.")))))
        end
    end in
  match attempt with
  | Normal resp => Normal resp
  | Throw =>
      json_response (backend_status r)
        (EmailRoute.error_body (Some (JString (responseText r))))
  end.

Definition DELETE (fetch : text -> option backend_response)
    (address : option text) : response :=
  if blank address then bad_request
  else
    let address := match address with Some a => a | None => [] end in
    EmailRoute.or_internal_error
      match fetch (backendUrl address) with
      | None => Throw
      | Some r =>
          if negb (ok (backend_status r)) then relay_failure r
          else
            match JSON_parse r with
            | None => Throw
            | Some data => json_response 200 data
            end
      end.

End DeleteAllRoute.

(** ** [GET /api/emails] ([src/ui/src/app/api/emails/route.ts]) *)

Module EmailsRoute.
Import Js Http.

Definition backendUrl (baseUrl address : text) : text :=
  baseUrl ++ lit "/api/email/" ++ address ++ lit "/summaries".

(** From [const responseText = await backendResponse.text()] to the end of
    the [try] block. *)
Definition relay (r : backend_response) : completion response :=
  match JSON_parse r with
  | None =>
      json_response (backend_status r)
        (object
           [(lit "error",
             or_else (Some (JString (responseText r)))
               (Some (JString
                        (lit "Received an invalid response from the backend."))))])
  | Some data =>
      if negb (ok (backend_status r))
      then
        match get data (lit "error") with
        | Throw => Throw
        | Normal e =>
            json_response (backend_status r)
              (object
                 [(lit "error",
                   or_else e
                     (Some (JString
                              (lit "Failed to fetch emails from backend."))))])
        end
      else json_response (backend_status r) data
  end.

(** [address] is [searchParams.get("address")]; [fetch] is [None] when the
    call rejects. *)
Definition GET (e : GenerateRoute.env)
    (fetch : text -> option backend_response) (address : option text)
  : response :=
  if blank address
  then {| status := 400;
          body := GenerateRoute.error "Address query parameter is required." |}
  else if blank (GenerateRoute.BACKEND_URL e)
  then {| status := 500;
          body := GenerateRoute.error "Server configuration error." |}
  else
    let address := match address with Some a => a | None => [] end in
    let baseUrl :=
      GenerateRoute.remove_trailing_slash
        (match GenerateRoute.BACKEND_URL e with Some b => b | None => [] end) in
    GenerateRoute.or_internal_error
      match fetch (backendUrl baseUrl address) with
      | None => Throw
      | Some r => relay r
      end.

End EmailsRoute.

(** ** What a page reads from a reply *)

Module Browser.
Import Js.

(** [await response.json()]: the value, or the message of the error it
    rejects with. *)
Inductive parsed (A : Type) : Type :=
| Value (a : A)
| Unparsed (message : text).
Arguments Unparsed {A}.

(** [await fetch(...)] as a handler sees it: the call rejects, with
    [err.message]; or it answers, with [response.ok] false or true and
    what [response.json()] gives.  A page types what it reads from an ok
    reply ([EmailSummary[]], [EmailDetail]); [A] is that type. *)
Inductive reply (A : Type) : Type :=
| Rejects (message : text)
| NotOk (data : parsed json)
| IsOk (data : parsed A).
Arguments Rejects {A}.
Arguments NotOk {A}.

(** The texts that are the engine's: [String(v)] for a [v] that is not a
    string, and the message of the TypeError for a property read on
    [null]. *)
Record engine : Type := Engine {
  ToString : value -> text;
  TypeError_message : text
}.

(** [String(v)] *)
Definition to_string (js : engine) (v : value) : text :=
  match v with
  | Some (JString s) => s
  | _ => ToString js v
  end.

(** [err.message] for what the branch [if (!response.ok)] throws:
    [new Error(data.error || fallback)] after [data = await
    response.json()]. *)
Definition failure_message (js : engine) (fallback : text)
    (data : parsed json) : text :=
  match data with
  | Unparsed m => m
  | Value d =>
      match get d (lit "error") with
      | Throw => TypeError_message js
      | Normal e => to_string js (or_else e (Some (JString fallback)))
      end
  end.

(** A reply of a route of this application, as the page that called it
    reads it: the route sends JSON, so [response.json()] gives its body. *)
Definition seen (r : Http.response) : reply json :=
  if Http.ok (Http.status r) then IsOk (Value (Http.body r))
  else NotOk (Value (Http.body r)).

End Browser.

(** ** The page [Home] (the form that asks for an address) *)

Module Home.
Import Js Browser.

(** What [onSubmit] leaves behind: the state of the component, the item
    written to [sessionStorage] under [temp_address], and the route pushed
    to the router. *)
Record result : Type := Result {
  isLoading : bool;
  error : option text;
  sessionStorage_temp_address : option text;
  router_push : option text
}.

(** [JSON.stringify({ username: username || null })], as the route's
    [request.json()] reads it back. *)
Definition request_body (username : text) : json :=
  object
    [(lit "username",
      Some (match username with
            | [] => JNull
            | c :: s => JString (c :: s)
            end))].

(** The [catch] and the [finally]. *)
Definition failed (message : text) : result :=
  {| isLoading := false;
     error := Some message;
     sessionStorage_temp_address := None;
     router_push := None |}.

(** [onSubmit], from the reply of [fetch("/api/generate", ...)] on;
    before the call it has set [isLoading] and cleared [error]. *)
Definition onSubmit (js : engine) (r : reply json) : result :=
  match r with
  | Rejects m => failed m
  | NotOk (Unparsed m) => failed m
  | IsOk (Unparsed m) => failed m
  | NotOk (Value data) =>
      failed (failure_message js (lit "Something went wrong") (Value data))
  | IsOk (Value data) =>
      match get data (lit "address") with
      | Throw => failed (TypeError_message js)
      | Normal newEmailAddress =>
          if truthy newEmailAddress
          then {| isLoading := false;
                  error := None;
                  sessionStorage_temp_address :=
                    Some (to_string js newEmailAddress);
                  router_push := Some (lit "/emails") |}
          else failed (lit "Backend did not return a new email address.")
      end
  end.

End Home.

(** ** The page [EmailsPage] (the inbox) *)

Module EmailsPage.
Import Js Browser.

Record EmailSummary : Type := Summary {
  id : text;
  from_address : text;
  subject : text;
  received_at : text;
  preview : option text       (* string | null *)
}.

Inductive toast_type : Type := success | failure.

Record Toast : Type := MakeToast { message : text; type : toast_type }.

(** The [useState] cells. *)
Record state : Type := State {
  emails : list EmailSummary;
  tempAddress : option text;
  isLoading : bool;
  error : option text;
  selectedEmail : option EmailView.EmailDetail;
  isViewing : bool;
  viewError : option text;
  isDeleting : bool;
  toast : option Toast;
  isCopied : bool
}.

Definition initial : state :=
  {| emails := []; tempAddress := None; isLoading := true; error := None;
     selectedEmail := None; isViewing := false; viewError := None;
     isDeleting := false; toast := None; isCopied := false |}.

Definition setEmails (v : list EmailSummary) (st : state) : state :=
  {| emails := v; tempAddress := tempAddress st; isLoading := isLoading st;
     error := error st; selectedEmail := selectedEmail st;
     isViewing := isViewing st; viewError := viewError st;
     isDeleting := isDeleting st; toast := toast st; isCopied := isCopied st |}.

Definition setTempAddress (v : option text) (st : state) : state :=
  {| emails := emails st; tempAddress := v; isLoading := isLoading st;
     error := error st; selectedEmail := selectedEmail st;
     isViewing := isViewing st; viewError := viewError st;
     isDeleting := isDeleting st; toast := toast st; isCopied := isCopied st |}.

Definition setIsLoading (v : bool) (st : state) : state :=
  {| emails := emails st; tempAddress := tempAddress st; isLoading := v;
     error := error st; selectedEmail := selectedEmail st;
     isViewing := isViewing st; viewError := viewError st;
     isDeleting := isDeleting st; toast := toast st; isCopied := isCopied st |}.

Definition setError (v : option text) (st : state) : state :=
  {| emails := emails st; tempAddress := tempAddress st;
     isLoading := isLoading st; error := v; selectedEmail := selectedEmail st;
     isViewing := isViewing st; viewError := viewError st;
     isDeleting := isDeleting st; toast := toast st; isCopied := isCopied st |}.

Definition setSelectedEmail (v : option EmailView.EmailDetail) (st : state)
  : state :=
  {| emails := emails st; tempAddress := tempAddress st;
     isLoading := isLoading st; error := error st; selectedEmail := v;
     isViewing := isViewing st; viewError := viewError st;
     isDeleting := isDeleting st; toast := toast st; isCopied := isCopied st |}.

Definition setIsViewing (v : bool) (st : state) : state :=
  {| emails := emails st; tempAddress := tempAddress st;
     isLoading := isLoading st; error := error st;
     selectedEmail := selectedEmail st; isViewing := v;
     viewError := viewError st; isDeleting := isDeleting st;
     toast := toast st; isCopied := isCopied st |}.

Definition setViewError (v : option text) (st : state) : state :=
  {| emails := emails st; tempAddress := tempAddress st;
     isLoading := isLoading st; error := error st;
     selectedEmail := selectedEmail st; isViewing := isViewing st;
     viewError := v; isDeleting := isDeleting st; toast := toast st;
     isCopied := isCopied st |}.

Definition setIsDeleting (v : bool) (st : state) : state :=
  {| emails := emails st; tempAddress := tempAddress st;
     isLoading := isLoading st; error := error st;
     selectedEmail := selectedEmail st; isViewing := isViewing st;
     viewError := viewError st; isDeleting := v; toast := toast st;
     isCopied := isCopied st |}.

Definition setToast (v : option Toast) (st : state) : state :=
  {| emails := emails st; tempAddress := tempAddress st;
     isLoading := isLoading st; error := error st;
     selectedEmail := selectedEmail st; isViewing := isViewing st;
     viewError := viewError st; isDeleting := isDeleting st; toast := v;
     isCopied := isCopied st |}.

Definition setIsCopied (v : bool) (st : state) : state :=
  {| emails := emails st; tempAddress := tempAddress st;
     isLoading := isLoading st; error := error st;
     selectedEmail := selectedEmail st; isViewing := isViewing st;
     viewError := viewError st; isDeleting := isDeleting st;
     toast := toast st; isCopied := v |}.

(** [showToast(message, type)], up to its timer. *)
Definition showToast (message : text) (type : toast_type) (st : state)
  : state :=
  setToast (Some {| message := message; type := type |}) st.

(** [handleCloseView] *)
Definition handleCloseView (st : state) : state :=
  setViewError None (setSelectedEmail None (setIsViewing false st)).

(** [prev.filter((e) => e.id !== emailId)] *)
Definition without (emailId : text) (prev : list EmailSummary)
  : list EmailSummary :=
  filter (fun e => negb (text_eqb (id e) emailId)) prev.

(** What happens to the page, one uninterrupted run of code at a time: a
    handler up to its [await], the rest of a handler once its call has
    settled, a timer. *)
Inductive event : Type :=
| mounted (address : option text)
    (* useEffect; [address] is sessionStorage.getItem("temp_address") *)
| fetched (r : reply (list EmailSummary))      (* fetchEmails settles *)
| clicked (emailId : text)                     (* handleEmailClick starts *)
| opened (r : reply EmailView.EmailDetail)     (* handleEmailClick settles *)
| closed                                       (* handleCloseView *)
| delete_pressed (emailId : text)              (* handleDeleteEmail starts *)
| deleted (emailId : text) (r : reply unit)    (* handleDeleteEmail settles *)
| delete_all_pressed                           (* handleDeleteAllEmails starts *)
| deleted_all (r : reply json)                 (* handleDeleteAllEmails settles *)
| copy_pressed                                 (* handleCopyAddress *)
| toast_timeout                                (* setToast(null) *)
| copied_timeout.                              (* setIsCopied(false) *)

Definition step (js : engine) (st : state) (ev : event) : state :=
  match ev with
  | mounted address =>
      let st := setTempAddress address st in
      if blank address
      then setIsLoading false
             (setError
                (Some (lit "No temporary address found. Please generate a new one."))
                st)
      else st
  | fetched r =>
      setIsLoading false
        match r with
        | IsOk (Value data) => setEmails data st
        | IsOk (Unparsed m) => setError (Some m) st
        | NotOk data =>
            setError
              (Some (failure_message js (lit "Failed to fetch emails.") data)) st
        | Rejects m => setError (Some m) st
        end
  | clicked _ =>
      if blank (tempAddress st)
      then setViewError (Some (lit "Temporary address is missing.")) st
      else setIsViewing true st
  | opened r =>
      match r with
      | IsOk (Value data) => setSelectedEmail (Some data) st
      | IsOk (Unparsed m) => setViewError (Some m) st
      | NotOk data =>
          setViewError
            (Some (failure_message js (lit "Failed to fetch email details.") data))
            st
      | Rejects m => setViewError (Some m) st
      end
  | closed => handleCloseView st
  | delete_pressed _ =>
      if blank (tempAddress st)
      then setViewError
             (Some (lit "Cannot delete: Temporary address is missing.")) st
      else setIsDeleting true st
  | deleted emailId r =>
      setIsDeleting false
        match r with
        | IsOk _ =>
            showToast (lit "Email deleted successfully!") success
              (handleCloseView (setEmails (without emailId (emails st)) st))
        | NotOk data =>
            setViewError
              (Some (failure_message js (lit "Failed to delete email.") data)) st
        | Rejects m => setViewError (Some m) st
        end
  | delete_all_pressed =>
      if blank (tempAddress st)
      then showToast (lit "Cannot delete: Temporary address is missing.")
             failure st
      else st
  | deleted_all r =>
      match r with
      | IsOk (Value data) =>
          match get data (lit "deleted_count") with
          | Throw => showToast (TypeError_message js) failure st
          | Normal deleted_count =>
              showToast
                (to_string js deleted_count ++ lit " emails have been deleted.")
                success (setEmails [] st)
          end
      | IsOk (Unparsed m) => showToast m failure st
      | NotOk data =>
          showToast
            (failure_message js (lit "Failed to delete all emails.") data)
            failure st
      | Rejects m => showToast m failure st
      end
  | copy_pressed =>
      if blank (tempAddress st) then st else setIsCopied true st
  | toast_timeout => setToast None st
  | copied_timeout => setIsCopied false st
  end.

Definition run (js : engine) (st : state) (evs : list event) : state :=
  fold_left (step js) evs st.

(** What [renderContent] returns. *)
Inductive content : Type :=
| loading_inbox                       (* "Loading your inbox..." *)
| error_text (message : text)         (* the red paragraph *)
| no_emails                           (* "No emails received yet." *)
| inbox (items : list EmailSummary).  (* one [li] per email *)

Definition renderContent (st : state) : content :=
  if isLoading st then loading_inbox
  else
    match error st with
    | Some (c :: m) => error_text (c :: m)
    | _ =>
        match emails st with
        | [] => no_emails
        | items => inbox items
        end
    end.

(** The popup under [{isViewing && ...}]. *)
Inductive popup : Type :=
| no_popup
| email_view (email : EmailView.EmailDetail) (isDeleting : bool)
| view_error (message : text)
| loading_email.                      (* "Loading email..." *)

Definition render_popup (st : state) : popup :=
  if isViewing st
  then
    match selectedEmail st with
    | Some email => email_view email (isDeleting st)
    | None =>
        match viewError st with
        | Some (c :: m) => view_error (c :: m)
        | _ => loading_email
        end
    end
  else no_popup.

(** [{emails.length > 0 && <button>Delete All</button>}] *)
Definition delete_all_button (st : state) : bool :=
  match emails st with
  | [] => false
  | _ :: _ => true
  end.

(** [{tempAddress && ... <Cover>{isCopied ? "Copied!" : tempAddress}</Cover>}] *)
Definition address_box (st : state) : option text :=
  match tempAddress st with
  | Some (c :: a) => Some (if isCopied st then lit "Copied!" else c :: a)
  | _ => None
  end.

(** What the component returns: the button, the address box, the content,
    the popup and the toast. *)
Record page : Type := Page {
  shows_delete_all : bool;
  shows_address : option text;
  shows_content : content;
  shows_popup : popup;
  shows_toast : option Toast
}.

Definition render (st : state) : page :=
  {| shows_delete_all := delete_all_button st;
     shows_address := address_box st;
     shows_content := renderContent st;
     shows_popup := render_popup st;
     shows_toast := toast st |}.

End EmailsPage.

(** ** The column types of the two tables *)

Module ColumnTypes.
Import Sql Store.

(** A value of a [VARCHAR(n)] column: NULL, or at most [n] characters. *)
Definition fits (n : nat) (v : option text) : Prop :=
  forall s, v = Some s -> (List.length s <= n)%nat.

(** [address VARCHAR(255)], [username VARCHAR(100)] *)
Definition address_typed (r : TemporaryEmail.row) : Prop :=
  fits 255 (TemporaryEmail.address r) /\ fits 100 (TemporaryEmail.username r).

(** [from_address VARCHAR(255)], [subject VARCHAR(500)],
    [size_bytes INTEGER] *)
Definition message_typed (m : ReceivedEmail.row) : Prop :=
  fits 255 (ReceivedEmail.from_address m)
  /\ fits 500 (ReceivedEmail.subject m)
  /\ (forall n, ReceivedEmail.size_bytes m = Some n -> int4 n = true).

Definition typed (st : Store.t) : Prop :=
  Forall address_typed (temporary_emails st)
  /\ Forall message_typed (received_emails st).

(** The VALUES list [v] with other values for the three columns no
    constraint of [temporary_emails] compares: [created_at], [expires_at]
    and [is_active]. *)
Definition with_times (created expires : timestamp) (active : supplied bool)
    (v : TemporaryEmail.values) : TemporaryEmail.values :=
  {| TemporaryEmail.v_id := TemporaryEmail.v_id v;
     TemporaryEmail.v_address := TemporaryEmail.v_address v;
     TemporaryEmail.v_username := TemporaryEmail.v_username v;
     TemporaryEmail.v_created_at := VALUE (Some created);
     TemporaryEmail.v_expires_at := Some expires;
     TemporaryEmail.v_is_active := active |}.

End ColumnTypes.

(** ** More sample data *)

Module Sample.
Import Sql Store.

Definition no_address : TemporaryEmail.row :=
  TemporaryEmail.Row None None None None None None.

Definition no_message : ReceivedEmail.row :=
  ReceivedEmail.Row None None None None None None None None None.

(** [INSERT INTO temporary_emails (address, username, expires_at)] *)
Definition mailbox (address : text) (username : option text)
    (expires_at : timestamp) : TemporaryEmail.values :=
  {| TemporaryEmail.v_id := DEFAULT;
     TemporaryEmail.v_address := Some address;
     TemporaryEmail.v_username := username;
     TemporaryEmail.v_created_at := DEFAULT;
     TemporaryEmail.v_expires_at := Some expires_at;
     TemporaryEmail.v_is_active := DEFAULT |}.

(** Two mailboxes; alice (id 1) holds one message (id 3) of 5 bytes. *)
Definition statements : list statement :=
  [INSERT_temporary_email (Example.session 1)
     (mailbox Example.alice None 86400000%Z);
   INSERT_temporary_email (Example.session 2)
     (mailbox Example.bob (Some (lit "bob")) 86400000%Z);
   INSERT_received_email (Example.session 3)
     (Example.message (Some 1%N) (Some 5%Z))].

Definition inbox : Store.t := Store.run statements.

Definition alice_row : TemporaryEmail.row :=
  nth 0 (temporary_emails inbox) no_address.

Definition bob_row : TemporaryEmail.row :=
  nth 1 (temporary_emails inbox) no_address.

Definition hello : ReceivedEmail.row :=
  nth 0 (received_emails inbox) no_message.

(** A third mailbox, carol's, due to expire before it was created. *)
Definition carol : TemporaryEmail.values :=
  mailbox (lit "carol@mail.example.com") (Some (lit "carol")) 0%Z.

(** The backend's answer to a generate call: 201 and the new address. *)
Definition quote : text := [34%N].

Definition created : Http.backend_response :=
  {| Http.backend_status := 201;
     Http.responseText :=
       lit "{" ++ quote ++ lit "address" ++ quote ++ lit ":" ++ quote
       ++ lit "bob_42@mail.example.com" ++ quote ++ lit "}";
     Http.JSON_parse :=
       Some (Js.JObject
               [(lit "address", Js.JString (lit "bob_42@mail.example.com"))]) |}.

(** A refusal that says more than [error]. *)
Definition refused : Http.backend_response :=
  {| Http.backend_status := 409;
     Http.responseText :=
       lit "{" ++ quote ++ lit "error" ++ quote ++ lit ":" ++ quote
       ++ lit "Address already exists" ++ quote ++ lit "," ++ quote
       ++ lit "constraint" ++ quote ++ lit ":" ++ quote
       ++ lit "temporary_emails_address_key" ++ quote ++ lit "}";
     Http.JSON_parse :=
       Some (Js.JObject
               [(lit "error", Js.JString (lit "Address already exists"));
                (lit "constraint",
                 Js.JString (lit "temporary_emails_address_key"))]) |}.

(** A list of summaries sent as 206. *)
Definition partial : Http.backend_response :=
  {| Http.backend_status := 206;
     Http.responseText := lit "[]";
     Http.JSON_parse := Some (Js.JArray []) |}.

Definition environment : GenerateRoute.env :=
  {| GenerateRoute.BACKEND_URL := Some (lit "http://backend:3001/") |}.

(** The engine's texts, as V8 has them. *)
Definition v8 : Browser.engine :=
  {| Browser.ToString := fun _ => lit "[object Object]";
     Browser.TypeError_message :=
       lit "Cannot read properties of null (reading 'error')" |}.

(** What a route answers when the backend could not delete. *)
Definition failure : Js.json :=
  Js.JObject [(lit "error", Js.JString (lit "Failed to delete email."))].

(** An inbox page with one message, open in the popup. *)
Definition summary : EmailsPage.EmailSummary :=
  {| EmailsPage.id := lit "3";
     EmailsPage.from_address := lit "a@b.com";
     EmailsPage.subject := lit "Test";
     EmailsPage.received_at := lit "2025-10-02T21:08:47Z";
     EmailsPage.preview := Some (lit "hello") |}.

Definition detail : EmailView.EmailDetail :=
  {| EmailView.id := lit "3";
     EmailView.from_address := lit "a@b.com";
     EmailView.subject := lit "Test";
     EmailView.body_plain := Some (lit "hello");
     EmailView.body_html := None;
     EmailView.received_at := lit "2025-10-02T21:08:47Z" |}.

Definition reading : EmailsPage.state :=
  {| EmailsPage.emails := [summary];
     EmailsPage.tempAddress := Some Example.alice;
     EmailsPage.isLoading := false;
     EmailsPage.error := None;
     EmailsPage.selectedEmail := Some detail;
     EmailsPage.isViewing := true;
     EmailsPage.viewError := None;
     EmailsPage.isDeleting := false;
     EmailsPage.toast := None;
     EmailsPage.isCopied := false |}.

(** The same page while the email is being fetched. *)
Definition opening : EmailsPage.state :=
  EmailsPage.setSelectedEmail None reading.

(** The backend's answer for a message the mailbox does not hold. *)
Definition not_found : Http.backend_response :=
  {| Http.backend_status := 404;
     Http.responseText :=
       lit "{" ++ quote ++ lit "error" ++ quote ++ lit ":" ++ quote
       ++ lit "Email not found" ++ quote ++ lit "}";
     Http.JSON_parse :=
       Some (Js.JObject [(lit "error", Js.JString (lit "Email not found"))]) |}.

(** The same page after a refresh failed. *)
Definition stale : EmailsPage.state :=
  EmailsPage.step v8 reading
    (EmailsPage.fetched (Browser.Rejects (lit "Failed to fetch"))).

(** [SET id = 9], every other column as it is. *)
Definition renumber (old : TemporaryEmail.row) : TemporaryEmail.values :=
  {| TemporaryEmail.v_id := VALUE (Some 9%N);
     TemporaryEmail.v_address := TemporaryEmail.address old;
     TemporaryEmail.v_username := TemporaryEmail.username old;
     TemporaryEmail.v_created_at := VALUE (TemporaryEmail.created_at old);
     TemporaryEmail.v_expires_at := TemporaryEmail.expires_at old;
     TemporaryEmail.v_is_active := VALUE (TemporaryEmail.is_active old) |}.

End Sample.

(** * Properties of the embedding *)

(** ** Text *)

Lemma text_eqb_eq (s t : text) : text_eqb s t = true <-> s = t.
Proof.
  unfold text_eqb. destruct (text_eq_dec s t); split; congruence.
Qed.

Lemma text_eqb_refl (s : text) : text_eqb s s = true.
Proof. now apply text_eqb_eq. Qed.

(** ** Properties of the matcher *)

Module RegexFacts.
Import Regex.

Create HintDb regex.
#[local] Hint Constructors lang : regex.

Ltac inv H := inversion H; subst; clear H.
Ltac split_app :=
  match goal with
  | E : _ ++ _ = [] |- _ => apply app_eq_nil in E as [-> ->]
  | E : ?s1 ++ _ = _ :: _ |- _ =>
      destruct s1; simpl in E; [subst | injection E as -> <-]
  end.
Ltac as_app c s1 s2 := change (c :: s1 ++ s2) with ((c :: s1) ++ s2).

Lemma nullable_lang (r : t) : nullable r = true <-> lang r [].
Proof.
  induction r; simpl; split; intro H;
    try discriminate; try solve [inversion H]; auto with regex.
  - apply andb_true_iff in H as [H1 H2].
    change (@nil char) with (@nil char ++ []).
    constructor; [now apply IHr1 | now apply IHr2].
  - inv H. split_app.
    apply andb_true_iff. split; [now apply IHr1 | now apply IHr2].
  - apply orb_true_iff in H as [H | H];
      [apply lang_alt_l; now apply IHr1 | apply lang_alt_r; now apply IHr2].
  - apply orb_true_iff.
    inv H; [left; now apply IHr1 | right; now apply IHr2].
Qed.

(** A non-empty word of [r*] starts with a non-empty word of [r]. *)
Lemma star_cons (r : t) (s : text) :
  lang (Star r) s ->
  forall c s', s = c :: s' ->
  exists s1 s2, s' = s1 ++ s2 /\ lang r (c :: s1) /\ lang (Star r) s2.
Proof.
  intro L. remember (Star r) as q eqn:Eq.
  induction L; try discriminate; intros a s' E.
  injection Eq as ->.
  destruct s1 as [| b s1]; simpl in E.
  - now apply IHL2.
  - injection E as -> <-. exists s1, s2. auto.
Qed.

Lemma deriv_lang (r : t) : forall c s, lang (deriv c r) s <-> lang r (c :: s).
Proof.
  induction r; intros a s; simpl.
  - split; intro H; inv H.
  - split; intro H; inv H.
  - unfold char_eqb. destruct (N.eqb_spec a c) as [-> | Hne]; split; intro H;
      inv H; try constructor; congruence.
  - destruct (in_bracket ranges a) eqn:E; split; intro H;
      inv H; try (now constructor); congruence.
  - destruct (nullable r1) eqn:N1; split; intro H.
    + inv H.
      * match goal with L : lang (Cat _ _) _ |- _ => inv L end.
        match goal with s1 : text, s2 : text |- _ => as_app a s1 s2 end.
        constructor; [now apply IHr1 | assumption].
      * apply nullable_lang in N1.
        change (a :: s) with ([] ++ a :: s).
        constructor; [assumption | now apply IHr2].
    + inv H. split_app.
      * apply lang_alt_r. now apply IHr2.
      * apply lang_alt_l. constructor; [now apply IHr1 | assumption].
    + inv H.
      match goal with s1 : text, s2 : text |- _ => as_app a s1 s2 end.
      constructor; [now apply IHr1 | assumption].
    + inv H. split_app.
      * match goal with L : lang r1 [] |- _ => apply nullable_lang in L end.
        congruence.
      * constructor; [now apply IHr1 | assumption].
  - split; intro H; inv H;
      solve [apply lang_alt_l; now apply IHr1
            | apply lang_alt_r; now apply IHr2].
  - split; intro H.
    + inv H.
      match goal with s1 : text, s2 : text |- _ => as_app a s1 s2 end.
      constructor; [now apply IHr | assumption].
    + destruct (star_cons H eq_refl) as (s1 & s2 & -> & L1 & L2).
      constructor; [now apply IHr | assumption].
Qed.

Theorem matches_lang (s : text) : forall r, matches r s = true <-> lang r s.
Proof.
  induction s as [| c s IH]; intro r; simpl.
  - apply nullable_lang.
  - rewrite IH. apply deriv_lang.
Qed.

Lemma match_prefix_to_end (s : text) :
  forall r, match_prefix true r s = matches r s.
Proof.
  induction s as [| c s IH]; intro r; simpl.
  - now rewrite andb_true_r, orb_false_r.
  - now rewrite andb_false_r, IH.
Qed.

(** An anchored pattern [^r$] matches exactly the words of [r]. *)
Lemma test_anchored (r : t) (s : text) :
  test (Pattern true r true) s = true <-> lang r s.
Proof.
  unfold test.
  assert (E : search_from (Pattern true r true) s = match_prefix true r s)
    by (destruct s; cbn [search_from bol eol body negb andb];
        apply orb_false_r).
  rewrite E, match_prefix_to_end. apply matches_lang.
Qed.

Lemma lang_star_bracket (rs : list (char * char)) (s : text) :
  lang (Star (Bracket rs)) s <-> Forall (fun c => in_bracket rs c = true) s.
Proof.
  split.
  - intro L. remember (Star (Bracket rs)) as q eqn:Eq.
    induction L; try discriminate; auto.
    injection Eq as ->.
    inversion L1; subst. simpl. constructor; auto.
  - induction 1 as [| c s Hc _ IH].
    + constructor.
    + change (c :: s) with ([c] ++ s).
      constructor; [now constructor | assumption].
Qed.

(** [[...]+]: a non-empty run of characters of the bracket. *)
Lemma lang_plus_bracket (rs : list (char * char)) (s : text) :
  lang (Plus (Bracket rs)) s <->
  s <> [] /\ Forall (fun c => in_bracket rs c = true) s.
Proof.
  unfold Plus. split.
  - intro L. inversion L as [| | | ? ? s1 s2 L1 L2 | | | |]; subst.
    inversion L1; subst. apply lang_star_bracket in L2.
    split; [discriminate | now constructor].
  - intros [Hne Hall]. destruct s as [| c s]; [congruence |].
    inversion Hall; subst.
    change (c :: s) with ([c] ++ s).
    constructor; [now constructor | now apply lang_star_bracket].
Qed.

End RegexFacts.

(** ** What every reachable store satisfies *)

Module InvariantFacts.
Import Sql Store Invariant.

(** *** Lists *)

Section Keys.

(** Rows and the column that keys them. *)
Variables (R K : Type) (key : R -> K).

Lemma NoDup_map_filter (keep : R -> bool) (rows : list R) :
  NoDup (map key rows) -> NoDup (map key (filter keep rows)).
Proof.
  induction rows as [| x rows IH]; simpl; intro H; [constructor |].
  apply NoDup_cons_iff in H as [Hx Hrows].
  destruct (keep x); simpl; auto.
  constructor; auto.
  intro Hin. apply Hx.
  apply in_map_iff in Hin as (y & <- & Hy).
  apply filter_In in Hy as [Hy _]. now apply in_map.
Qed.

Lemma NoDup_map_snoc (rows : list R) (x : R) :
  NoDup (map key rows) -> ~ In (key x) (map key rows) ->
  NoDup (map key (rows ++ [x])).
Proof.
  intros Hrows Hx. rewrite map_app. simpl.
  apply NoDup_app; auto.
  - constructor; [intros [] | constructor].
  - intros y Hy [<- | []]. contradiction.
Qed.

Lemma NoDup_map_eq (rows : list R) (x y : R) :
  NoDup (map key rows) -> In x rows -> In y rows -> key x = key y -> x = y.
Proof.
  induction rows as [| z rows IH]; simpl; intros H Hx Hy E; [contradiction |].
  apply NoDup_cons_iff in H as [Hz Hrows].
  destruct Hx as [-> | Hx], Hy as [-> | Hy]; auto.
  - exfalso. apply Hz. rewrite E. now apply in_map.
  - exfalso. apply Hz. rewrite <- E. now apply in_map.
Qed.

(** Replacing the one row picked by [pick] keeps the keys distinct when the
    new key is none of the others'. *)
Lemma NoDup_map_replace (pick : R -> bool) (new : R) (rows : list R) :
  (forall q1 q2, In q1 rows -> In q2 rows ->
                 pick q1 = true -> pick q2 = true -> q1 = q2) ->
  NoDup (map key rows) ->
  ~ In (key new) (map key (filter (fun q => negb (pick q)) rows)) ->
  NoDup (map key (map (fun q => if pick q then new else q) rows)).
Proof.
  induction rows as [| q rows IH]; simpl; intros Hone H Hnew;
    [constructor |].
  apply NoDup_cons_iff in H as [Hq Hrows].
  destruct (pick q) eqn:Eq; simpl in Hnew.
  - assert (Hrest : forall q', In q' rows -> pick q' = false).
    { intros q' Hq'. destruct (pick q') eqn:E'; auto.
      elim Hq. rewrite (Hone q q'); simpl; auto using in_map. }
    assert (E1 : map (fun q' => if pick q' then new else q') rows = rows).
    { rewrite <- (map_id rows) at 2. apply map_ext_in.
      intros q' Hq'. now rewrite (Hrest q' Hq'). }
    assert (E2 : filter (fun q' => negb (pick q')) rows = rows).
    { apply forallb_filter_id. apply forallb_forall.
      intros q' Hq'. now rewrite (Hrest q' Hq'). }
    rewrite E1. rewrite E2 in Hnew. now constructor.
  - constructor.
    + rewrite map_map, in_map_iff. intros (q' & E & Hq').
      destruct (pick q') eqn:E'.
      * apply Hnew. left. congruence.
      * apply Hq. rewrite <- E. now apply in_map.
    + apply IH; auto; intro Hin; apply Hnew; now right.
Qed.

End Keys.

Lemma when_nil (b : bool) (v : violation) : when b v = [] -> b = false.
Proof. destruct b; simpl; congruence. Qed.

Lemma in_when (b : bool) (v w : violation) : In w (when b v) -> b = true /\ w = v.
Proof. destruct b; simpl; [intros [<- | []]; auto | intros []]. Qed.

Ltac nil_apps H :=
  repeat match type of H with
         | _ ++ _ = [] =>
             let H1 := fresh "V" in
             apply app_eq_nil in H as [H1 H];
             try apply when_nil in H1
         end;
  try apply when_nil in H.

(** *** Column lookups *)

Lemma uuid_is_eq (v : option uuid) (x : uuid) : uuid_is v x = true <-> v = Some x.
Proof.
  destruct v as [y |]; simpl; [| split; discriminate].
  rewrite N.eqb_eq. split; congruence.
Qed.

Lemma text_is_eq (v : option text) (x : text) : text_is v x = true <-> v = Some x.
Proof.
  destruct v as [y |]; simpl; [| split; discriminate].
  rewrite text_eqb_eq. split; congruence.
Qed.

Lemma address_has_id (rows : list TemporaryEmail.row) (x : uuid) :
  existsb (TemporaryEmail.has_id x) rows = true <->
  In (Some x) (map TemporaryEmail.id rows).
Proof.
  rewrite existsb_exists, in_map_iff.
  split; intros (r & H1 & H2); exists r.
  - apply uuid_is_eq in H2. auto.
  - split; auto. now apply uuid_is_eq.
Qed.

Lemma address_has_address (rows : list TemporaryEmail.row) (x : text) :
  existsb (TemporaryEmail.has_address x) rows = true <->
  In (Some x) (map TemporaryEmail.address rows).
Proof.
  rewrite existsb_exists, in_map_iff.
  split; intros (r & H1 & H2); exists r.
  - apply text_is_eq in H2. auto.
  - split; auto. now apply text_is_eq.
Qed.

Lemma message_has_id (rows : list ReceivedEmail.row) (x : uuid) :
  existsb (ReceivedEmail.has_id x) rows = true <->
  In (Some x) (map ReceivedEmail.id rows).
Proof.
  rewrite existsb_exists, in_map_iff.
  split; intros (r & H1 & H2); exists r.
  - apply uuid_is_eq in H2. auto.
  - split; auto. now apply uuid_is_eq.
Qed.

Lemma not_taken {A B : Type} (f : A -> option B) (rows : list A)
    (taken : bool) (v : option B) :
  v <> None ->
  (forall x, v = Some x -> taken = true <-> In (Some x) (map f rows)) ->
  taken = false -> ~ In v (map f rows).
Proof.
  intros Hv Hiff Hf Hin.
  destruct v as [x |]; [| congruence].
  apply (Hiff x eq_refl) in Hin. congruence.
Qed.

Lemma is_null_false {A : Type} (v : option A) : is_null v = false -> v <> None.
Proof. destruct v; simpl; congruence. Qed.

Lemma message_ok_mono (owners owners' : list TemporaryEmail.row)
    (m : ReceivedEmail.row) :
  (forall x, existsb (TemporaryEmail.has_id x) owners = true ->
             existsb (TemporaryEmail.has_id x) owners' = true) ->
  message_ok owners m -> message_ok owners' m.
Proof.
  intros Hsub (H1 & (x & Hx & Hin) & H3 & H4 & H5).
  repeat split; auto. exists x. auto.
Qed.

(** *** Accepted inserts *)

Lemma insert_temporary_email_accepted (s : session)
    (v : TemporaryEmail.values) (st st' : Store.t) :
  insert_temporary_email s v st = Ok st' ->
  exists r,
    TemporaryEmail.candidate s v = (r, [])
    /\ TemporaryEmail.violations (temporary_emails st) r = []
    /\ st' = {| temporary_emails := temporary_emails st ++ [r];
                received_emails := received_emails st |}.
Proof.
  unfold insert_temporary_email.
  destruct (TemporaryEmail.candidate s v) as [r c].
  destruct (c ++ TemporaryEmail.violations (temporary_emails st) r) eqn:E;
    [| discriminate].
  intro H. injection H as <-.
  apply app_eq_nil in E as [-> E]. eauto.
Qed.

Lemma insert_received_email_accepted (s : session)
    (v : ReceivedEmail.values) (st st' : Store.t) :
  insert_received_email s v st = Ok st' ->
  exists r,
    ReceivedEmail.candidate s v = (r, [])
    /\ ReceivedEmail.violations (temporary_emails st)
         (received_emails st) r = []
    /\ st' = {| temporary_emails := temporary_emails st;
                received_emails := received_emails st ++ [r] |}.
Proof.
  unfold insert_received_email.
  destruct (ReceivedEmail.candidate s v) as [r c].
  destruct (c ++ ReceivedEmail.violations (temporary_emails st)
                   (received_emails st) r) eqn:E; [| discriminate].
  intro H. injection H as <-.
  apply app_eq_nil in E as [-> E]. eauto.
Qed.

Lemma accepted_address_ok (rows : list TemporaryEmail.row)
    (r : TemporaryEmail.row) :
  TemporaryEmail.violations rows r = [] ->
  address_ok r
  /\ ~ In (TemporaryEmail.id r) (map TemporaryEmail.id rows)
  /\ ~ In (TemporaryEmail.address r) (map TemporaryEmail.address rows).
Proof.
  unfold TemporaryEmail.violations. intro H. nil_apps H.
  apply is_null_false in V, V0, V1, V2.
  assert (Ha : exists a, TemporaryEmail.address r = Some a
                 /\ Regex.test TemporaryEmail.address_format_pattern a = true).
  { unfold TemporaryEmail.address_format in V3.
    destruct (TemporaryEmail.address r) as [a |]; [| congruence].
    exists a. split; auto.
    simpl in V3. now destruct (Regex.test _ a). }
  repeat split; auto.
  - apply not_taken with (taken := TemporaryEmail.id_taken rows (TemporaryEmail.id r));
      auto.
    intros x ->. simpl. apply address_has_id.
  - apply not_taken
      with (taken := TemporaryEmail.address_taken rows (TemporaryEmail.address r));
      auto.
    intros x ->. simpl. apply address_has_address.
Qed.

Lemma accepted_message_ok (owners : list TemporaryEmail.row)
    (rows : list ReceivedEmail.row) (m : ReceivedEmail.row) :
  ReceivedEmail.violations owners rows m = [] ->
  message_ok owners m
  /\ ~ In (ReceivedEmail.id m) (map ReceivedEmail.id rows).
Proof.
  unfold ReceivedEmail.violations. intro H. nil_apps H.
  apply is_null_false in V, V0, V1, V2.
  repeat split; auto.
  - destruct (ReceivedEmail.temp_email_id m) as [x |]; [| congruence].
    exists x. split; auto.
    simpl in H. now destruct (existsb _ owners).
  - intros n Hn. unfold ReceivedEmail.reasonable_size in V3.
    rewrite Hn in V3. simpl in V3.
    destruct (Z.leb_spec n 10485760); [assumption | discriminate].
  - apply not_taken with (taken := ReceivedEmail.id_taken rows (ReceivedEmail.id m));
      auto.
    intros x ->. simpl. apply message_has_id.
Qed.

(** *** Each statement keeps the invariant *)

Lemma wf_empty : wf Store.empty.
Proof. constructor; simpl; constructor. Qed.

Lemma wf_insert_temporary_email (s : session) (v : TemporaryEmail.values)
    (st : Store.t) :
  wf st -> wf (after st (insert_temporary_email s v st)).
Proof.
  intros [W1 W2 W3 W4 W5].
  destruct (insert_temporary_email s v st) as [st' | vs] eqn:E; simpl;
    [| now constructor].
  apply insert_temporary_email_accepted in E as (r & _ & Hv & ->).
  apply accepted_address_ok in Hv as (Hok & Hid & Haddr).
  constructor; simpl; auto.
  - apply Forall_app. split; auto.
  - now apply NoDup_map_snoc.
  - now apply NoDup_map_snoc.
  - eapply Forall_impl; [| exact W4].
    intros m. apply message_ok_mono.
    intros x Hx. rewrite existsb_app, Hx. reflexivity.
Qed.

Lemma wf_insert_received_email (s : session) (v : ReceivedEmail.values)
    (st : Store.t) :
  wf st -> wf (after st (insert_received_email s v st)).
Proof.
  intros [W1 W2 W3 W4 W5].
  destruct (insert_received_email s v st) as [st' | vs] eqn:E; simpl;
    [| now constructor].
  apply insert_received_email_accepted in E as (r & _ & Hv & ->).
  apply accepted_message_ok in Hv as (Hok & Hid).
  constructor; simpl; auto.
  - apply Forall_app. split; auto.
  - now apply NoDup_map_snoc.
Qed.

Lemma Forall_filter {A : Type} (P : A -> Prop) (p : A -> bool) (l : list A) :
  Forall P l -> Forall P (filter p l).
Proof.
  rewrite !Forall_forall. intros H x Hx.
  apply filter_In in Hx as [Hx _]. auto.
Qed.

Lemma wf_delete_temporary_emails (p : TemporaryEmail.row -> bool)
    (st : Store.t) :
  wf st -> wf (delete_temporary_emails p st).
Proof.
  intros [W1 W2 W3 W4 W5].
  constructor; simpl.
  - now apply Forall_filter.
  - now apply NoDup_map_filter.
  - now apply NoDup_map_filter.
  - rewrite Forall_forall in *. intros m Hm.
    apply filter_In in Hm as [Hm Href].
    destruct (W4 m Hm) as (H1 & (x & Hx & Hin) & H3 & H4 & H5).
    repeat split; auto. exists x. split; auto.
    unfold references in Href. rewrite Hx in Href.
    apply negb_true_iff in Href.
    apply existsb_exists in Hin as (r & Hr & Hrx).
    apply existsb_exists. exists r. split; auto.
    apply filter_In. split; auto.
    destruct (p r) eqn:Hp; auto.
    exfalso.
    assert (existsb (TemporaryEmail.has_id x)
              (filter p (temporary_emails st)) = true); [| congruence].
    apply existsb_exists. exists r. split; auto.
    apply filter_In. auto.
  - now apply NoDup_map_filter.
Qed.

Lemma wf_delete_received_emails (p : ReceivedEmail.row -> bool)
    (st : Store.t) :
  wf st -> wf (delete_received_emails p st).
Proof.
  intros [W1 W2 W3 W4 W5].
  constructor; simpl; auto.
  - now apply Forall_filter.
  - now apply NoDup_map_filter.
Qed.

Lemma has_id_set_is_active (b : option bool) (p : TemporaryEmail.row -> bool)
    (rows : list TemporaryEmail.row) (x : uuid) :
  existsb (TemporaryEmail.has_id x)
    (map (fun r => if p r then set_is_active b r else r) rows)
  = existsb (TemporaryEmail.has_id x) rows.
Proof.
  induction rows as [| r rows IH]; simpl; [reflexivity |].
  rewrite IH. now destruct (p r).
Qed.

Lemma wf_update_is_active (b : option bool) (p : TemporaryEmail.row -> bool)
    (st : Store.t) :
  wf st -> wf (update_is_active b p st).
Proof.
  intros [W1 W2 W3 W4 W5].
  constructor; simpl; auto.
  - rewrite Forall_forall in *. intros r Hr.
    apply in_map_iff in Hr as (r0 & <- & Hr0).
    specialize (W1 r0 Hr0). now destruct (p r0).
  - rewrite map_map.
    erewrite map_ext; [exact W2 |]. intros r. now destruct (p r).
  - rewrite map_map.
    erewrite map_ext; [exact W3 |]. intros r. now destruct (p r).
  - eapply Forall_impl; [| exact W4].
    intros m. apply message_ok_mono.
    intros x Hx. now rewrite has_id_set_is_active.
Qed.

Lemma one_address_per_id (st : Store.t) (x : uuid) :
  wf st ->
  forall q1 q2,
    In q1 (temporary_emails st) -> In q2 (temporary_emails st) ->
    TemporaryEmail.has_id x q1 = true -> TemporaryEmail.has_id x q2 = true ->
    q1 = q2.
Proof.
  intros W q1 q2 H1 H2 E1 E2.
  apply uuid_is_eq in E1, E2.
  apply (NoDup_map_eq TemporaryEmail.id (temporary_emails st)); auto.
  - apply (wf_address_ids W).
  - congruence.
Qed.

Lemma one_message_per_id (st : Store.t) (x : uuid) :
  wf st ->
  forall q1 q2,
    In q1 (received_emails st) -> In q2 (received_emails st) ->
    ReceivedEmail.has_id x q1 = true -> ReceivedEmail.has_id x q2 = true ->
    q1 = q2.
Proof.
  intros W q1 q2 H1 H2 E1 E2.
  apply uuid_is_eq in E1, E2.
  apply (NoDup_map_eq ReceivedEmail.id (received_emails st)); auto.
  - apply (wf_message_ids W).
  - congruence.
Qed.

Lemma wf_update_temporary_email (s : session) (x : uuid)
    (set : TemporaryEmail.row -> TemporaryEmail.values) (st : Store.t) :
  wf st -> wf (after st (update_temporary_email s x set st)).
Proof.
  intro W. pose proof W as [W1 W2 W3 W4 W5].
  unfold update_temporary_email.
  destruct (find (TemporaryEmail.has_id x) (temporary_emails st))
    as [old |] eqn:F; [| exact W].
  destruct (TemporaryEmail.candidate s (set old)) as [r c].
  destruct (c ++ _) eqn:E; [| exact W].
  apply app_eq_nil in E as [_ E]. apply app_eq_nil in E as [Hv Hfk].
  apply when_nil in Hfk.
  apply accepted_address_ok in Hv as (Hok & Hid & Haddr).
  apply find_some in F as [Hold Hpick].
  simpl. constructor; simpl; auto.
  - rewrite Forall_forall in *. intros q Hq.
    apply in_map_iff in Hq as (q0 & <- & Hq0).
    destruct (TemporaryEmail.has_id x q0); auto.
  - apply NoDup_map_replace; auto. now apply one_address_per_id.
  - apply NoDup_map_replace; auto. now apply one_address_per_id.
  - rewrite Forall_forall in *. intros m Hm.
    destruct (W4 m Hm) as (H1 & (y & Hy & Hin) & H3 & H4 & H5).
    repeat split; auto. exists y. split; auto.
    apply existsb_exists in Hin as (q & Hq & Hqy).
    apply existsb_exists.
    destruct (TemporaryEmail.has_id x q) eqn:Hqx.
    + exists r. split.
      * apply in_map_iff. exists q. now rewrite Hqx.
      * assert (y = x).
        { apply uuid_is_eq in Hqy, Hqx. congruence. }
        subst y.
        assert (Href : existsb (ReceivedEmail.owned_by x) (received_emails st)
                       = true).
        { apply existsb_exists. exists m. split; auto.
          now apply uuid_is_eq. }
        rewrite Href in Hfk. simpl in Hfk.
        now apply negb_false_iff in Hfk.
    + exists q. split; auto.
      apply in_map_iff. exists q. now rewrite Hqx.
Qed.

Lemma wf_update_received_email (s : session) (x : uuid)
    (set : ReceivedEmail.row -> ReceivedEmail.values) (st : Store.t) :
  wf st -> wf (after st (update_received_email s x set st)).
Proof.
  intro W. pose proof W as [W1 W2 W3 W4 W5].
  unfold update_received_email.
  destruct (find (ReceivedEmail.has_id x) (received_emails st))
    as [old |] eqn:F; [| exact W].
  destruct (ReceivedEmail.candidate s (set old)) as [r c].
  destruct (c ++ _) eqn:E; [| exact W].
  apply app_eq_nil in E as [_ Hv].
  apply accepted_message_ok in Hv as (Hok & Hid).
  simpl. constructor; simpl; auto.
  - rewrite Forall_forall in *. intros q Hq.
    apply in_map_iff in Hq as (q0 & <- & Hq0).
    destruct (ReceivedEmail.has_id x q0); auto.
  - apply NoDup_map_replace; auto. now apply one_message_per_id.
Qed.

Lemma wf_execute (st : Store.t) (q : statement) : wf st -> wf (execute st q).
Proof.
  destruct q; simpl.
  - apply wf_insert_temporary_email.
  - apply wf_insert_received_email.
  - apply wf_delete_temporary_emails.
  - apply wf_delete_received_emails.
  - apply wf_update_is_active.
  - apply wf_update_temporary_email.
  - apply wf_update_received_email.
Qed.

Lemma wf_fold (qs : list statement) :
  forall st, wf st -> wf (fold_left execute qs st).
Proof.
  induction qs as [| q qs IH]; simpl; intros st H; auto.
  apply IH. now apply wf_execute.
Qed.

Theorem reachable_wf (st : Store.t) : reachable st -> wf st.
Proof.
  intros [qs ->]. apply wf_fold, wf_empty.
Qed.

End InvariantFacts.

(** ** The address format, read off the pattern *)

Module AddressFormatFacts.
Import Regex RegexFacts AddressFormat.

Ltac char_codes :=
  repeat match goal with
         | |- context [chr ?a] =>
             let v := eval vm_compute in (chr a) in change (chr a) with v
         end.

Lemma local_part_bracket (c : char) :
  in_bracket TemporaryEmail.local_part c = local_part_char c.
Proof.
  unfold in_bracket, TemporaryEmail.local_part, local_part_char,
    is_alphanumeric, in_range, char_eqb; simpl existsb; simpl fst; simpl snd.
  char_codes. rewrite orb_false_r, !orb_assoc.
  f_equal; [f_equal |].
  - apply eq_true_iff_eq.
    rewrite andb_true_iff, !N.leb_le, N.eqb_eq. lia.
  - apply eq_true_iff_eq.
    rewrite andb_true_iff, !N.leb_le, N.eqb_eq. lia.
Qed.

Lemma domain_bracket (c : char) :
  in_bracket TemporaryEmail.domain_part c = domain_char c.
Proof.
  unfold in_bracket, TemporaryEmail.domain_part, domain_char,
    is_alphanumeric, in_range, char_eqb; simpl existsb; simpl fst; simpl snd.
  char_codes. rewrite orb_false_r, !orb_assoc.
  f_equal; [f_equal |].
  - apply eq_true_iff_eq.
    rewrite andb_true_iff, !N.leb_le, N.eqb_eq. lia.
  - apply eq_true_iff_eq.
    rewrite andb_true_iff, !N.leb_le, N.eqb_eq. lia.
Qed.

Lemma Forall_bracket (rs : list (char * char)) (f : char -> bool) (s : text) :
  (forall c, in_bracket rs c = f c) ->
  Forall (fun c => in_bracket rs c = true) s <->
  Forall (fun c => f c = true) s.
Proof.
  intro E. split; apply Forall_impl; intro c; now rewrite E.
Qed.

(** The pattern of [address_format] accepts exactly the well-formed
    addresses. *)
Theorem address_format_well_formed (s : text) :
  test TemporaryEmail.address_format_pattern s = true <-> well_formed s.
Proof.
  unfold TemporaryEmail.address_format_pattern.
  rewrite test_anchored. split.
  - intro L. inv L.
    match goal with L : lang (Cat _ _) _ |- _ => inv L end.
    match goal with L : lang (Chr _) _ |- _ => inv L end.
    repeat match goal with
           | L : lang (Plus _) _ |- _ =>
               apply lang_plus_bracket in L as [? ?]
           end.
    do 2 eexists. split; [reflexivity |].
    repeat split; auto.
    + now apply Forall_bracket with (1 := local_part_bracket).
    + now apply Forall_bracket with (1 := domain_bracket).
  - intros (l & d & -> & Hl & Fl & Hd & Fd).
    constructor.
    + apply lang_plus_bracket. split; auto.
      now apply Forall_bracket with (1 := local_part_bracket).
    + change (chr "@" :: d) with ([chr "@"] ++ d).
      constructor; [constructor |].
      apply lang_plus_bracket. split; auto.
      now apply Forall_bracket with (1 := domain_bracket).
Qed.

End AddressFormatFacts.

(** ** Rejected inserts *)

Module Rejection.
Import Sql Store Invariant InvariantFacts.

Lemma insert_received_email_rejected (s : session) (v : ReceivedEmail.values)
    (st : Store.t) (w : violation) :
  In w (snd (ReceivedEmail.candidate s v)
        ++ ReceivedEmail.violations (temporary_emails st) (received_emails st)
             (fst (ReceivedEmail.candidate s v))) ->
  insert_received_email s v st
  = Rejected (snd (ReceivedEmail.candidate s v)
              ++ ReceivedEmail.violations (temporary_emails st)
                   (received_emails st) (fst (ReceivedEmail.candidate s v))).
Proof.
  unfold insert_received_email.
  destruct (ReceivedEmail.candidate s v) as [r c]. simpl.
  destruct (c ++ _); [contradiction | reflexivity].
Qed.

Lemma insert_received_email_rejection (s : session) (v : ReceivedEmail.values)
    (st : Store.t) (vs : list violation) :
  insert_received_email s v st = Rejected vs ->
  vs = snd (ReceivedEmail.candidate s v)
       ++ ReceivedEmail.violations (temporary_emails st) (received_emails st)
            (fst (ReceivedEmail.candidate s v)).
Proof.
  unfold insert_received_email.
  destruct (ReceivedEmail.candidate s v) as [r c]. simpl.
  destruct (c ++ _); [discriminate | congruence].
Qed.

Lemma candidate_temp_email_id (s : session) (v : ReceivedEmail.values) :
  ReceivedEmail.temp_email_id (fst (ReceivedEmail.candidate s v))
  = ReceivedEmail.v_temp_email_id v.
Proof.
  unfold ReceivedEmail.candidate.
  destruct (to_varchar _ _ _), (to_varchar _ _ _), (to_int4 _ _). reflexivity.
Qed.

Lemma candidate_size_bytes (s : session) (v : ReceivedEmail.values) :
  ReceivedEmail.size_bytes (fst (ReceivedEmail.candidate s v))
  = fst (to_int4 "size_bytes" (ReceivedEmail.v_size_bytes v))
  /\ incl (snd (to_int4 "size_bytes" (ReceivedEmail.v_size_bytes v)))
       (snd (ReceivedEmail.candidate s v)).
Proof.
  unfold ReceivedEmail.candidate.
  destruct (to_varchar _ _ _), (to_varchar _ _ _), (to_int4 _ _). simpl.
  split; [reflexivity |].
  intros w Hw. rewrite !in_app_iff. auto.
Qed.

(** A coercion never reports a CHECK or NOT NULL violation. *)
Lemma candidate_coercions (s : session) (v : ReceivedEmail.values)
    (w : violation) :
  In w (snd (ReceivedEmail.candidate s v)) ->
  (exists column, w = string_data_right_truncation column)
  \/ (exists column, w = numeric_value_out_of_range column).
Proof.
  unfold ReceivedEmail.candidate, to_varchar, to_int4.
  destruct (ReceivedEmail.v_from_address v) as [f |];
    [destruct (varchar 255 f) |];
    (destruct (ReceivedEmail.v_subject v) as [j |];
     [destruct (varchar 500 j) |]);
    (destruct (ReceivedEmail.v_size_bytes v) as [z |];
     [destruct (int4 z) |]);
    simpl; intuition (subst; eauto).
Qed.

Lemma reasonable_size_violated (owners : list TemporaryEmail.row)
    (rows : list ReceivedEmail.row) (r : ReceivedEmail.row) :
  In (check_violation "reasonable_size") (ReceivedEmail.violations owners rows r)
  <-> check_passes (ReceivedEmail.reasonable_size r) = false.
Proof.
  unfold ReceivedEmail.violations. rewrite !in_app_iff. split.
  - intros H.
    repeat match type of H with
           | _ \/ _ => destruct H as [H | H]
           end;
      apply in_when in H as [Hb E]; try discriminate.
    now apply negb_true_iff.
  - intro H. rewrite H. simpl. tauto.
Qed.

Lemma size_bytes_never_required (owners : list TemporaryEmail.row)
    (rows : list ReceivedEmail.row) (r : ReceivedEmail.row) :
  ~ In (not_null_violation "size_bytes") (ReceivedEmail.violations owners rows r).
Proof.
  unfold ReceivedEmail.violations. rewrite !in_app_iff. intros H.
  repeat match type of H with
         | _ \/ _ => destruct H as [H | H]
         end;
    apply in_when in H as [Hb E]; discriminate.
Qed.

Lemma unknown_owner_violated (owners : list TemporaryEmail.row)
    (rows : list ReceivedEmail.row) (r : ReceivedEmail.row) :
  In ReceivedEmail.UnknownOwner (ReceivedEmail.violations owners rows r)
  <-> ReceivedEmail.dangling owners (ReceivedEmail.temp_email_id r) = true.
Proof.
  unfold ReceivedEmail.violations. rewrite !in_app_iff. split.
  - intros H.
    repeat match type of H with
           | _ \/ _ => destruct H as [H | H]
           end;
      apply in_when in H as [Hb E]; try discriminate.
    assumption.
  - intro H. rewrite H. simpl. tauto.
Qed.

Lemma null_owner_violated (owners : list TemporaryEmail.row)
    (rows : list ReceivedEmail.row) (r : ReceivedEmail.row) :
  ReceivedEmail.temp_email_id r = None ->
  In (not_null_violation "temp_email_id")
    (ReceivedEmail.violations owners rows r).
Proof.
  unfold ReceivedEmail.violations. rewrite !in_app_iff.
  intro H. rewrite H. simpl. tauto.
Qed.

(** A key that is the [id] of no row dangles. *)
Lemma dangling_iff (owners : list TemporaryEmail.row) (x : uuid) :
  ReceivedEmail.dangling owners (Some x) = true <->
  forall r, In r owners -> TemporaryEmail.id r <> Some x.
Proof.
  simpl. rewrite negb_true_iff. split.
  - intros H r Hr E.
    assert (existsb (TemporaryEmail.has_id x) owners = true); [| congruence].
    apply existsb_exists. exists r. split; auto. now apply uuid_is_eq.
  - intro H. destruct (existsb _ owners) eqn:E; auto.
    apply existsb_exists in E as (r & Hr & Hx).
    apply uuid_is_eq in Hx. now elim (H r Hr).
Qed.

End Rejection.

(** * The properties *)

Import Sql Store.

(** ** The size ceiling *)

(** C1.  In every store the schema lets a client reach, a message row that
    carries a [size_bytes] carries one of at most 10485760; and an INSERT
    whose [size_bytes] is above that is rejected, by [reasonable_size] (or
    as out of the range of INTEGER), and leaves the store as it was. *)
Theorem received_email_size_ceiling (st : Store.t) (H : Store.reachable st) :
  (forall m n,
      In m (received_emails st) ->
      ReceivedEmail.size_bytes m = Some n -> (n <= 10485760)%Z)
  /\ (forall s v n,
         ReceivedEmail.v_size_bytes v = Some n -> (10485760 < n)%Z ->
         exists vs,
           insert_received_email s v st = Rejected vs
           /\ (In (check_violation "reasonable_size") vs
               \/ In (numeric_value_out_of_range "size_bytes") vs)
           /\ after st (insert_received_email s v st) = st).
Proof.
  split.
  - intros m n Hm Hn.
    apply InvariantFacts.reachable_wf in H.
    pose proof (Invariant.wf_messages H) as W.
    rewrite Forall_forall in W.
    destruct (W m Hm) as (_ & _ & _ & _ & Hsize). auto.
  - intros s v n Hv Hn.
    destruct (Rejection.candidate_size_bytes s v) as [Hsize Hincl].
    rewrite Hv in Hsize, Hincl. simpl in Hsize, Hincl.
    set (vs := snd (ReceivedEmail.candidate s v)
               ++ ReceivedEmail.violations (temporary_emails st)
                    (received_emails st) (fst (ReceivedEmail.candidate s v))).
    assert (Hin : In (check_violation "reasonable_size") vs
                  \/ In (numeric_value_out_of_range "size_bytes") vs).
    { unfold vs. destruct (int4 n); simpl in Hsize, Hincl.
      - left. apply in_or_app. right.
        apply Rejection.reasonable_size_violated.
        unfold ReceivedEmail.reasonable_size. rewrite Hsize. simpl.
        destruct (Z.leb_spec n 10485760); [lia | reflexivity].
      - right. apply in_or_app. left. apply Hincl. now left. }
    assert (E : insert_received_email s v st = Rejected vs).
    { destruct Hin as [Hin | Hin];
        exact (Rejection.insert_received_email_rejected s v st _ Hin). }
    exists vs. rewrite E. auto.
Qed.

Lemma received_email_size_ceiling_witness :
  (5 <= 10485760)%Z
  /\ exists vs,
       insert_received_email (Example.session 5) Example.oversized Example.inbox
       = Rejected vs
       /\ (In (check_violation "reasonable_size") vs
           \/ In (numeric_value_out_of_range "size_bytes") vs)
       /\ after Example.inbox
            (insert_received_email (Example.session 5) Example.oversized
               Example.inbox)
          = Example.inbox.
Proof.
  assert (R : Store.reachable Example.inbox)
    by (exists Example.two_mailboxes; reflexivity).
  destruct (received_email_size_ceiling R) as [Hstored Hinsert].
  split.
  - apply (Hstored (nth 0 (received_emails Example.inbox)
                      (ReceivedEmail.Row None None None None None None None None None))).
    + vm_compute. left. reflexivity.
    + vm_compute. reflexivity.
  - apply Hinsert with (n := 10485761%Z); [reflexivity | lia].
Defined.

(** C10.  [size_bytes] is nullable: a row without it passes
    [reasonable_size]; an INSERT that leaves it out is never rejected on
    account of [size_bytes]; and there are reachable stores that hold such a
    row. *)
Theorem null_size_passes_reasonable_size :
  (forall r, ReceivedEmail.size_bytes r = None ->
             check_passes (ReceivedEmail.reasonable_size r) = true)
  /\ (forall s v st vs,
         ReceivedEmail.v_size_bytes v = None ->
         insert_received_email s v st = Rejected vs ->
         ~ In (check_violation "reasonable_size") vs
         /\ ~ In (not_null_violation "size_bytes") vs
         /\ ~ In (numeric_value_out_of_range "size_bytes") vs)
  /\ (exists st m,
         Store.reachable st
         /\ In m (received_emails st)
         /\ ReceivedEmail.size_bytes m = None).
Proof.
  split; [| split].
  - intros r Hr. unfold ReceivedEmail.reasonable_size. now rewrite Hr.
  - intros s v st vs Hv E.
    apply Rejection.insert_received_email_rejection in E. subst vs.
    destruct (Rejection.candidate_size_bytes s v) as [Hsize _].
    rewrite Hv in Hsize. simpl in Hsize.
    repeat split; intro Hin; apply in_app_or in Hin as [Hin | Hin].
    + apply Rejection.candidate_coercions in Hin as [[c E] | [c E]];
        discriminate.
    + apply Rejection.reasonable_size_violated in Hin.
      unfold ReceivedEmail.reasonable_size in Hin.
      rewrite Hsize in Hin. discriminate.
    + apply Rejection.candidate_coercions in Hin as [[c E] | [c E]];
        discriminate.
    + now apply Rejection.size_bytes_never_required in Hin.
    + revert Hin. unfold ReceivedEmail.candidate, to_varchar, to_int4.
      rewrite Hv.
      destruct (ReceivedEmail.v_from_address v) as [f |];
        [destruct (varchar 255 f) |];
        (destruct (ReceivedEmail.v_subject v) as [j |];
         [destruct (varchar 500 j) |]);
        simpl; intuition discriminate.
    + unfold ReceivedEmail.violations in Hin. rewrite !in_app_iff in Hin.
      repeat match type of Hin with
             | _ \/ _ => destruct Hin as [Hin | Hin]
             end;
        apply InvariantFacts.in_when in Hin as [_ E]; discriminate.
  - exists Example.unsized.
    exists (nth 1 (received_emails Example.unsized)
              (ReceivedEmail.Row None None None None None None None None None)).
    split; [| split].
    + eexists. reflexivity.
    + vm_compute. right. left. reflexivity.
    + vm_compute. reflexivity.
Qed.

Lemma null_size_passes_reasonable_size_witness :
  exists st',
    insert_received_email (Example.session 4)
      (Example.message (Some 2%N) None) Example.inbox = Ok st'
    /\ check_passes
         (ReceivedEmail.reasonable_size
            (nth 1 (received_emails st')
               (ReceivedEmail.Row None None None None None None None None
                  (Some 0%Z))))
       = true.
Proof.
  eexists. split.
  - vm_compute. reflexivity.
  - apply (proj1 null_size_passes_reasonable_size). vm_compute. reflexivity.
Defined.

(** ** The owner of a message *)

Lemma dangling_update_is_active (b : option bool)
    (p : TemporaryEmail.row -> bool) (rows : list TemporaryEmail.row)
    (v : option uuid) :
  ReceivedEmail.dangling
    (map (fun r => if p r then set_is_active b r else r) rows) v
  = ReceivedEmail.dangling rows v.
Proof.
  destruct v as [x |]; simpl; [| reflexivity].
  now rewrite InvariantFacts.has_id_set_is_active.
Qed.

(** The foreign key reads the [id] column only: what an INSERT into
    [received_emails] answers does not depend on any [is_active]. *)
Lemma insert_received_email_ignores_is_active (s : session)
    (v : ReceivedEmail.values) (st : Store.t) (b : option bool)
    (p : TemporaryEmail.row -> bool) (vs : list violation) :
  insert_received_email s v (update_is_active b p st) = Rejected vs
  <-> insert_received_email s v st = Rejected vs.
Proof.
  unfold insert_received_email, update_is_active; simpl.
  destruct (ReceivedEmail.candidate s v) as [r c].
  unfold ReceivedEmail.violations.
  rewrite dangling_update_is_active.
  destruct (c ++ _); split; intro H; try discriminate; assumption.
Qed.

(** The foreign key alone does not look at [is_active]: alice's row (id 1)
    is inactive, and a bare INSERT of a message for it goes through. *)
Lemma foreign_key_accepts_inactive_owner :
  map TemporaryEmail.is_active
    (filter (TemporaryEmail.has_id 1%N)
       (temporary_emails Example.alice_inactive))
  = [Some false]
  /\ exists st',
       insert_received_email (Example.session 5)
         (Example.message (Some 1%N) (Some 7%Z)) Example.alice_inactive
       = Ok st'
       /\ map ReceivedEmail.id
            (filter (ReceivedEmail.owned_by 1%N) (received_emails st'))
          = [Some 3%N; Some 5%N].
Proof.
  split; [vm_compute; reflexivity |].
  eexists. split; vm_compute; reflexivity.
Qed.

(** The schema's own part: an INSERT whose [temp_email_id] is the [id] of no
    row of [temporary_emails] is rejected by the foreign key. *)
Lemma foreign_key_rejects_unknown_owner (s : session)
    (v : ReceivedEmail.values) (st : Store.t) (x : uuid) :
  ReceivedEmail.v_temp_email_id v = Some x ->
  (forall r, In r (temporary_emails st) -> TemporaryEmail.id r <> Some x) ->
  exists vs,
    insert_received_email s v st = Rejected vs
    /\ In ReceivedEmail.UnknownOwner vs.
Proof.
  intros Hx Hnone.
  pose proof (Rejection.candidate_temp_email_id s v) as Hid.
  rewrite Hx in Hid.
  assert (Hin : In ReceivedEmail.UnknownOwner
                  (snd (ReceivedEmail.candidate s v)
                   ++ ReceivedEmail.violations (temporary_emails st)
                        (received_emails st)
                        (fst (ReceivedEmail.candidate s v)))).
  { apply in_or_app. right.
    apply Rejection.unknown_owner_violated. rewrite Hid.
    now apply Rejection.dangling_iff. }
  eexists. split; [| exact Hin].
  exact (Rejection.insert_received_email_rejected s v st _ Hin).
Qed.

Lemma apply_Insert_message (s : session) (v : ReceivedEmail.values)
    (st : Store.t) :
  Mailbox.apply st (Mailbox.Insert_message s v)
  = after st (Mailbox.insert_message s v st).
Proof. reflexivity. Qed.

(** C2.  [insert_message] fails with [UnknownOwner], and stores nothing,
    whenever [temp_email_id] is not the [id] of a row that is active; for an
    [id] that no row has, the schema's foreign key alone already rejects the
    INSERT with the same violation. *)
Theorem insert_message_unknown_owner (s : session) (v : ReceivedEmail.values)
    (st : Store.t)
    (H : forall r,
        In r (temporary_emails st) ->
        TemporaryEmail.id r = ReceivedEmail.v_temp_email_id v ->
        TemporaryEmail.is_active r <> Some true) :
  (exists vs,
      Mailbox.insert_message s v st = Rejected vs
      /\ In ReceivedEmail.UnknownOwner vs)
  /\ Mailbox.apply st (Mailbox.Insert_message s v) = st
  /\ (forall x,
         ReceivedEmail.v_temp_email_id v = Some x ->
         (forall r, In r (temporary_emails st) ->
                    TemporaryEmail.id r <> Some x) ->
         exists vs,
           insert_received_email s v st = Rejected vs
           /\ In ReceivedEmail.UnknownOwner vs).
Proof.
  assert (Hno : Mailbox.references_active st (ReceivedEmail.v_temp_email_id v)
                = false).
  { unfold Mailbox.references_active.
    destruct (ReceivedEmail.v_temp_email_id v) as [x |]; auto.
    destruct (existsb _ (temporary_emails st)) eqn:E; auto.
    apply existsb_exists in E as (r & Hr & Hx).
    apply andb_true_iff in Hx as [Hx Hact].
    apply InvariantFacts.uuid_is_eq in Hx.
    specialize (H r Hr Hx).
    unfold Mailbox.is_activated in Hact.
    destruct (TemporaryEmail.is_active r) as [[|] |];
      congruence. }
  assert (E : Mailbox.insert_message s v st
              = Rejected [ReceivedEmail.UnknownOwner])
    by (unfold Mailbox.insert_message; now rewrite Hno).
  split; [| split].
  - exists [ReceivedEmail.UnknownOwner]. split; [exact E | now left].
  - rewrite apply_Insert_message, E. reflexivity.
  - intros x Hx Hnone.
    now apply foreign_key_rejects_unknown_owner with (x := x).
Qed.

Lemma insert_message_unknown_owner_witness :
  (exists vs,
      Mailbox.insert_message (Example.session 5)
        (Example.message (Some 1%N) (Some 7%Z)) Example.alice_inactive
      = Rejected vs
      /\ In ReceivedEmail.UnknownOwner vs)
  /\ Mailbox.apply Example.alice_inactive
       (Mailbox.Insert_message (Example.session 5)
          (Example.message (Some 1%N) (Some 7%Z)))
     = Example.alice_inactive.
Proof.
  assert (H : forall r,
             In r (temporary_emails Example.alice_inactive) ->
             TemporaryEmail.id r
             = ReceivedEmail.v_temp_email_id
                 (Example.message (Some 1%N) (Some 7%Z)) ->
             TemporaryEmail.is_active r <> Some true).
  { vm_compute. intros r [<- | [<- | []]]; discriminate. }
  destruct (insert_message_unknown_owner (Example.session 5) _ _ H)
    as (Hrej & Hsame & _).
  split; [exact Hrej | exact Hsame].
Defined.

(** C4.  In every reachable store each message names, through a non-null
    [temp_email_id], exactly one row of [temporary_emails]; an INSERT
    without the key is rejected; and a DELETE of address rows removes, in
    the same statement, every message of the deleted rows and no other. *)
Theorem message_ownership_and_cascade (st : Store.t)
    (H : Store.reachable st) :
  (forall m,
      In m (received_emails st) ->
      exists x a,
        ReceivedEmail.temp_email_id m = Some x
        /\ In a (temporary_emails st)
        /\ TemporaryEmail.id a = Some x
        /\ forall a', In a' (temporary_emails st) ->
                      TemporaryEmail.id a' = Some x -> a' = a)
  /\ (forall s v,
         ReceivedEmail.v_temp_email_id v = None ->
         exists vs,
           insert_received_email s v st = Rejected vs
           /\ In (not_null_violation "temp_email_id") vs)
  /\ (forall p a m,
         In a (temporary_emails st) -> p a = true ->
         ReceivedEmail.temp_email_id m = TemporaryEmail.id a ->
         ~ In a (temporary_emails (delete_temporary_emails p st))
         /\ ~ In m (received_emails (delete_temporary_emails p st)))
  /\ (forall p m,
         In m (received_emails st) ->
         (forall a, In a (temporary_emails st) -> p a = true ->
                    ReceivedEmail.temp_email_id m <> TemporaryEmail.id a) ->
         In m (received_emails (delete_temporary_emails p st))).
Proof.
  apply InvariantFacts.reachable_wf in H.
  destruct H as [W1 W2 W3 W4 W5].
  rewrite Forall_forall in W1, W4.
  split; [| split; [| split]].
  - intros m Hm.
    destruct (W4 m Hm) as (_ & (x & Hx & Hin) & _).
    apply existsb_exists in Hin as (a & Ha & Hax).
    apply InvariantFacts.uuid_is_eq in Hax.
    exists x, a. repeat split; auto.
    intros a' Ha' Hax'.
    apply (InvariantFacts.NoDup_map_eq TemporaryEmail.id (temporary_emails st));
      auto; congruence.
  - intros s v Hv.
    pose proof (Rejection.candidate_temp_email_id s v) as Hid.
    rewrite Hv in Hid.
    pose proof (Rejection.null_owner_violated (temporary_emails st)
                  (received_emails st) _ Hid) as Hin.
    eexists. split.
    + apply Rejection.insert_received_email_rejected with
        (w := not_null_violation "temp_email_id").
      apply in_or_app. right. exact Hin.
    + apply in_or_app. right. exact Hin.
  - intros p a m Ha Hp Hm. split.
    + simpl. rewrite filter_In, Hp. simpl. intros [_ ?]. discriminate.
    + simpl. rewrite filter_In. intros [_ Href].
      apply negb_true_iff in Href.
      destruct (W1 a Ha) as (Hid & _).
      destruct (TemporaryEmail.id a) as [x |] eqn:Hx; [| congruence].
      unfold references in Href. rewrite Hm in Href.
      assert (existsb (TemporaryEmail.has_id x)
                (filter p (temporary_emails st)) = true); [| congruence].
      apply existsb_exists. exists a. split.
      * apply filter_In. auto.
      * now apply InvariantFacts.uuid_is_eq.
  - intros p m Hm Hother. simpl. apply filter_In. split; auto.
    apply negb_true_iff. unfold references.
    destruct (ReceivedEmail.temp_email_id m) as [x |] eqn:Hx; auto.
    destruct (existsb _ (filter p (temporary_emails st))) eqn:E; auto.
    apply existsb_exists in E as (a & Ha & Hax).
    apply filter_In in Ha as [Ha Hp].
    apply InvariantFacts.uuid_is_eq in Hax.
    elim (Hother a Ha Hp). congruence.
Qed.

Lemma message_ownership_and_cascade_witness :
  let alice_row :=
    nth 0 (temporary_emails Example.inbox)
      (TemporaryEmail.Row None None None None None None) in
  let hello :=
    nth 0 (received_emails Example.inbox)
      (ReceivedEmail.Row None None None None None None None None None) in
  let st' :=
    delete_temporary_emails (TemporaryEmail.has_address Example.alice)
      Example.inbox in
  ~ In alice_row (temporary_emails st') /\ ~ In hello (received_emails st').
Proof.
  assert (R : Store.reachable Example.inbox)
    by (exists Example.two_mailboxes; reflexivity).
  pose proof (message_ownership_and_cascade R) as (_ & _ & Hgone & _).
  apply Hgone.
  - vm_compute. left. reflexivity.
  - vm_compute. reflexivity.
  - vm_compute. reflexivity.
Defined.

(** ** The address column *)

Lemma stored_address_well_formed (st : Store.t) (r : TemporaryEmail.row) :
  Invariant.wf st ->
  In r (temporary_emails st) ->
  exists a, TemporaryEmail.address r = Some a /\ AddressFormat.well_formed a.
Proof.
  intros W Hr.
  pose proof (Invariant.wf_addresses W) as W1.
  rewrite Forall_forall in W1.
  destruct (W1 r Hr) as (_ & (a & Ha & Hfmt) & _).
  exists a. split; auto.
  now apply AddressFormatFacts.address_format_well_formed.
Qed.

(** C5.  In every reachable store no two rows of [temporary_emails] share
    an address, and every address reads [local-part@domain] with a
    non-empty local part of alphanumerics, underscores and hyphens (and a
    non-empty domain of alphanumerics, dots and hyphens). *)
Theorem address_unique_and_well_formed (st : Store.t)
    (H : Store.reachable st) :
  NoDup (map TemporaryEmail.address (temporary_emails st))
  /\ forall r,
       In r (temporary_emails st) ->
       exists a,
         TemporaryEmail.address r = Some a /\ AddressFormat.well_formed a.
Proof.
  apply InvariantFacts.reachable_wf in H.
  split.
  - apply (Invariant.wf_address_unique H).
  - intros r Hr. now apply stored_address_well_formed with (st := st).
Qed.

Lemma address_unique_and_well_formed_witness :
  NoDup (map TemporaryEmail.address (temporary_emails Example.inbox))
  /\ AddressFormat.well_formed Example.alice.
Proof.
  assert (R : Store.reachable Example.inbox)
    by (exists Example.two_mailboxes; reflexivity).
  destruct (address_unique_and_well_formed R) as [Hnodup Hfmt].
  split; [exact Hnodup |].
  destruct (Hfmt (nth 0 (temporary_emails Example.inbox)
                    (TemporaryEmail.Row None None None None None None)))
    as (a & Ha & Hwf).
  - vm_compute. left. reflexivity.
  - vm_compute in Ha. injection Ha as <-. exact Hwf.
Defined.

(** ** Deactivation *)

Import Mailbox.

Lemma deactivate_unfold (address : text) (st : Store.t) :
  deactivate address st
  = delete_received_emails (references (owners address st))
      (update_is_active (Some false) (TemporaryEmail.has_address address) st).
Proof. reflexivity. Qed.

Lemma get_message_found (address : text) (id : uuid) (st : Store.t)
    (m : ReceivedEmail.row) :
  get_message address id st = Found m ->
  In m (received_emails st)
  /\ exists a, In a (temporary_emails st)
               /\ TemporaryEmail.address a = Some address
               /\ owned a m = true.
Proof.
  unfold get_message, resolve.
  destruct (find (TemporaryEmail.has_address address) (temporary_emails st))
    as [a |] eqn:Ea; [| discriminate].
  destruct (find (ReceivedEmail.has_id id) (received_emails st))
    as [m' |] eqn:Em; [| discriminate].
  destruct (owned a m') eqn:Eo; [| discriminate].
  intro E. injection E as <-.
  apply find_some in Ea as [Ha Haddr], Em as [Hm _].
  apply InvariantFacts.text_is_eq in Haddr. eauto.
Qed.

(** *** Whoever owns a message is active *)

Module OwnershipFacts.
Import Invariant InvariantFacts.

Lemma wf_deactivate (address : text) (st : Store.t) :
  wf st -> wf (deactivate address st).
Proof. apply wf_fold. Qed.

Lemma wf_apply (st : Store.t) (o : operation) : wf st -> wf (apply st o).
Proof.
  destruct o as [s a h e | s v | a i | a | a | now batch | a];
    unfold apply; try apply wf_execute.
  - unfold insert_message.
    destruct (references_active st _); [| auto].
    apply (@wf_execute st (INSERT_received_email s v)).
  - apply wf_deactivate.
  - generalize (addresses_of
                  (firstn batch (filter (expired now) (temporary_emails st)))).
    intro addresses. revert st.
    induction addresses as [| a addresses IH]; simpl; intros st W; auto.
    apply IH. now apply wf_deactivate.
Qed.

Lemma wf_history (os : list operation) : wf (after_history os).
Proof.
  unfold after_history.
  assert (G : forall st, wf st -> wf (fold_left apply os st)).
  { induction os as [| o os IH]; simpl; intros st H; auto.
    apply IH. now apply wf_apply. }
  apply G, wf_empty.
Qed.

Lemma owners_active_deactivate (address : text) (st : Store.t) :
  owners_active st -> owners_active (deactivate address st).
Proof.
  intros Hst a m Ha Hm Ho.
  rewrite deactivate_unfold in Ha, Hm. simpl in Ha, Hm.
  apply in_map_iff in Ha as (a0 & <- & Ha0).
  apply filter_In in Hm as [Hm Href]. apply negb_true_iff in Href.
  destruct (TemporaryEmail.has_address address a0) eqn:E.
  - exfalso.
    unfold owned in Ho. simpl in Ho.
    destruct (TemporaryEmail.id a0) as [x |] eqn:Hx; [| discriminate].
    apply uuid_is_eq in Ho.
    unfold references in Href. rewrite Ho in Href.
    assert (existsb (TemporaryEmail.has_id x) (owners address st) = true);
      [| congruence].
    apply existsb_exists. exists a0. split.
    + apply filter_In. auto.
    + now apply uuid_is_eq.
  - now apply (Hst a0 m).
Qed.

Lemma owners_active_sweep (addresses : list text) :
  forall st,
    owners_active st ->
    owners_active (fold_left (fun st' a => deactivate a st') addresses st).
Proof.
  induction addresses as [| a addresses IH]; simpl; intros st H; auto.
  apply IH. now apply owners_active_deactivate.
Qed.

Lemma owners_active_fewer (st st' : Store.t) :
  incl (temporary_emails st') (temporary_emails st) ->
  incl (received_emails st') (received_emails st) ->
  owners_active st -> owners_active st'.
Proof. intros Hr Hm H a m Ha Hm'. apply H; auto. Qed.

Lemma insert_address_row (s : session) (address : text)
    (owner_hint : option text) (expires_at : timestamp) (st st' : Store.t) :
  insert_temporary_email s
    (insert_address_values address owner_hint expires_at) st = Ok st' ->
  exists r,
    temporary_emails st' = temporary_emails st ++ [r]
    /\ TemporaryEmail.is_active r = Some true
    /\ ~ In (TemporaryEmail.id r) (map TemporaryEmail.id (temporary_emails st)).
Proof.
  intro E.
  apply insert_temporary_email_accepted in E as (r & Hc & Hv & ->).
  apply accepted_address_ok in Hv as (_ & Hid & _).
  exists r. simpl. repeat split; auto.
  revert Hc.
  unfold TemporaryEmail.candidate, insert_address_values;
    cbn [TemporaryEmail.v_id TemporaryEmail.v_address
         TemporaryEmail.v_username TemporaryEmail.v_created_at
         TemporaryEmail.v_expires_at TemporaryEmail.v_is_active].
  destruct (to_varchar "address" 255 (Some address)) as [a1 v1].
  destruct (to_varchar "username" 100 owner_hint) as [u1 v2].
  intro Hc. injection Hc as <- _. reflexivity.
Qed.

Lemma owners_active_insert_address (s : session) (address : text)
    (owner_hint : option text) (expires_at : timestamp) (st : Store.t) :
  owners_active st ->
  owners_active
    (after st
       (insert_temporary_email s
          (insert_address_values address owner_hint expires_at) st)).
Proof.
  intro H.
  destruct (insert_temporary_email s _ st) as [st' |] eqn:E; simpl; auto.
  pose proof E as E'.
  apply insert_temporary_email_accepted in E' as (r0 & _ & _ & Est).
  apply insert_address_row in E as (r & Hrows & Hact & _).
  intros a m Ha Hm Ho. rewrite Hrows in Ha. rewrite Est in Hm. simpl in Hm.
  apply in_app_or in Ha as [Ha | [<- | []]]; auto.
  now apply (H a m).
Qed.

Lemma owners_active_insert_message (s : session)
    (v : ReceivedEmail.values) (st : Store.t) :
  wf st -> owners_active st ->
  owners_active (after st (insert_message s v st)).
Proof.
  intros W H. unfold insert_message.
  destruct (references_active st _) eqn:G; simpl; auto.
  destruct (insert_received_email s v st) as [st' |] eqn:E; simpl; auto.
  apply insert_received_email_accepted in E as (r & Hc & _ & ->).
  pose proof (Rejection.candidate_temp_email_id s v) as Hid.
  rewrite Hc in Hid. simpl in Hid.
  intros a m Ha Hm Ho. simpl in Ha, Hm.
  apply in_app_or in Hm as [Hm | [<- | []]]; [now apply (H a m) |].
  unfold owned in Ho.
  destruct (TemporaryEmail.id a) as [x |] eqn:Hx; [| discriminate].
  apply uuid_is_eq in Ho. rewrite Hid in Ho. rewrite Ho in G. simpl in G.
  apply existsb_exists in G as (a' & Ha' & Hx').
  apply andb_true_iff in Hx' as [Hx' Hact].
  assert (a' = a).
  { apply (one_address_per_id x W); auto. now apply uuid_is_eq. }
  subst a'. unfold is_activated in Hact.
  now destruct (TemporaryEmail.is_active a) as [[|] |].
Qed.

Lemma owners_active_apply (st : Store.t) (o : operation) :
  wf st -> owners_active st -> owners_active (apply st o).
Proof.
  intros W H.
  destruct o as [s a h e | s v | a i | a | a | now batch | a]; unfold apply.
  - now apply owners_active_insert_address.
  - now apply owners_active_insert_message.
  - apply owners_active_fewer with (st := st); simpl; auto using incl_refl.
    apply incl_filter.
  - apply owners_active_fewer with (st := st); simpl; auto using incl_refl.
    apply incl_filter.
  - now apply owners_active_deactivate.
  - now apply owners_active_sweep.
  - apply owners_active_fewer with (st := st); simpl; auto;
      apply incl_filter.
Qed.

(** In every committed store of every history, whoever owns a message is
    active. *)
Lemma owners_active_history (os : list operation) :
  owners_active (after_history os).
Proof.
  unfold after_history.
  assert (G : forall st, wf st -> owners_active st ->
                         owners_active (fold_left apply os st)).
  { induction os as [| o os IH]; simpl; intros st W H; auto.
    apply IH; [now apply wf_apply | now apply owners_active_apply]. }
  apply G; [apply wf_empty |].
  intros a m [].
Qed.

End OwnershipFacts.

(** C3.  [deactivate(A)] is one transaction; in the store it commits, the
    row of [A] is inactive, no message is owned by it, no read returns a
    message of [A], and the other mailboxes keep their messages.  No
    committed store of any history holds a message whose owner is not
    active. *)
Theorem deactivate_cascades (address : text) (st : Store.t) :
  (forall a,
      In a (temporary_emails (deactivate address st)) ->
      TemporaryEmail.address a = Some address ->
      TemporaryEmail.is_active a = Some false)
  /\ (forall a m,
         In a (temporary_emails (deactivate address st)) ->
         TemporaryEmail.address a = Some address ->
         In m (received_emails (deactivate address st)) ->
         owned a m = false)
  /\ (forall id, get_message address id (deactivate address st) = NotFound)
  /\ (forall m,
         In m (received_emails st) ->
         references (owners address st) m = false ->
         In m (received_emails (deactivate address st)))
  /\ (forall r,
         In r (temporary_emails st) ->
         TemporaryEmail.has_address address r = false ->
         In r (temporary_emails (deactivate address st)))
  /\ (forall os a m,
         In a (temporary_emails (after_history os)) ->
         In m (received_emails (after_history os)) ->
         owned a m = true ->
         TemporaryEmail.is_active a = Some true).
Proof.
  rewrite deactivate_unfold. simpl.
  assert (Howned : forall a m,
             In a (map (fun r => if TemporaryEmail.has_address address r
                                 then set_is_active (Some false) r else r)
                     (temporary_emails st)) ->
             TemporaryEmail.address a = Some address ->
             In m (filter (fun m => negb (references (owners address st) m))
                     (received_emails st)) ->
             owned a m = false).
  { intros a m Ha Haddr Hm.
    apply in_map_iff in Ha as (r0 & <- & Hr0).
    apply filter_In in Hm as [_ Href]. apply negb_true_iff in Href.
    assert (Hown : In r0 (owners address st)).
    { apply filter_In. split; auto.
      apply InvariantFacts.text_is_eq.
      destruct (TemporaryEmail.has_address address r0); auto. }
    assert (Hid : TemporaryEmail.id
                    (if TemporaryEmail.has_address address r0
                     then set_is_active (Some false) r0 else r0)
                  = TemporaryEmail.id r0)
      by (destruct (TemporaryEmail.has_address address r0); reflexivity).
    unfold owned. rewrite Hid.
    destruct (TemporaryEmail.id r0) as [x |] eqn:Hx; auto.
    destruct (ReceivedEmail.owned_by x m) eqn:Eo; auto.
    apply InvariantFacts.uuid_is_eq in Eo.
    unfold references in Href. rewrite Eo in Href.
    assert (existsb (TemporaryEmail.has_id x) (owners address st) = true);
      [| congruence].
    apply existsb_exists. exists r0. split; auto.
    now apply InvariantFacts.uuid_is_eq. }
  split; [| split; [| split; [| split; [| split]]]];
    [| | | | | intros os; apply OwnershipFacts.owners_active_history].
  - intros a Ha Haddr.
    apply in_map_iff in Ha as (r0 & <- & Hr0).
    destruct (TemporaryEmail.has_address address r0) eqn:E; auto.
    apply InvariantFacts.text_is_eq in Haddr.
    unfold TemporaryEmail.has_address in E. congruence.
  - exact Howned.
  - intro id.
    destruct (get_message address id _) as [m |] eqn:E; auto.
    apply get_message_found in E as (Hm & a & Ha & Haddr & Ho).
    simpl in Hm, Ha. rewrite (Howned a m Ha Haddr Hm) in Ho. discriminate.
  - intros m Hm Href. apply filter_In. split; auto. now rewrite Href.
  - intros r Hr Hno. apply in_map_iff. exists r. now rewrite Hno.
Qed.

Lemma deactivate_cascades_witness :
  map TemporaryEmail.is_active
    (temporary_emails (deactivate Example.alice Example.inbox))
  = [Some false; Some true]
  /\ get_message Example.alice 3%N (deactivate Example.alice Example.inbox)
     = NotFound
  /\ get_message Example.alice 3%N Example.inbox
     = Found (nth 0 (received_emails Example.inbox)
                (ReceivedEmail.Row None None None None None None None None None)).
Proof.
  split; [vm_compute; reflexivity |].
  split; [| vm_compute; reflexivity].
  apply (proj1 (proj2 (proj2 (deactivate_cascades Example.alice Example.inbox)))).
Defined.

(** ** [is_active] over a history of operations *)

Module MonotoneFacts.
Import Invariant InvariantFacts Monotone.

Lemma continues_refl (rows : list TemporaryEmail.row) : continues rows rows.
Proof. intros r Hr. exists r. auto. Qed.

Lemma continues_trans (r1 r2 r3 : list TemporaryEmail.row) :
  continues r1 r2 -> continues r2 r3 -> continues r1 r3.
Proof.
  intros H12 H23 c Hc.
  destruct (H23 c Hc) as (b & Hb & Hid & Hact).
  destruct (H12 b Hb) as (a & Ha & Hid' & Hact').
  exists a. repeat split; auto. congruence.
Qed.

Lemma quiet_continues (st : Store.t) (q : statement) :
  quiet q -> continues (temporary_emails st) (temporary_emails (execute st q)).
Proof.
  destruct q as [s v | s v | p | p | b p | s x set | s x set]; simpl;
    intro Hq.
  - contradiction.
  - destruct (insert_received_email s v st) as [st' |] eqn:E; simpl;
      [| apply continues_refl].
    apply insert_received_email_accepted in E as (r & _ & _ & ->).
    apply continues_refl.
  - intros r Hr. apply filter_In in Hr as [Hr _]. exists r. auto.
  - apply continues_refl.
  - subst b. intros r' Hr'.
    apply in_map_iff in Hr' as (r & <- & Hr).
    exists r. destruct (p r); auto.
  - contradiction.
  - unfold update_received_email.
    destruct (find _ (received_emails st)); [| apply continues_refl].
    destruct (ReceivedEmail.candidate s _) as [new c].
    destruct (c ++ _); apply continues_refl.
Qed.

Lemma quiet_fold (qs : list statement) :
  Forall quiet qs ->
  forall st,
    continues (temporary_emails st)
      (temporary_emails (fold_left execute qs st)).
Proof.
  induction 1 as [| q qs Hq _ IH]; intro st; simpl.
  - apply continues_refl.
  - eapply continues_trans; [apply quiet_continues, Hq | apply IH].
Qed.

Lemma deactivate_quiet (address : text) (st : Store.t) :
  Forall quiet (deactivate_statements address st).
Proof. repeat constructor. Qed.

Lemma deactivate_continues (address : text) (st : Store.t) :
  continues (temporary_emails st) (temporary_emails (deactivate address st)).
Proof. apply quiet_fold, deactivate_quiet. Qed.

Lemma sweep_continues (addresses : list text) :
  forall st,
    continues (temporary_emails st)
      (temporary_emails
         (fold_left (fun st' a => deactivate a st') addresses st)).
Proof.
  induction addresses as [| a addresses IH]; intro st; simpl.
  - apply continues_refl.
  - eapply continues_trans; [apply deactivate_continues | apply IH].
Qed.

(** Only [Insert_address] adds a row to [temporary_emails]. *)
Lemma apply_continues (st : Store.t) (o : operation) :
  (exists s address owner_hint expires_at,
      o = Insert_address s address owner_hint expires_at)
  \/ continues (temporary_emails st) (temporary_emails (apply st o)).
Proof.
  destruct o as [s a h e | s v | a i | a | a | now batch | a].
  - left. eauto.
  - right. unfold apply, insert_message.
    destruct (references_active st _); [| apply continues_refl].
    exact (quiet_continues st (INSERT_received_email s v) I).
  - right. exact (quiet_continues st (DELETE_received_emails _) I).
  - right. exact (quiet_continues st (DELETE_received_emails _) I).
  - right. apply deactivate_continues.
  - right. apply sweep_continues.
  - right. exact (quiet_continues st (DELETE_temporary_emails _) I).
Qed.

End MonotoneFacts.

(** C6.  Along every history of store operations: a row that an operation
    adds is active, and a row that is inactive before an operation is
    inactive after it, for as long as it exists. *)
Theorem is_active_monotone (os : list operation) (o : operation) :
  (forall r',
      In r' (temporary_emails (apply (after_history os) o)) ->
      (forall r, In r (temporary_emails (after_history os)) ->
                 TemporaryEmail.id r <> TemporaryEmail.id r') ->
      TemporaryEmail.is_active r' = Some true)
  /\ (forall r r',
         In r (temporary_emails (after_history os)) ->
         In r' (temporary_emails (apply (after_history os) o)) ->
         TemporaryEmail.id r' = TemporaryEmail.id r ->
         TemporaryEmail.is_active r = Some false ->
         TemporaryEmail.is_active r' = Some false).
Proof.
  pose proof (OwnershipFacts.wf_history os) as W.
  set (st := after_history os) in *.
  assert (Hsame : forall r r',
             In r (temporary_emails st) -> In r' (temporary_emails st) ->
             TemporaryEmail.id r' = TemporaryEmail.id r -> r' = r).
  { intros r r' Hr Hr' E.
    apply (InvariantFacts.NoDup_map_eq TemporaryEmail.id (temporary_emails st));
      auto. apply (Invariant.wf_address_ids W). }
  destruct (MonotoneFacts.apply_continues st o)
    as [(s & a & h & e & ->) | Hc].
  - unfold apply. simpl.
    destruct (insert_temporary_email s (insert_address_values a h e) st)
      as [st' |] eqn:E; simpl.
    + apply OwnershipFacts.insert_address_row in E as (new & -> & Hact & Hnew).
      split.
      * intros r' Hr' Hfresh.
        apply in_app_or in Hr' as [Hr' | [<- | []]]; auto.
        now elim (Hfresh r' Hr').
      * intros r r' Hr Hr' Hid Hin.
        apply in_app_or in Hr' as [Hr' | [<- | []]].
        -- now rewrite (Hsame r r' Hr Hr' Hid).
        -- elim Hnew. rewrite Hid. now apply in_map.
    + split.
      * intros r' Hr' Hfresh. now elim (Hfresh r' Hr').
      * intros r r' Hr Hr' Hid Hin. now rewrite (Hsame r r' Hr Hr' Hid).
  - split.
    + intros r' Hr' Hfresh.
      destruct (Hc r' Hr') as (r & Hr & Hid & _).
      elim (Hfresh r Hr). congruence.
    + intros r r' Hr Hr' Hid Hin.
      destruct (Hc r' Hr') as (r0 & Hr0 & Hid0 & Hkeep).
      apply Hkeep.
      rewrite (Hsame r r0 Hr Hr0); [assumption | congruence].
Qed.

Lemma is_active_monotone_witness :
  map TemporaryEmail.is_active
    (temporary_emails (after_history Example.deactivated))
  = [Some false]
  /\ forall r',
       In r' (temporary_emails
                (apply (after_history Example.deactivated)
                   (Sweep_expired 90000000%Z 10))) ->
       TemporaryEmail.id r' = Some 1%N ->
       TemporaryEmail.is_active r' = Some false.
Proof.
  split; [vm_compute; reflexivity |].
  intros r' Hr' Hid.
  pose proof (proj2 (is_active_monotone Example.deactivated
                       (Sweep_expired 90000000%Z 10))) as Hkeep.
  apply (Hkeep (nth 0 (temporary_emails (after_history Example.deactivated))
                  (TemporaryEmail.Row None None None None None None)) r').
  - vm_compute. left. reflexivity.
  - exact Hr'.
  - rewrite Hid. vm_compute. reflexivity.
  - vm_compute. reflexivity.
Defined.

(** ** Reading another mailbox's message *)

Lemma well_formed_nonempty (a : text) : AddressFormat.well_formed a -> a <> [].
Proof.
  intros (l & d & -> & Hl & _). destruct l; [congruence | discriminate].
Qed.

(** The route hands a backend failure on: its status, and the backend's
    [error] (or the route's own text when the backend gave none). *)
Lemma GET_relays_not_found (fetch : text -> option Http.backend_response)
    (id address message : text) (detail : ReceivedEmail.row -> Js.json)
    (stringify : Js.json -> text) :
  id <> [] -> address <> [] ->
  fetch (EmailRoute.backendUrl address id)
  = Some (EmailRoute.reply message detail stringify NotFound) ->
  EmailRoute.GET fetch id (Some address)
  = {| Http.status := 404;
       Http.body :=
         EmailRoute.error_body
           (Js.or_else (Some (Js.JString message))
              (Some (Js.JString (lit "Failed to fetch email.")))) |}.
Proof.
  intros Hid Haddr Hfetch. unfold EmailRoute.GET.
  destruct id as [| c id]; [congruence |].
  destruct address as [| c' address]; [congruence |].
  cbn [Js.blank orb]. rewrite Hfetch. reflexivity.
Qed.

(** C7.  For two mailboxes [a] and [b] of a reachable store with different
    ids and a message [m] owned by [a], [get_message] with [b]'s address and
    [m]'s id is [NotFound]; and the route, given the backend's not-found
    answer, responds 404 with an error text that is the same for every
    message. *)
Theorem cross_mailbox_read_not_found (st : Store.t) (H : Store.reachable st)
    (a b : TemporaryEmail.row) (m : ReceivedEmail.row) (B : text) (i : uuid)
    (Ha : In a (temporary_emails st)) (Hb : In b (temporary_emails st))
    (Hab : TemporaryEmail.id a <> TemporaryEmail.id b)
    (HB : TemporaryEmail.address b = Some B)
    (Hm : In m (received_emails st))
    (Hi : ReceivedEmail.id m = Some i)
    (Hown : ReceivedEmail.temp_email_id m = TemporaryEmail.id a) :
  get_message B i st = NotFound
  /\ forall message detail stringify fetch id,
       id <> [] ->
       fetch (EmailRoute.backendUrl B id)
       = Some (EmailRoute.reply message detail stringify
                 (get_message B i st)) ->
       EmailRoute.GET fetch id (Some B)
       = {| Http.status := 404;
            Http.body :=
              EmailRoute.error_body
                (Js.or_else (Some (Js.JString message))
                   (Some (Js.JString (lit "Failed to fetch email.")))) |}.
Proof.
  apply InvariantFacts.reachable_wf in H.
  pose proof (fun b Hb => @stored_address_well_formed st b H Hb) as Hfmt.
  destruct H as [W1 W2 W3 W4 W5].
  assert (Hnf : get_message B i st = NotFound).
  { destruct (get_message B i st) as [m' |] eqn:E; auto.
    exfalso.
    pose proof E as E'.
    apply get_message_found in E' as (Hm' & b' & Hb' & HB' & Ho).
    assert (b' = b).
    { apply (InvariantFacts.NoDup_map_eq TemporaryEmail.address
               (temporary_emails st)); auto. congruence. }
    subst b'.
    assert (m' = m).
    { apply (InvariantFacts.NoDup_map_eq ReceivedEmail.id (received_emails st));
        auto.
      revert E. unfold get_message.
      destruct (resolve B st); [| discriminate].
      destruct (find (ReceivedEmail.has_id i) (received_emails st))
        as [m0 |] eqn:Ef; [| discriminate].
      destruct (owned r m0); [| discriminate].
      intro E. injection E as ->.
      apply find_some in Ef as [_ Ef].
      apply InvariantFacts.uuid_is_eq in Ef. congruence. }
    subst m'.
    unfold owned in Ho.
    destruct (TemporaryEmail.id b) as [y |]; [| discriminate].
    apply InvariantFacts.uuid_is_eq in Ho. congruence. }
  split; [exact Hnf |].
  intros message detail stringify fetch id Hid Hfetch.
  rewrite Hnf in Hfetch.
  apply GET_relays_not_found with (detail := detail) (stringify := stringify);
    auto.
  destruct (Hfmt b Hb) as (B' & HB' & Hwf).
  apply well_formed_nonempty.
  congruence.
Qed.

Lemma cross_mailbox_read_not_found_witness :
  get_message Example.bob 3%N Example.inbox = NotFound
  /\ get_message Example.alice 3%N Example.inbox
     = Found (nth 0 (received_emails Example.inbox)
                (ReceivedEmail.Row None None None None None None None None None))
  /\ EmailRoute.GET (Example.backend Example.inbox Example.bob 3%N)
       (lit "3") (Some Example.bob)
     = {| Http.status := 404;
          Http.body :=
            Js.JObject [(lit "error", Js.JString (lit "Email not found"))] |}.
Proof.
  assert (R : Store.reachable Example.inbox)
    by (exists Example.two_mailboxes; reflexivity).
  destruct (@cross_mailbox_read_not_found Example.inbox R
              (nth 0 (temporary_emails Example.inbox)
                 (TemporaryEmail.Row None None None None None None))
              (nth 1 (temporary_emails Example.inbox)
                 (TemporaryEmail.Row None None None None None None))
              (nth 0 (received_emails Example.inbox)
                 (ReceivedEmail.Row None None None None None None None None
                    None))
              Example.bob 3%N) as [Hnf Hroute].
  - vm_compute. left. reflexivity.
  - vm_compute. right. left. reflexivity.
  - vm_compute. discriminate.
  - vm_compute. reflexivity.
  - vm_compute. left. reflexivity.
  - vm_compute. reflexivity.
  - vm_compute. reflexivity.
  - split; [exact Hnf |].
    split; [vm_compute; reflexivity |].
    rewrite (Hroute (lit "Email not found") (fun _ => Js.JNull) (fun _ => [])
               (Example.backend Example.inbox Example.bob 3%N) (lit "3")).
    + reflexivity.
    + discriminate.
    + reflexivity.
Defined.

(** ** The generate route *)

Module UsernameFacts.
Import Regex RegexFacts Username.

Lemma username_bracket (c : char) :
  in_bracket GenerateRoute.username_chars c = allowed c.
Proof.
  unfold in_bracket, GenerateRoute.username_chars, allowed,
    AddressFormat.is_alphanumeric, in_range, char_eqb;
    simpl existsb; simpl fst; simpl snd.
  AddressFormatFacts.char_codes. rewrite orb_false_r, !orb_assoc.
  f_equal.
  apply eq_true_iff_eq.
  rewrite andb_true_iff, !N.leb_le, N.eqb_eq. lia.
Qed.

(** [/^[a-zA-Z0-9_]+$/] accepts the non-empty strings of allowed
    characters. *)
Lemma username_pattern_allowed (s : text) :
  test GenerateRoute.username_pattern s = true <->
  s <> [] /\ Forall (fun c => allowed c = true) s.
Proof.
  unfold GenerateRoute.username_pattern.
  rewrite test_anchored, lang_plus_bracket.
  split; intros [Hne Hall]; split; auto;
    now apply AddressFormatFacts.Forall_bracket with (1 := username_bracket).
Qed.

(** An invalid username files at least one issue. *)
Lemma invalid_username_issues (s : text) :
  (List.length s < 3)%nat \/ (20 < List.length s)%nat
  \/ (exists c, In c s /\ allowed c = false) ->
  GenerateRoute.string_issues s <> [].
Proof.
  unfold GenerateRoute.string_issues. intros [H | [H | (c & Hc & Hbad)]].
  - apply Nat.ltb_lt in H. rewrite H. discriminate.
  - apply Nat.ltb_lt in H. rewrite H.
    destruct (List.length s <? 3)%nat; discriminate.
  - destruct (test GenerateRoute.username_pattern s) eqn:E.
    + apply username_pattern_allowed in E as [_ Hall].
      rewrite Forall_forall in Hall. specialize (Hall c Hc). congruence.
    + destruct (List.length s <? 3)%nat, (20 <? List.length s)%nat;
        discriminate.
Qed.

End UsernameFacts.

(** C8 as stated fails: a body without a username is answered 500, and
    nothing is forwarded, when [BACKEND_URL] is not set; and a body that is
    not an object has no username and is answered 400. *)
Lemma generate_without_username_not_forwarded :
  GenerateRoute.POST {| GenerateRoute.BACKEND_URL := None |} no_backend
    (Some (Js.JObject []))
  = {| GenerateRoute.forward := None;
       GenerateRoute.response :=
         {| Http.status := 500;
            Http.body :=
              GenerateRoute.error
                "Server configuration error: BACKEND_URL is not set." |} |}
  /\ GenerateRoute.POST
       {| GenerateRoute.BACKEND_URL := Some (lit "http://127.0.0.1:3001") |}
       no_backend (Some (Js.JArray []))
     = {| GenerateRoute.forward := None;
          GenerateRoute.response :=
            {| Http.status := 400;
               Http.body := GenerateRoute.error "Invalid username." |} |}.
Proof. split; reflexivity. Qed.

(** C8, amended.  For a request whose body is a JSON object: a username
    that is a string shorter than 3, longer than 20, or with a character
    outside [a-zA-Z0-9_] is answered 400 and nothing is forwarded; without a
    username (or with [null]) validation succeeds, and the request is
    forwarded, with [username: null], exactly when [BACKEND_URL] is set;
    otherwise the answer is 500.  A body that is not a JSON object (JSON of
    another kind, or no JSON at all) is answered 400 and nothing is
    forwarded. *)
Theorem generate_username_validation (e : GenerateRoute.env)
    (fetch : GenerateRoute.forwarded -> option Http.backend_response)
    (members : list (text * Js.json)) :
  (forall s,
      Js.member (lit "username") members = Some (Js.JString s) ->
      (List.length s < 3)%nat \/ (20 < List.length s)%nat
      \/ (exists c, In c s /\ Username.allowed c = false) ->
      GenerateRoute.forward
        (GenerateRoute.POST e fetch (Some (Js.JObject members))) = None
      /\ Http.status
           (GenerateRoute.response
              (GenerateRoute.POST e fetch (Some (Js.JObject members))))
         = 400%Z)
  /\ (Js.member (lit "username") members = None
      \/ Js.member (lit "username") members = Some Js.JNull ->
      (exists u,
          GenerateRoute.GenerateEmailRequestSchema (Js.JObject members)
          = GenerateRoute.Success u
          /\ GenerateRoute.username_or_null u = Js.JNull)
      /\ (forall b,
             GenerateRoute.BACKEND_URL e = Some b -> b <> [] ->
             GenerateRoute.forward
               (GenerateRoute.POST e fetch (Some (Js.JObject members)))
             = Some {| GenerateRoute.url :=
                         GenerateRoute.remove_trailing_slash b
                         ++ lit "/api/email/generate";
                       GenerateRoute.payload :=
                         Js.JObject [(lit "username", Js.JNull)] |})
      /\ (Js.blank (GenerateRoute.BACKEND_URL e) = true ->
          GenerateRoute.forward
            (GenerateRoute.POST e fetch (Some (Js.JObject members))) = None
          /\ Http.status
               (GenerateRoute.response
                  (GenerateRoute.POST e fetch (Some (Js.JObject members))))
             = 500%Z))
  /\ (forall request_body,
         (forall ms, request_body <> Some (Js.JObject ms)) ->
         GenerateRoute.forward (GenerateRoute.POST e fetch request_body) = None
         /\ Http.status
              (GenerateRoute.response (GenerateRoute.POST e fetch request_body))
            = 400%Z).
Proof.
  split; [| split].
  - intros s Hs Hbad.
    apply UsernameFacts.invalid_username_issues in Hbad.
    unfold GenerateRoute.POST, GenerateRoute.GenerateEmailRequestSchema.
    rewrite Hs.
    destruct (GenerateRoute.string_issues s); [congruence |].
    split; reflexivity.
  - intros Hu.
    assert (Hv : exists u,
               GenerateRoute.GenerateEmailRequestSchema (Js.JObject members)
               = GenerateRoute.Success u
               /\ GenerateRoute.username_or_null u = Js.JNull).
    { unfold GenerateRoute.GenerateEmailRequestSchema.
      destruct Hu as [-> | ->]; eexists; split; reflexivity. }
    split; [exact Hv |].
    destruct Hv as (u & Hparse & Hnull).
    unfold GenerateRoute.POST. rewrite Hparse.
    split.
    + intros b Hb Hne. rewrite Hb.
      destruct b as [| c b]; [congruence |].
      cbn [Js.blank GenerateRoute.forward]. rewrite Hnull. reflexivity.
    + intros Hblank. rewrite Hblank. split; reflexivity.
  - intros request_body Hother.
    destruct request_body as [[| b | x | s | items | ms] |];
      try (split; reflexivity).
    now elim (Hother ms).
Qed.

Lemma generate_username_validation_witness :
  Http.status
    (GenerateRoute.response
       (GenerateRoute.POST
          {| GenerateRoute.BACKEND_URL := Some (lit "http://127.0.0.1:3001/") |}
          no_backend
          (Some (Js.JObject [(lit "username", Js.JString (lit "a-b"))]))))
  = 400%Z
  /\ GenerateRoute.forward
       (GenerateRoute.POST
          {| GenerateRoute.BACKEND_URL := Some (lit "http://127.0.0.1:3001/") |}
          no_backend (Some (Js.JObject [])))
     = Some {| GenerateRoute.url :=
                 lit "http://127.0.0.1:3001/api/email/generate";
               GenerateRoute.payload :=
                 Js.JObject [(lit "username", Js.JNull)] |}
  /\ Http.status
       (GenerateRoute.response
          (GenerateRoute.POST
             {| GenerateRoute.BACKEND_URL := Some (lit "http://127.0.0.1:3001/") |}
             no_backend (Some (Js.JString (lit "bob_42")))))
     = 400%Z.
Proof.
  split; [| split].
  - refine (proj2
              (proj1 (generate_username_validation
                        {| GenerateRoute.BACKEND_URL :=
                             Some (lit "http://127.0.0.1:3001/") |}
                        no_backend
                        [(lit "username", Js.JString (lit "a-b"))])
                 (lit "a-b") eq_refl _)).
    right. right. exists (chr "-"). split; [vm_compute; auto | reflexivity].
  - refine (proj1 (proj2
              (proj1 (proj2 (generate_username_validation
                        {| GenerateRoute.BACKEND_URL :=
                             Some (lit "http://127.0.0.1:3001/") |}
                        no_backend []))
                 (or_introl eq_refl)))
              (lit "http://127.0.0.1:3001/") eq_refl _).
    discriminate.
  - refine (proj2
              (proj2 (proj2 (generate_username_validation
                        {| GenerateRoute.BACKEND_URL :=
                             Some (lit "http://127.0.0.1:3001/") |}
                        no_backend []))
                 (Some (Js.JString (lit "bob_42"))) _)).
    intros ms. discriminate.
Defined.

(** ** The mail view *)

(** C9 as stated fails: an HTML body that is present and empty is not
    rendered as HTML (the plain body is shown), and a plain body that is
    present and empty is not rendered as text. *)
Lemma renderBody_empty_string_counts_as_absent :
  EmailView.renderBody
    {| EmailView.id := lit "3";
       EmailView.from_address := lit "a@b.com";
       EmailView.subject := lit "Test";
       EmailView.body_plain := Some (lit "hello");
       EmailView.body_html := Some [];
       EmailView.received_at := lit "2025-10-02T21:08:47Z" |}
  = EmailView.p (lit "whitespace-pre-wrap") (lit "hello")
  /\ EmailView.renderBody
       {| EmailView.id := lit "3";
          EmailView.from_address := lit "a@b.com";
          EmailView.subject := lit "Test";
          EmailView.body_plain := Some [];
          EmailView.body_html := None;
          EmailView.received_at := lit "2025-10-02T21:08:47Z" |}
     = EmailView.no_content.
Proof. split; reflexivity. Qed.

(** C9, amended.  With both bodies absent [renderBody] shows the
    empty-content notice; a non-empty HTML body is rendered as HTML;
    otherwise a non-empty plain body is rendered as text; an empty string
    counts as absent, so the notice is shown whenever neither body is a
    non-empty string. *)
Theorem renderBody_cases (email : EmailView.EmailDetail) :
  (EmailView.body_plain email = None -> EmailView.body_html email = None ->
   EmailView.renderBody email = EmailView.no_content)
  /\ (forall html,
         EmailView.body_html email = Some html -> html <> [] ->
         EmailView.renderBody email
         = EmailView.div_dangerouslySetInnerHTML
             (lit "prose prose-invert prose-sm md:prose-base max-w-none") html)
  /\ (forall plain,
         Js.blank (EmailView.body_html email) = true ->
         EmailView.body_plain email = Some plain -> plain <> [] ->
         EmailView.renderBody email
         = EmailView.p (lit "whitespace-pre-wrap") plain)
  /\ (Js.blank (EmailView.body_html email) = true ->
      Js.blank (EmailView.body_plain email) = true ->
      EmailView.renderBody email = EmailView.no_content).
Proof.
  unfold EmailView.renderBody, EmailView.no_content.
  destruct (EmailView.body_html email) as [[| c html] |],
    (EmailView.body_plain email) as [[| d plain] |];
    repeat split; intros; try reflexivity; try discriminate; try congruence;
    match goal with
    | E : Some _ = Some ?x |- _ => injection E as <-; reflexivity
    end.
Qed.

Lemma renderBody_cases_witness :
  EmailView.renderBody
    {| EmailView.id := lit "3";
       EmailView.from_address := lit "a@b.com";
       EmailView.subject := lit "Test";
       EmailView.body_plain := None;
       EmailView.body_html := None;
       EmailView.received_at := lit "2025-10-02T21:08:47Z" |}
  = EmailView.no_content
  /\ EmailView.renderBody
       {| EmailView.id := lit "3";
          EmailView.from_address := lit "a@b.com";
          EmailView.subject := lit "Test";
          EmailView.body_plain := Some (lit "hello");
          EmailView.body_html := Some (lit "<b>hello</b>");
          EmailView.received_at := lit "2025-10-02T21:08:47Z" |}
     = EmailView.div_dangerouslySetInnerHTML
         (lit "prose prose-invert prose-sm md:prose-base max-w-none")
         (lit "<b>hello</b>").
Proof.
  split.
  - apply (proj1 (renderBody_cases _)); reflexivity.
  - apply (proj1 (proj2 (renderBody_cases _))); [reflexivity | discriminate].
Defined.

(** * Further properties of the code *)

(** ** The column types *)

Module ColumnTypesFacts.
Import ColumnTypes.

Lemma varchar_length (n : nat) (s s' : text) :
  varchar n s = Some s' -> (List.length s' <= n)%nat.
Proof.
  unfold varchar. destruct (Nat.leb_spec (List.length s) n) as [Hle | Hgt].
  - intros [= <-]. exact Hle.
  - destruct (forallb is_space (skipn n s)); [| discriminate].
    intros [= <-]. rewrite length_firstn. lia.
Qed.

Lemma varchar_short (n : nat) (s : text) :
  (List.length s <= n)%nat -> varchar n s = Some s.
Proof.
  intro H. unfold varchar. apply Nat.leb_le in H. now rewrite H.
Qed.

Lemma to_varchar_fits (column : string) (n : nat) (v : option text) :
  fits n (fst (to_varchar column n v)).
Proof.
  unfold to_varchar, fits. destruct v as [s |]; simpl; [| discriminate].
  destruct (varchar n s) as [s' |] eqn:E; simpl; [| discriminate].
  intros s0 [= <-]. now apply varchar_length with (s := s).
Qed.

Lemma to_int4_range (column : string) (v : option Z) (n : Z) :
  fst (to_int4 column v) = Some n -> int4 n = true.
Proof.
  unfold to_int4. destruct v as [z |]; simpl; [| discriminate].
  destruct (int4 z) eqn:E; simpl; [| discriminate].
  now intros [= <-].
Qed.

Lemma address_candidate_typed (s : session) (v : TemporaryEmail.values) :
  address_typed (fst (TemporaryEmail.candidate s v)).
Proof.
  unfold TemporaryEmail.candidate, address_typed.
  pose proof (to_varchar_fits "address" 255 (TemporaryEmail.v_address v)) as Ha.
  pose proof (to_varchar_fits "username" 100 (TemporaryEmail.v_username v)) as Hu.
  destruct (to_varchar "address" 255 (TemporaryEmail.v_address v)) as [a va].
  destruct (to_varchar "username" 100 (TemporaryEmail.v_username v)) as [u vu].
  simpl in *. auto.
Qed.

Lemma message_candidate_typed (s : session) (v : ReceivedEmail.values) :
  message_typed (fst (ReceivedEmail.candidate s v)).
Proof.
  unfold ReceivedEmail.candidate, message_typed.
  pose proof (to_varchar_fits "from_address" 255 (ReceivedEmail.v_from_address v))
    as Hf.
  pose proof (to_varchar_fits "subject" 500 (ReceivedEmail.v_subject v)) as Hj.
  pose proof (to_int4_range "size_bytes" (ReceivedEmail.v_size_bytes v)) as Hz.
  destruct (to_varchar "from_address" 255 (ReceivedEmail.v_from_address v))
    as [f vf].
  destruct (to_varchar "subject" 500 (ReceivedEmail.v_subject v)) as [j vj].
  destruct (to_int4 "size_bytes" (ReceivedEmail.v_size_bytes v)) as [z vz].
  simpl in *. auto.
Qed.

Lemma Forall_replace {A : Type} (P : A -> Prop) (pick : A -> bool) (new : A)
    (l : list A) :
  P new -> Forall P l -> Forall P (map (fun q => if pick q then new else q) l).
Proof.
  intros Hnew H. rewrite Forall_forall in *. intros x Hx.
  apply in_map_iff in Hx as (q & <- & Hq).
  destruct (pick q); auto.
Qed.

Lemma typed_execute (st : Store.t) (q : statement) :
  typed st -> typed (execute st q).
Proof.
  intros [Ha Hm]. destruct q; simpl.
  - destruct (insert_temporary_email s v st) as [st' | vs] eqn:E; simpl;
      [| now split].
    apply InvariantFacts.insert_temporary_email_accepted in E as (r & Hr & _ & ->).
    split; simpl; auto.
    apply Forall_app. split; auto. constructor; [| constructor].
    pose proof (address_candidate_typed s v) as H. now rewrite Hr in H.
  - destruct (insert_received_email s v st) as [st' | vs] eqn:E; simpl;
      [| now split].
    apply InvariantFacts.insert_received_email_accepted in E as (r & Hr & _ & ->).
    split; simpl; auto.
    apply Forall_app. split; auto. constructor; [| constructor].
    pose proof (message_candidate_typed s v) as H. now rewrite Hr in H.
  - split; simpl; now apply InvariantFacts.Forall_filter.
  - split; simpl; auto. now apply InvariantFacts.Forall_filter.
  - split; simpl; auto.
    rewrite Forall_forall in *. intros x Hx.
    apply in_map_iff in Hx as (r & <- & Hr).
    destruct (p r); auto. exact (Ha r Hr).
  - unfold update_temporary_email.
    destruct (find (TemporaryEmail.has_id x) (temporary_emails st)) as [old |];
      [| now split].
    pose proof (address_candidate_typed s (set old)) as H.
    destruct (TemporaryEmail.candidate s (set old)) as [r c].
    match goal with
    | |- typed (after st match ?l with _ => _ end) => destruct l
    end; simpl; [| now split].
    split; simpl; auto. now apply Forall_replace.
  - unfold update_received_email.
    destruct (find (ReceivedEmail.has_id x) (received_emails st)) as [old |];
      [| now split].
    pose proof (message_candidate_typed s (set old)) as H.
    destruct (ReceivedEmail.candidate s (set old)) as [r c].
    match goal with
    | |- typed (after st match ?l with _ => _ end) => destruct l
    end; simpl; [| now split].
    split; simpl; auto. now apply Forall_replace.
Qed.

Lemma typed_fold (qs : list statement) :
  forall st, typed st -> typed (fold_left execute qs st).
Proof.
  induction qs as [| q qs IH]; simpl; intros st H; auto.
  apply IH. now apply typed_execute.
Qed.

Lemma reachable_typed (st : Store.t) : reachable st -> typed st.
Proof.
  intros [qs ->]. apply typed_fold. split; constructor.
Qed.

End ColumnTypesFacts.

(** ** INSERT into [temporary_emails] *)

Module AddressInsert.

Lemma insert_temporary_email_rejected (s : session)
    (v : TemporaryEmail.values) (st : Store.t) (w : violation) :
  In w (snd (TemporaryEmail.candidate s v)
        ++ TemporaryEmail.violations (temporary_emails st)
             (fst (TemporaryEmail.candidate s v))) ->
  insert_temporary_email s v st
  = Rejected (snd (TemporaryEmail.candidate s v)
              ++ TemporaryEmail.violations (temporary_emails st)
                   (fst (TemporaryEmail.candidate s v))).
Proof.
  unfold insert_temporary_email.
  destruct (TemporaryEmail.candidate s v) as [r c]. simpl.
  destruct (c ++ _); [contradiction | reflexivity].
Qed.

(** The columns an INSERT does not coerce. *)
Lemma candidate_columns (s : session) (v : TemporaryEmail.values) :
  TemporaryEmail.id (fst (TemporaryEmail.candidate s v))
  = or_default (gen_random_uuid s) (TemporaryEmail.v_id v)
  /\ TemporaryEmail.created_at (fst (TemporaryEmail.candidate s v))
     = or_default (NOW s) (TemporaryEmail.v_created_at v)
  /\ TemporaryEmail.expires_at (fst (TemporaryEmail.candidate s v))
     = TemporaryEmail.v_expires_at v
  /\ TemporaryEmail.is_active (fst (TemporaryEmail.candidate s v))
     = or_default true (TemporaryEmail.v_is_active v).
Proof.
  unfold TemporaryEmail.candidate.
  destruct (to_varchar "address" 255 (TemporaryEmail.v_address v)) as [a va].
  destruct (to_varchar "username" 100 (TemporaryEmail.v_username v)) as [u vu].
  simpl. auto.
Qed.

(** The [address] of the proposed row, and what its coercion reports. *)
Lemma candidate_address (s : session) (v : TemporaryEmail.values) :
  TemporaryEmail.address (fst (TemporaryEmail.candidate s v))
  = fst (to_varchar "address" 255 (TemporaryEmail.v_address v))
  /\ incl (snd (to_varchar "address" 255 (TemporaryEmail.v_address v)))
       (snd (TemporaryEmail.candidate s v)).
Proof.
  unfold TemporaryEmail.candidate.
  destruct (to_varchar "address" 255 (TemporaryEmail.v_address v)) as [a va].
  destruct (to_varchar "username" 100 (TemporaryEmail.v_username v)) as [u vu].
  simpl. split; [reflexivity |].
  intros w Hw. apply in_or_app. now left.
Qed.

Lemma address_taken_violated (rows : list TemporaryEmail.row)
    (r : TemporaryEmail.row) :
  TemporaryEmail.address_taken rows (TemporaryEmail.address r) = true ->
  In (unique_violation "temporary_emails_address_key")
    (TemporaryEmail.violations rows r).
Proof.
  unfold TemporaryEmail.violations. rewrite !in_app_iff.
  intro H. rewrite H. simpl. tauto.
Qed.

Lemma address_format_violated (rows : list TemporaryEmail.row)
    (r : TemporaryEmail.row) :
  check_passes (TemporaryEmail.address_format r) = false ->
  In (check_violation "address_format") (TemporaryEmail.violations rows r).
Proof.
  unfold TemporaryEmail.violations. rewrite !in_app_iff.
  intro H. rewrite H. simpl. tauto.
Qed.

Lemma find_snoc {A : Type} (pick : A -> bool) (l : list A) (x : A) :
  existsb pick l = false -> pick x = true -> find pick (l ++ [x]) = Some x.
Proof.
  induction l as [| y l IH]; simpl; intros Hl Hx.
  - now rewrite Hx.
  - apply orb_false_iff in Hl as [Hy Hl]. rewrite Hy. auto.
Qed.

End AddressInsert.


Lemma holds_value {A : Type} (v : option A) : v <> None -> is_null v = false.
Proof. destruct v; [reflexivity | congruence]. Qed.

Lemma inbox_reachable : Store.reachable Sample.inbox.
Proof. exists Sample.statements. reflexivity. Qed.

(** X1.  In every reachable store no column declared NOT NULL holds NULL:
    [id], [address], [created_at] and [expires_at] of every address row,
    and [id], [temp_email_id], [from_address] and [received_at] of every
    message row. *)
Theorem not_null_columns_hold_values (st : Store.t) (H : Store.reachable st) :
  (forall r,
      In r (temporary_emails st) ->
      TemporaryEmail.id r <> None
      /\ TemporaryEmail.address r <> None
      /\ TemporaryEmail.created_at r <> None
      /\ TemporaryEmail.expires_at r <> None)
  /\ (forall m,
         In m (received_emails st) ->
         ReceivedEmail.id m <> None
         /\ ReceivedEmail.temp_email_id m <> None
         /\ ReceivedEmail.from_address m <> None
         /\ ReceivedEmail.received_at m <> None).
Proof.
  apply InvariantFacts.reachable_wf in H.
  destruct H as [W1 _ _ W4 _].
  rewrite Forall_forall in W1, W4.
  split.
  - intros r Hr.
    destruct (W1 r Hr) as (Hid & (a & Ha & _) & Hc & He).
    repeat split; auto. congruence.
  - intros m Hm.
    destruct (W4 m Hm) as (Hid & (x & Hx & _) & Hf & Hr & _).
    repeat split; auto. congruence.
Qed.

Lemma not_null_columns_hold_values_witness :
  is_null (TemporaryEmail.expires_at Sample.bob_row) = false
  /\ is_null (ReceivedEmail.from_address Sample.hello) = false.
Proof.
  destruct (not_null_columns_hold_values inbox_reachable) as [Ha Hm].
  split; apply holds_value.
  - apply (Ha Sample.bob_row). vm_compute. right. left. reflexivity.
  - apply (Hm Sample.hello). vm_compute. left. reflexivity.
Defined.

(** X2.  In every reachable store the primary keys are keys: no two rows
    of [temporary_emails] share an [id], and no two rows of
    [received_emails] share an [id]. *)
Theorem primary_keys_unique (st : Store.t) (H : Store.reachable st) :
  NoDup (map TemporaryEmail.id (temporary_emails st))
  /\ NoDup (map ReceivedEmail.id (received_emails st))
  /\ (forall r r',
         In r (temporary_emails st) -> In r' (temporary_emails st) ->
         TemporaryEmail.id r = TemporaryEmail.id r' -> r = r')
  /\ (forall m m',
         In m (received_emails st) -> In m' (received_emails st) ->
         ReceivedEmail.id m = ReceivedEmail.id m' -> m = m').
Proof.
  apply InvariantFacts.reachable_wf in H.
  destruct H as [_ W2 _ _ W5].
  repeat split; auto.
  - intros r r' Hr Hr' E.
    now apply (InvariantFacts.NoDup_map_eq TemporaryEmail.id (temporary_emails st)).
  - intros m m' Hm Hm' E.
    now apply (InvariantFacts.NoDup_map_eq ReceivedEmail.id (received_emails st)).
Qed.

Lemma primary_keys_unique_witness :
  NoDup (map TemporaryEmail.id (temporary_emails Sample.inbox))
  /\ NoDup (map ReceivedEmail.id (received_emails Sample.inbox)).
Proof.
  split.
  - apply (proj1 (primary_keys_unique inbox_reachable)).
  - apply (proj1 (proj2 (primary_keys_unique inbox_reachable))).
Defined.

(** X3.  In every reachable store each value fits the type of its column:
    an [address] has at most 255 characters, a [username] at most 100, a
    [from_address] at most 255, a [subject] at most 500, and a [size_bytes]
    is a 32-bit integer (so at least -2147483648). *)
Theorem stored_values_fit_columns (st : Store.t) (H : Store.reachable st) :
  (forall r a,
      In r (temporary_emails st) -> TemporaryEmail.address r = Some a ->
      (List.length a <= 255)%nat)
  /\ (forall r u,
         In r (temporary_emails st) -> TemporaryEmail.username r = Some u ->
         (List.length u <= 100)%nat)
  /\ (forall m f,
         In m (received_emails st) -> ReceivedEmail.from_address m = Some f ->
         (List.length f <= 255)%nat)
  /\ (forall m j,
         In m (received_emails st) -> ReceivedEmail.subject m = Some j ->
         (List.length j <= 500)%nat)
  /\ (forall m n,
         In m (received_emails st) -> ReceivedEmail.size_bytes m = Some n ->
         (-2147483648 <= n <= 2147483647)%Z).
Proof.
  apply ColumnTypesFacts.reachable_typed in H. destruct H as [Ha Hm].
  rewrite Forall_forall in Ha, Hm.
  split; [| split; [| split; [| split]]].
  - intros r a Hr E. destruct (Ha r Hr) as [F _]. now apply F.
  - intros r u Hr E. destruct (Ha r Hr) as [_ F]. now apply F.
  - intros m f Hr E. destruct (Hm m Hr) as (F & _). now apply F.
  - intros m j Hr E. destruct (Hm m Hr) as (_ & F & _). now apply F.
  - intros m n Hr E. destruct (Hm m Hr) as (_ & _ & F). specialize (F n E).
    unfold int4 in F. apply andb_true_iff in F as [F1 F2].
    apply Z.leb_le in F1, F2. lia.
Qed.

Lemma stored_values_fit_columns_witness :
  (List.length Example.alice <= 255)%nat /\ (-2147483648 <= 5 <= 2147483647)%Z.
Proof.
  destruct (stored_values_fit_columns inbox_reachable)
    as (Ha & _ & _ & _ & Hn).
  split.
  - apply (Ha Sample.alice_row).
    + vm_compute. left. reflexivity.
    + vm_compute. reflexivity.
  - apply (Hn Sample.hello).
    + vm_compute. left. reflexivity.
    + vm_compute. reflexivity.
Defined.

(** X4.  The UNIQUE constraint on [address] at work: in a reachable store,
    an INSERT whose address is already the address of a row is rejected
    with the unique violation of [temporary_emails_address_key], whatever
    its other columns, and the store stays as it was. *)
Theorem insert_duplicate_address_rejected (st : Store.t)
    (H : Store.reachable st) (r : TemporaryEmail.row) (a : text)
    (Hr : In r (temporary_emails st)) (Ha : TemporaryEmail.address r = Some a)
    (s : session) (v : TemporaryEmail.values)
    (Hv : TemporaryEmail.v_address v = Some a) :
  exists vs,
    insert_temporary_email s v st = Rejected vs
    /\ In (unique_violation "temporary_emails_address_key") vs
    /\ execute st (INSERT_temporary_email s v) = st.
Proof.
  apply ColumnTypesFacts.reachable_typed in H. destruct H as [Ht _].
  rewrite Forall_forall in Ht. destruct (Ht r Hr) as [Hfit _].
  specialize (Hfit a Ha).
  destruct (AddressInsert.candidate_address s v) as [Hc _].
  rewrite Hv in Hc. unfold to_varchar in Hc.
  rewrite (@ColumnTypesFacts.varchar_short 255 a Hfit) in Hc. simpl in Hc.
  assert (Hin : In (unique_violation "temporary_emails_address_key")
                  (snd (TemporaryEmail.candidate s v)
                   ++ TemporaryEmail.violations (temporary_emails st)
                        (fst (TemporaryEmail.candidate s v)))).
  { apply in_or_app. right. apply AddressInsert.address_taken_violated.
    rewrite Hc. simpl. apply existsb_exists. exists r. split; auto.
    now apply InvariantFacts.text_is_eq. }
  pose proof (AddressInsert.insert_temporary_email_rejected s v st _ Hin) as E.
  eexists. split; [exact E |]. split; [exact Hin |].
  simpl. now rewrite E.
Qed.

Lemma insert_duplicate_address_rejected_witness :
  exists vs,
    insert_temporary_email (Example.session 7)
      (Sample.mailbox Example.alice (Some (lit "eve")) 5%Z)
      Sample.inbox = Rejected vs
    /\ In (unique_violation "temporary_emails_address_key") vs
    /\ execute Sample.inbox
         (INSERT_temporary_email (Example.session 7)
            (Sample.mailbox Example.alice (Some (lit "eve")) 5%Z))
       = Sample.inbox.
Proof.
  apply (@insert_duplicate_address_rejected Sample.inbox inbox_reachable
           Sample.alice_row Example.alice).
  - vm_compute. left. reflexivity.
  - vm_compute. reflexivity.
  - reflexivity.
Defined.

Lemma varchar_firstn (n : nat) (s s' : text) :
  varchar n s = Some s' -> s' = firstn n s.
Proof.
  unfold varchar. destruct (Nat.leb_spec (List.length s) n) as [Hle | Hgt].
  - intros [= <-]. symmetry. now apply firstn_all2.
  - destruct (forallb is_space (skipn n s)); [| discriminate].
    now intros [= <-].
Qed.

(** X5.  The CHECK [address_format] at work: an INSERT whose address, cut
    to the 255 characters of the column, does not read [local-part@domain]
    is rejected (by [address_format], or as too long for the column when
    the excess is not spaces only), and the store stays as it was. *)
Theorem insert_malformed_address_rejected (s : session)
    (v : TemporaryEmail.values) (st : Store.t) (a : text)
    (Hv : TemporaryEmail.v_address v = Some a)
    (Hbad : ~ AddressFormat.well_formed (firstn 255 a)) :
  exists vs,
    insert_temporary_email s v st = Rejected vs
    /\ (In (check_violation "address_format") vs
        \/ In (string_data_right_truncation "address") vs)
    /\ execute st (INSERT_temporary_email s v) = st.
Proof.
  destruct (AddressInsert.candidate_address s v) as [Hc Hincl].
  rewrite Hv in Hc, Hincl. unfold to_varchar in Hc, Hincl.
  set (vs := snd (TemporaryEmail.candidate s v)
             ++ TemporaryEmail.violations (temporary_emails st)
                  (fst (TemporaryEmail.candidate s v))).
  assert (Hin : In (check_violation "address_format") vs
                \/ In (string_data_right_truncation "address") vs).
  { unfold vs. destruct (varchar 255 a) as [a' |] eqn:E; simpl in Hc, Hincl.
    - left. apply in_or_app. right.
      apply AddressInsert.address_format_violated.
      unfold TemporaryEmail.address_format. rewrite Hc. simpl.
      apply varchar_firstn in E. subst a'.
      destruct (Regex.test TemporaryEmail.address_format_pattern (firstn 255 a))
        eqn:T; [| reflexivity].
      apply AddressFormatFacts.address_format_well_formed in T. contradiction.
    - right. apply in_or_app. left. apply Hincl. now left. }
  assert (E : insert_temporary_email s v st = Rejected vs).
  { destruct Hin as [Hin | Hin];
      exact (AddressInsert.insert_temporary_email_rejected s v st _ Hin). }
  exists vs. split; [exact E |]. split; [exact Hin |].
  simpl. now rewrite E.
Qed.

Lemma insert_malformed_address_rejected_witness :
  exists vs,
    insert_temporary_email (Example.session 7)
      (Sample.mailbox (lit "carol.smith@mail.example.com") None 5%Z)
      Sample.inbox = Rejected vs
    /\ (In (check_violation "address_format") vs
        \/ In (string_data_right_truncation "address") vs)
    /\ execute Sample.inbox
         (INSERT_temporary_email (Example.session 7)
            (Sample.mailbox (lit "carol.smith@mail.example.com") None 5%Z))
       = Sample.inbox.
Proof.
  apply insert_malformed_address_rejected
    with (a := lit "carol.smith@mail.example.com").
  - reflexivity.
  - intro W. apply AddressFormatFacts.address_format_well_formed in W.
    vm_compute in W. discriminate.
Defined.

(** X6.  An INSERT that leaves [id], [created_at] and [is_active] to their
    defaults and is accepted adds exactly one row, after the rows there
    were: its [id] is the generated one, its [created_at] is [NOW()], it is
    active, and a lookup by the generated id finds it; [received_emails] is
    untouched. *)
Theorem insert_fills_defaults (s : session) (v : TemporaryEmail.values)
    (st st' : Store.t)
    (Hid : TemporaryEmail.v_id v = DEFAULT)
    (Hcreated : TemporaryEmail.v_created_at v = DEFAULT)
    (Hactive : TemporaryEmail.v_is_active v = DEFAULT)
    (E : insert_temporary_email s v st = Ok st') :
  exists r,
    temporary_emails st' = temporary_emails st ++ [r]
    /\ received_emails st' = received_emails st
    /\ TemporaryEmail.id r = Some (gen_random_uuid s)
    /\ TemporaryEmail.created_at r = Some (NOW s)
    /\ TemporaryEmail.is_active r = Some true
    /\ TemporaryEmail.expires_at r = TemporaryEmail.v_expires_at v
    /\ find (TemporaryEmail.has_id (gen_random_uuid s)) (temporary_emails st')
       = Some r.
Proof.
  apply InvariantFacts.insert_temporary_email_accepted in E
    as (r & Hr & Hvs & ->).
  destruct (AddressInsert.candidate_columns s v) as (Ci & Cc & Ce & Ca).
  rewrite Hr in Ci, Cc, Ce, Ca. simpl in Ci, Cc, Ce, Ca.
  rewrite Hid in Ci. rewrite Hcreated in Cc. rewrite Hactive in Ca.
  simpl in Ci, Cc, Ca.
  exists r. repeat split; auto. simpl.
  apply AddressInsert.find_snoc.
  - unfold TemporaryEmail.violations in Hvs. InvariantFacts.nil_apps Hvs.
    rewrite Ci in V4. exact V4.
  - now apply InvariantFacts.uuid_is_eq.
Qed.

Lemma insert_fills_defaults_witness :
  exists r,
    temporary_emails
      (execute Sample.inbox
         (INSERT_temporary_email (Example.session 4) Sample.carol))
    = temporary_emails Sample.inbox ++ [r]
    /\ TemporaryEmail.id r = Some 4%N
    /\ TemporaryEmail.created_at r = Some 4000%Z
    /\ TemporaryEmail.is_active r = Some true.
Proof.
  destruct (@insert_fills_defaults (Example.session 4) Sample.carol
              Sample.inbox
              (execute Sample.inbox
                 (INSERT_temporary_email (Example.session 4) Sample.carol))
              eq_refl eq_refl eq_refl)
    as (r & Hrows & _ & Hi & Hc & Ha & _).
  - vm_compute. reflexivity.
  - exists r. auto.
Defined.

(** X7.  The foreign key is ON UPDATE NO ACTION: an UPDATE that gives
    another [id] to an address row some message references is rejected
    with the foreign-key violation, and the store stays as it was. *)
Theorem update_of_referenced_id_rejected (st : Store.t) (s : session)
    (x : uuid) (set : TemporaryEmail.row -> TemporaryEmail.values)
    (old : TemporaryEmail.row) (m : ReceivedEmail.row)
    (Hold : find (TemporaryEmail.has_id x) (temporary_emails st) = Some old)
    (Hm : In m (received_emails st))
    (Hown : ReceivedEmail.temp_email_id m = Some x)
    (Hnew : or_default (gen_random_uuid s) (TemporaryEmail.v_id (set old))
            <> Some x) :
  exists vs,
    update_temporary_email s x set st = Rejected vs
    /\ In ReceivedEmail.UnknownOwner vs
    /\ execute st (UPDATE_temporary_email s x set) = st.
Proof.
  assert (Hgoal : exists vs,
             update_temporary_email s x set st = Rejected vs
             /\ In ReceivedEmail.UnknownOwner vs).
  { unfold update_temporary_email. rewrite Hold.
    destruct (AddressInsert.candidate_columns s (set old)) as (Ci & _).
    destruct (TemporaryEmail.candidate s (set old)) as [r c].
    simpl in Ci.
    assert (Href : existsb (ReceivedEmail.owned_by x) (received_emails st)
                   = true).
    { apply existsb_exists. exists m. split; auto.
      now apply InvariantFacts.uuid_is_eq. }
    assert (Hmoved : TemporaryEmail.has_id x r = false).
    { destruct (TemporaryEmail.has_id x r) eqn:Hx; auto.
      apply InvariantFacts.uuid_is_eq in Hx. congruence. }
    rewrite Href, Hmoved. simpl.
    match goal with
    | |- exists vs, match ?l with _ => _ end = _ /\ _ =>
        assert (Hin : In ReceivedEmail.UnknownOwner l)
          by (rewrite !in_app_iff; right; right; now left);
        destruct l as [| w l']; [contradiction |]
    end.
    eexists. split; [reflexivity | exact Hin]. }
  destruct Hgoal as (vs & E & Hin).
  exists vs. repeat split; auto. simpl. now rewrite E.
Qed.

Lemma update_of_referenced_id_rejected_witness :
  exists vs,
    update_temporary_email (Example.session 7) 1%N Sample.renumber Sample.inbox
    = Rejected vs
    /\ In ReceivedEmail.UnknownOwner vs
    /\ execute Sample.inbox
         (UPDATE_temporary_email (Example.session 7) 1%N Sample.renumber)
       = Sample.inbox.
Proof.
  apply update_of_referenced_id_rejected
    with (old := Sample.alice_row) (m := Sample.hello).
  - vm_compute. reflexivity.
  - vm_compute. left. reflexivity.
  - vm_compute. reflexivity.
  - vm_compute. discriminate.
Defined.

(** ** DELETE after DELETE *)

Module DeleteFacts.

Section Filters.

Variables (R : Type) (keep keep' : R -> bool).

Lemma filter_twice (rows : list R) :
  filter keep' (filter keep rows) = filter (fun r => keep r && keep' r) rows.
Proof.
  induction rows as [| r rows IH]; simpl; auto.
  destruct (keep r); simpl; [| exact IH].
  destruct (keep' r); simpl; now rewrite IH.
Qed.

End Filters.

(** A message references one of the rows either DELETE removes exactly when
    it references one the first removes or one the second then removes. *)
Lemma references_either (p q : TemporaryEmail.row -> bool)
    (rows : list TemporaryEmail.row) (m : ReceivedEmail.row) :
  references (filter (fun r => p r || q r) rows) m
  = references (filter p rows) m
    || references (filter q (filter (fun r => negb (p r)) rows)) m.
Proof.
  unfold references.
  destruct (ReceivedEmail.temp_email_id m) as [x |]; [| reflexivity].
  induction rows as [| r rows IH]; simpl; auto.
  destruct (p r) eqn:P; simpl; destruct (q r) eqn:Q; simpl; rewrite IH;
    destruct (TemporaryEmail.has_id x r); simpl;
    destruct (existsb (TemporaryEmail.has_id x) (filter p rows)),
      (existsb (TemporaryEmail.has_id x)
         (filter q (filter (fun r => negb (p r)) rows)));
    reflexivity.
Qed.

End DeleteFacts.

(** X8.  DELETE statements compose: deleting the address rows that satisfy
    [p] and then those that satisfy [q] leaves the store that one DELETE of
    the rows that satisfy either leaves, cascade included; the same holds
    for two DELETEs of messages; and a DELETE of messages and a DELETE of
    addresses give the same store in either order. *)
Theorem deletes_compose (st : Store.t) (p q : TemporaryEmail.row -> bool)
    (p' q' : ReceivedEmail.row -> bool) :
  delete_temporary_emails q (delete_temporary_emails p st)
  = delete_temporary_emails (fun r => p r || q r) st
  /\ delete_received_emails q' (delete_received_emails p' st)
     = delete_received_emails (fun m => p' m || q' m) st
  /\ delete_received_emails p' (delete_temporary_emails p st)
     = delete_temporary_emails p (delete_received_emails p' st).
Proof.
  unfold delete_temporary_emails, delete_received_emails. simpl.
  split; [| split]; f_equal.
  - rewrite DeleteFacts.filter_twice. apply filter_ext.
    intro r. now rewrite negb_orb.
  - rewrite DeleteFacts.filter_twice. apply filter_ext.
    intro m. now rewrite DeleteFacts.references_either, negb_orb.
  - rewrite DeleteFacts.filter_twice. apply filter_ext.
    intro m. now rewrite negb_orb.
  - rewrite !DeleteFacts.filter_twice. apply filter_ext.
    intro m. apply andb_comm.
Qed.

(** X9.  No constraint of [temporary_emails] compares [created_at],
    [expires_at] or [is_active] with anything: an INSERT that is accepted
    is accepted with any other non-null timestamps and any activity flag in
    their place, and stores them; so a row may expire before it was
    created. *)
Theorem insert_accepts_any_times (s : session) (v : TemporaryEmail.values)
    (st st' : Store.t) (E : insert_temporary_email s v st = Ok st')
    (created expires : timestamp) (active : supplied bool) :
  exists r,
    insert_temporary_email s (ColumnTypes.with_times created expires active v)
      st
    = Ok {| temporary_emails := temporary_emails st ++ [r];
            received_emails := received_emails st |}
    /\ TemporaryEmail.created_at r = Some created
    /\ TemporaryEmail.expires_at r = Some expires
    /\ TemporaryEmail.is_active r = or_default true active.
Proof.
  apply InvariantFacts.insert_temporary_email_accepted in E
    as (r & Hr & Hvs & _).
  revert Hr. unfold insert_temporary_email, TemporaryEmail.candidate.
  cbn [ColumnTypes.with_times TemporaryEmail.v_address
         TemporaryEmail.v_username TemporaryEmail.v_id
         TemporaryEmail.v_created_at TemporaryEmail.v_expires_at
         TemporaryEmail.v_is_active].
  destruct (to_varchar "address" 255 (TemporaryEmail.v_address v)) as [a va].
  destruct (to_varchar "username" 100 (TemporaryEmail.v_username v)) as [u vu].
  intros [= <- Hc]. rewrite Hc.
  unfold TemporaryEmail.violations in Hvs. InvariantFacts.nil_apps Hvs.
  unfold TemporaryEmail.violations, TemporaryEmail.address_format in *.
  cbn [TemporaryEmail.id TemporaryEmail.address TemporaryEmail.created_at
         TemporaryEmail.expires_at or_default is_null] in *.
  rewrite V, V0, V3, V4, Hvs. simpl.
  eexists. split; [reflexivity |]. simpl. auto.
Qed.

Lemma insert_accepts_any_times_witness :
  exists r,
    insert_temporary_email (Example.session 4)
      (ColumnTypes.with_times 5000%Z 1%Z (VALUE None) Sample.carol) Sample.inbox
    = Ok {| temporary_emails := temporary_emails Sample.inbox ++ [r];
            received_emails := received_emails Sample.inbox |}
    /\ TemporaryEmail.created_at r = Some 5000%Z
    /\ TemporaryEmail.expires_at r = Some 1%Z
    /\ TemporaryEmail.is_active r = or_default true (VALUE None).
Proof.
  apply insert_accepts_any_times
    with (st' := execute Sample.inbox
                   (INSERT_temporary_email (Example.session 4) Sample.carol)).
  vm_compute. reflexivity.
Defined.

(** ** The size of a message, exactly *)

Lemma size_out_of_range (s : session) (v : ReceivedEmail.values) :
  In (numeric_value_out_of_range "size_bytes")
    (snd (ReceivedEmail.candidate s v)) ->
  exists n, ReceivedEmail.v_size_bytes v = Some n /\ int4 n = false.
Proof.
  unfold ReceivedEmail.candidate, to_varchar, to_int4.
  destruct (ReceivedEmail.v_from_address v) as [f |];
    [destruct (varchar 255 f) |];
    (destruct (ReceivedEmail.v_subject v) as [j |];
     [destruct (varchar 500 j) |]);
    (destruct (ReceivedEmail.v_size_bytes v) as [z |];
     [destruct (int4 z) eqn:E |]);
    simpl; intuition (try discriminate; eauto).
Qed.

Lemma no_range_violation (owners : list TemporaryEmail.row)
    (rows : list ReceivedEmail.row) (r : ReceivedEmail.row) (column : string) :
  ~ In (numeric_value_out_of_range column)
      (ReceivedEmail.violations owners rows r).
Proof.
  unfold ReceivedEmail.violations. rewrite !in_app_iff. intros H.
  repeat match type of H with
         | _ \/ _ => destruct H as [H | H]
         end;
    apply InvariantFacts.in_when in H as [_ E]; discriminate.
Qed.

(** X10.  [size_bytes] is bounded from above by [reasonable_size] and from
    below by its type only: an INSERT is rejected on account of a size [n]
    exactly when [n] is above 10485760 or below -2147483648; zero and
    negative sizes pass. *)
Theorem size_rejection_exact (s : session) (v : ReceivedEmail.values)
    (st : Store.t) (vs : list violation) (n : Z)
    (Hv : ReceivedEmail.v_size_bytes v = Some n)
    (E : insert_received_email s v st = Rejected vs) :
  In (check_violation "reasonable_size") vs
  \/ In (numeric_value_out_of_range "size_bytes") vs
  <-> (n < -2147483648)%Z \/ (10485760 < n)%Z.
Proof.
  apply Rejection.insert_received_email_rejection in E. subst vs.
  destruct (Rejection.candidate_size_bytes s v) as [Hsize Hincl].
  rewrite Hv in Hsize, Hincl. simpl in Hsize, Hincl.
  assert (Hint : int4 n = false <->
                 (n < -2147483648)%Z \/ (2147483647 < n)%Z).
  { unfold int4. rewrite andb_false_iff, !Z.leb_gt. tauto. }
  split.
  - intros [Hin | Hin]; apply in_app_or in Hin as [Hin | Hin].
    + apply Rejection.candidate_coercions in Hin as [[c C] | [c C]];
        discriminate.
    + apply Rejection.reasonable_size_violated in Hin.
      unfold ReceivedEmail.reasonable_size in Hin. rewrite Hsize in Hin.
      destruct (int4 n); simpl in Hin; [| discriminate].
      right. destruct (Z.leb_spec n 10485760); [discriminate | assumption].
    + apply size_out_of_range in Hin as (n' & Hn' & Hout).
      assert (n' = n) by congruence. subst n'.
      apply Hint in Hout. lia.
    + now apply no_range_violation in Hin.
  - intros Hn. destruct (int4 n) eqn:Hin; simpl in Hsize, Hincl.
    + left. apply in_or_app. right.
      apply Rejection.reasonable_size_violated.
      unfold ReceivedEmail.reasonable_size. rewrite Hsize. simpl.
      assert (Hr : (-2147483648 <= n)%Z).
      { unfold int4 in Hin. apply andb_true_iff in Hin as [Hlo _].
        now apply Z.leb_le. }
      destruct (Z.leb_spec n 10485760); [lia | reflexivity].
    + right. apply in_or_app. left. apply Hincl. now left.
Qed.

Lemma size_rejection_exact_witness :
  In (check_violation "reasonable_size") [ReceivedEmail.UnknownOwner]
  \/ In (numeric_value_out_of_range "size_bytes") [ReceivedEmail.UnknownOwner]
  <-> (-1 < -2147483648)%Z \/ (10485760 < -1)%Z.
Proof.
  apply size_rejection_exact
    with (s := Example.session 5) (v := Example.message (Some 8%N) (Some (-1)%Z))
         (st := Sample.inbox).
  - reflexivity.
  - vm_compute. reflexivity.
Defined.

(** ** Usernames the generate route accepts *)

Module ValidUsername.

(** zod files no issue exactly for 3 to 20 allowed characters. *)
Lemma no_issue (s : text) :
  GenerateRoute.string_issues s = [] <->
  (3 <= List.length s <= 20)%nat /\ Forall (fun c => Username.allowed c = true) s.
Proof.
  unfold GenerateRoute.string_issues.
  destruct (Nat.ltb_spec (List.length s) 3) as [H3 | H3];
    [split; [discriminate | lia] |].
  destruct (Nat.ltb_spec 20 (List.length s)) as [H20 | H20];
    [split; [discriminate | lia] |].
  simpl.
  destruct (Regex.test GenerateRoute.username_pattern s) eqn:T.
  - apply UsernameFacts.username_pattern_allowed in T as [_ T].
    split; auto.
  - split; [discriminate |]. intros [_ Hall].
    assert (Regex.test GenerateRoute.username_pattern s = true);
      [| congruence].
    apply UsernameFacts.username_pattern_allowed. split; auto.
    destruct s; [simpl in H3; lia | discriminate].
Qed.

(** What [safeParse] hands on as a username passed every check. *)
Lemma parsed_username (body : Js.json) (s : text) :
  GenerateRoute.GenerateEmailRequestSchema body
  = GenerateRoute.Success (GenerateRoute.Username s) ->
  GenerateRoute.string_issues s = [].
Proof.
  unfold GenerateRoute.GenerateEmailRequestSchema.
  destruct body as [| | | | | members]; try discriminate.
  destruct (Js.member (lit "username") members) as [[| | | u | |] |];
    try discriminate.
  destruct (GenerateRoute.string_issues u) eqn:E; [| discriminate].
  now intros [= <-].
Qed.

Lemma allowed_local_part (c : char) :
  Username.allowed c = true -> AddressFormat.local_part_char c = true.
Proof.
  unfold Username.allowed, AddressFormat.local_part_char.
  intro H. now rewrite H.
Qed.

End ValidUsername.

(** X11.  Every username the generate route accepts can head an address
    the schema accepts: followed by [@] and any non-empty domain of
    alphanumerics, dots and hyphens it passes [address_format], and it is
    stored in the [username] column as it is, never cut. *)
Theorem accepted_username_is_local_part (u d : text)
    (Hu : GenerateRoute.string_issues u = [])
    (Hd : d <> [])
    (Hdomain : Forall (fun c => AddressFormat.domain_char c = true) d) :
  check_passes
    (regex_match (Some (u ++ chr "@" :: d))
       TemporaryEmail.address_format_pattern) = true
  /\ Regex.test TemporaryEmail.address_format_pattern (u ++ chr "@" :: d)
     = true
  /\ to_varchar "username" 100 (Some u) = (Some u, []).
Proof.
  apply ValidUsername.no_issue in Hu as [[H3 H20] Hall].
  assert (T : Regex.test TemporaryEmail.address_format_pattern
                (u ++ chr "@" :: d) = true).
  { apply AddressFormatFacts.address_format_well_formed.
    exists u, d. repeat split; auto.
    - destruct u; [simpl in H3; lia | discriminate].
    - eapply Forall_impl; [| exact Hall].
      exact ValidUsername.allowed_local_part. }
  split; [| split]; auto.
  - unfold regex_match. rewrite T. reflexivity.
  - unfold to_varchar.
    rewrite (@ColumnTypesFacts.varchar_short 100 u); [reflexivity | lia].
Qed.

Lemma accepted_username_is_local_part_witness :
  check_passes
    (regex_match (Some (lit "bob_42" ++ chr "@" :: lit "mail.example.com"))
       TemporaryEmail.address_format_pattern) = true
  /\ Regex.test TemporaryEmail.address_format_pattern
       (lit "bob_42" ++ chr "@" :: lit "mail.example.com") = true
  /\ to_varchar "username" 100 (Some (lit "bob_42")) = (Some (lit "bob_42"), []).
Proof.
  apply accepted_username_is_local_part.
  - reflexivity.
  - discriminate.
  - vm_compute. repeat constructor.
Defined.

(** X12.  Whatever [POST] forwards has been validated: the call goes to
    [BACKEND_URL] (which is set), without its trailing slash, followed by
    [/api/email/generate], and its body is [{username: null}] or
    [{username: s}] for an [s] of 3 to 20 letters, digits and
    underscores. *)
Theorem POST_forwards_validated_username (e : GenerateRoute.env)
    (fetch : GenerateRoute.forwarded -> option Http.backend_response)
    (request_body : option Js.json) (call : GenerateRoute.forwarded)
    (H : GenerateRoute.forward (GenerateRoute.POST e fetch request_body)
         = Some call) :
  (exists b,
      GenerateRoute.BACKEND_URL e = Some b /\ b <> []
      /\ GenerateRoute.url call
         = GenerateRoute.remove_trailing_slash b ++ lit "/api/email/generate")
  /\ (GenerateRoute.payload call = Js.JObject [(lit "username", Js.JNull)]
      \/ exists s,
           GenerateRoute.payload call
           = Js.JObject [(lit "username", Js.JString s)]
           /\ (3 <= List.length s <= 20)%nat
           /\ Forall (fun c => Username.allowed c = true) s).
Proof.
  revert H. unfold GenerateRoute.POST.
  destruct request_body as [body |]; [| discriminate].
  destruct (GenerateRoute.GenerateEmailRequestSchema body) as [u | d] eqn:V;
    [| discriminate].
  destruct (GenerateRoute.BACKEND_URL e) as [[| c b] |] eqn:B;
    try discriminate.
  cbn [Js.blank GenerateRoute.forward]. intros [= <-]. split.
  - exists (c :: b). repeat split; auto. discriminate.
  - cbn [GenerateRoute.payload].
    destruct u as [| | s]; try (left; reflexivity).
    apply ValidUsername.parsed_username in V.
    apply ValidUsername.no_issue in V as [Hlen Hall].
    right. exists s. repeat split; auto; try lia.
    destruct s; [simpl in Hlen; lia | reflexivity].
Qed.

Lemma POST_forwards_validated_username_witness :
  (exists b,
      Some (lit "http://backend:3001/") = Some b /\ b <> []
      /\ lit "http://backend:3001/api/email/generate"
         = GenerateRoute.remove_trailing_slash b ++ lit "/api/email/generate")
  /\ (Js.JObject [(lit "username", Js.JString (lit "bob_42"))]
      = Js.JObject [(lit "username", Js.JNull)]
      \/ exists s,
           Js.JObject [(lit "username", Js.JString (lit "bob_42"))]
           = Js.JObject [(lit "username", Js.JString s)]
           /\ (3 <= List.length s <= 20)%nat
           /\ Forall (fun c => Username.allowed c = true) s).
Proof.
  apply (@POST_forwards_validated_username
           {| GenerateRoute.BACKEND_URL := Some (lit "http://backend:3001/") |}
           no_backend
           (Some (Js.JObject [(lit "username", Js.JString (lit "bob_42"))]))
           {| GenerateRoute.url := lit "http://backend:3001/api/email/generate";
              GenerateRoute.payload :=
                Js.JObject [(lit "username", Js.JString (lit "bob_42"))] |}).
  reflexivity.
Defined.

(** ** The base URL *)

Module BaseUrl.

Lemma slash_removed (b : text) :
  GenerateRoute.remove_trailing_slash (b ++ [chr "/"]) = b.
Proof.
  induction b as [| c b IH]; [reflexivity |].
  cbn [app GenerateRoute.remove_trailing_slash].
  destruct (b ++ [chr "/"]) eqn:E.
  - destruct b; discriminate.
  - now rewrite IH.
Qed.

Lemma other_kept (b : text) (c : char) :
  char_eqb c (chr "/") = false ->
  GenerateRoute.remove_trailing_slash (b ++ [c]) = b ++ [c].
Proof.
  intro Hc. induction b as [| d b IH].
  - cbn [app GenerateRoute.remove_trailing_slash]. now rewrite Hc.
  - cbn [app GenerateRoute.remove_trailing_slash].
    destruct (b ++ [c]) eqn:E.
    + destruct b; discriminate.
    + now rewrite IH.
Qed.

End BaseUrl.

(** X13.  [.replace(/\/$/, "")] drops one trailing slash and nothing else:
    a [BACKEND_URL] written with or without the slash makes the generate
    route and the list route behave the same, call for call. *)
Theorem trailing_slash_is_dropped (b : text) (c : char)
    (Hc : char_eqb c (chr "/") = false) :
  GenerateRoute.remove_trailing_slash ((b ++ [c]) ++ [chr "/"]) = b ++ [c]
  /\ GenerateRoute.remove_trailing_slash (b ++ [c]) = b ++ [c]
  /\ (forall fetch request_body,
         GenerateRoute.POST
           {| GenerateRoute.BACKEND_URL := Some ((b ++ [c]) ++ [chr "/"]) |}
           fetch request_body
         = GenerateRoute.POST
             {| GenerateRoute.BACKEND_URL := Some (b ++ [c]) |}
             fetch request_body)
  /\ (forall fetch address,
         EmailsRoute.GET
           {| GenerateRoute.BACKEND_URL := Some ((b ++ [c]) ++ [chr "/"]) |}
           fetch address
         = EmailsRoute.GET
             {| GenerateRoute.BACKEND_URL := Some (b ++ [c]) |}
             fetch address).
Proof.
  pose proof (BaseUrl.slash_removed (b ++ [c])) as H1.
  pose proof (@BaseUrl.other_kept b c Hc) as H2.
  assert (Hb : forall t, Js.blank (Some ((b ++ [c]) ++ t)) = false).
  { intro t. destruct b; reflexivity. }
  split; [exact H1 |]. split; [exact H2 |]. split.
  - intros fetch request_body. unfold GenerateRoute.POST.
    cbn [GenerateRoute.BACKEND_URL]. rewrite H1, H2.
    rewrite (Hb [chr "/"]).
    pose proof (Hb []) as Hb'. rewrite app_nil_r in Hb'. rewrite Hb'.
    reflexivity.
  - intros fetch address. unfold EmailsRoute.GET.
    cbn [GenerateRoute.BACKEND_URL]. rewrite H1, H2.
    rewrite (Hb [chr "/"]).
    pose proof (Hb []) as Hb'. rewrite app_nil_r in Hb'. rewrite Hb'.
    reflexivity.
Qed.

Lemma trailing_slash_is_dropped_witness :
  GenerateRoute.remove_trailing_slash (lit "http://backend:3001/")
  = lit "http://backend:3001"
  /\ GenerateRoute.remove_trailing_slash (lit "http://backend:3001")
     = lit "http://backend:3001".
Proof.
  destruct (@trailing_slash_is_dropped (lit "http://backend:300") (chr "1")
              eq_refl) as (H1 & H2 & _).
  split; [exact H1 | exact H2].
Defined.

(** ** What the proxy routes hand on *)

Module RouteFacts.
Import Js Http.

Lemma json_response_constructible (status : Z) (b : json) :
  json_response status b
  = if Status.constructible status
    then Normal {| status := status; body := b |}
    else Throw.
Proof. reflexivity. Qed.

(** [e || "..."] is never [undefined]. *)
Lemma or_else_defined (e : value) (d : json) :
  exists v, or_else e (Some d) = Some v.
Proof.
  unfold or_else. destruct (truthy e) eqn:T; eauto.
  destruct e; eauto. discriminate.
Qed.

Lemma error_body_or_else (e : value) (d : json) :
  exists v, EmailRoute.error_body (or_else e (Some d))
            = JObject [(lit "error", v)].
Proof.
  destruct (or_else_defined e d) as [v ->]. now exists v.
Qed.

End RouteFacts.

(** A backend text such as [{ttl: 1e400}] parses to a number that is not
    finite; the reader of the route's response gets [null] in its place. *)
Lemma written_non_finite :
  Wire.written (Js.JObject [(lit "ttl", Js.JNumber PrimFloat.infinity)])
  = Js.JObject [(lit "ttl", Js.JNull)].
Proof. vm_compute. reflexivity. Qed.

(** In the four lemmas that follow [Http.body] is the value the route hands
    to [NextResponse.json]; the theorems after each say what the reader of
    the response gets. *)

(** A success status of the generate route comes from the backend, and the
    value handed to [NextResponse.json] is the one [JSON.parse] returned. *)
Lemma POST_success_value (e : GenerateRoute.env)
    (fetch : GenerateRoute.forwarded -> option Http.backend_response)
    (request_body : option Js.json)
    (H : Http.ok
           (Http.status
              (GenerateRoute.response
                 (GenerateRoute.POST e fetch request_body))) = true) :
  exists call r,
    GenerateRoute.forward (GenerateRoute.POST e fetch request_body) = Some call
    /\ fetch call = Some r
    /\ Http.ok (Http.backend_status r) = true
    /\ Http.status
         (GenerateRoute.response (GenerateRoute.POST e fetch request_body))
       = Http.backend_status r
    /\ Http.body
         (GenerateRoute.response (GenerateRoute.POST e fetch request_body))
       = match Http.JSON_parse r with
         | Some data => data
         | None =>
             Js.JObject
               [(lit "error",
                 Js.JString
                   (lit "Received an invalid (non-JSON) response from the backend."));
                (lit "details", Js.JString (Http.responseText r))]
         end.
Proof.
  revert H. unfold GenerateRoute.POST.
  destruct request_body as [body |]; [| discriminate].
  destruct (GenerateRoute.GenerateEmailRequestSchema body) as [u | d];
    [| discriminate].
  destruct (Js.blank (GenerateRoute.BACKEND_URL e)); [discriminate |].
  cbv zeta. cbn [GenerateRoute.forward GenerateRoute.response].
  match goal with
  | |- context [fetch ?c] => set (call := c)
  end.
  destruct (fetch call) as [r |] eqn:F; [| discriminate].
  unfold GenerateRoute.relay.
  destruct (Http.JSON_parse r) as [data |] eqn:P.
  - destruct (Http.ok (Http.backend_status r)) eqn:K; cbn [negb].
    + rewrite RouteFacts.json_response_constructible.
      destruct (Status.constructible (Http.backend_status r));
        [| discriminate].
      intros _. exists call, r. repeat split; auto.
      now rewrite P.
    + destruct (Js.get data (lit "error")) as [x |]; [| discriminate].
      rewrite RouteFacts.json_response_constructible.
      destruct (Status.constructible (Http.backend_status r));
        [| discriminate].
      cbn [GenerateRoute.or_internal_error Http.status]. congruence.
  - rewrite RouteFacts.json_response_constructible.
    destruct (Status.constructible (Http.backend_status r)); [| discriminate].
    cbn [GenerateRoute.or_internal_error Http.status]. intro K.
    exists call, r. repeat split; auto.
    now rewrite P.
Qed.

(** X14.  The generate route reports success only on the backend's word:
    when the response it delivers has a success status, the request was
    forwarded, the backend answered with that very status, and the body is
    the backend's JSON as [JSON.stringify] writes it (the same value, but
    for a number that is not finite, read back as [null], and a negative
    zero, read back as [0]); or, when the backend's text was not JSON, the
    error object that quotes the text. *)
Theorem POST_success_comes_from_backend (e : GenerateRoute.env)
    (fetch : GenerateRoute.forwarded -> option Http.backend_response)
    (request_body : option Js.json)
    (H : Http.ok
           (Http.status
              (Wire.delivered
                 (GenerateRoute.response
                    (GenerateRoute.POST e fetch request_body)))) = true) :
  exists call r,
    GenerateRoute.forward (GenerateRoute.POST e fetch request_body) = Some call
    /\ fetch call = Some r
    /\ Http.ok (Http.backend_status r) = true
    /\ Wire.delivered
         (GenerateRoute.response (GenerateRoute.POST e fetch request_body))
       = {| Http.status := Http.backend_status r;
            Http.body :=
              match Http.JSON_parse r with
              | Some data => Wire.written data
              | None =>
                  Js.JObject
                    [(lit "error",
                      Js.JString
                        (lit "Received an invalid (non-JSON) response from the backend."));
                     (lit "details", Js.JString (Http.responseText r))]
              end |}.
Proof.
  destruct (POST_success_value e fetch request_body H)
    as (call & r & Hf & Hr & Hok & Hs & Hb).
  exists call, r. repeat split; auto.
  unfold Wire.delivered. rewrite Hs, Hb.
  destruct (Http.JSON_parse r); reflexivity.
Qed.

Lemma POST_success_comes_from_backend_witness :
  exists call r,
    GenerateRoute.forward
      (GenerateRoute.POST Sample.environment (fun _ => Some Sample.created)
         (Some (Home.request_body (lit "bob_42")))) = Some call
    /\ (fun _ : GenerateRoute.forwarded => Some Sample.created) call = Some r
    /\ Http.ok (Http.backend_status r) = true
    /\ Wire.delivered
         (GenerateRoute.response
            (GenerateRoute.POST Sample.environment
               (fun _ => Some Sample.created)
               (Some (Home.request_body (lit "bob_42")))))
       = {| Http.status := Http.backend_status r;
            Http.body :=
              match Http.JSON_parse r with
              | Some data => Wire.written data
              | None =>
                  Js.JObject
                    [(lit "error",
                      Js.JString
                        (lit "Received an invalid (non-JSON) response from the backend."));
                     (lit "details", Js.JString (Http.responseText r))]
              end |}.
Proof.
  apply POST_success_comes_from_backend. vm_compute. reflexivity.
Defined.

(** X15.  A failed backend answer reaches the client of the generate
    route as its [error] alone: when the backend answers a forwarded
    request with a status that is not ok and JSON, the route answers with
    the backend's status (or with its own 500 when it cannot build that
    response), and the body is an object whose only member is [error]. *)
Theorem POST_hands_on_error_only (e : GenerateRoute.env)
    (fetch : GenerateRoute.forwarded -> option Http.backend_response)
    (request_body : option Js.json) (call : GenerateRoute.forwarded)
    (r : Http.backend_response) (data : Js.json)
    (Hf : GenerateRoute.forward (GenerateRoute.POST e fetch request_body)
          = Some call)
    (Hr : fetch call = Some r)
    (Hnot : Http.ok (Http.backend_status r) = false)
    (Hd : Http.JSON_parse r = Some data) :
  (GenerateRoute.response (GenerateRoute.POST e fetch request_body)
   = GenerateRoute.internal_server_error
   \/ Http.status
        (GenerateRoute.response (GenerateRoute.POST e fetch request_body))
      = Http.backend_status r)
  /\ exists v,
       Http.body
         (GenerateRoute.response (GenerateRoute.POST e fetch request_body))
       = Js.JObject [(lit "error", v)].
Proof.
  revert Hf. unfold GenerateRoute.POST.
  destruct request_body as [body |]; [| discriminate].
  destruct (GenerateRoute.GenerateEmailRequestSchema body) as [u | d];
    [| discriminate].
  destruct (Js.blank (GenerateRoute.BACKEND_URL e)); [discriminate |].
  cbv zeta. cbn [GenerateRoute.forward GenerateRoute.response].
  intros [= <-]. rewrite Hr. unfold GenerateRoute.relay.
  rewrite Hd, Hnot. cbn [negb].
  destruct (Js.get data (lit "error")) as [x |];
    [| split; [now left | eexists; reflexivity]].
  rewrite RouteFacts.json_response_constructible.
  destruct (Status.constructible (Http.backend_status r));
    [| split; [now left | eexists; reflexivity]].
  cbn [GenerateRoute.or_internal_error Http.status Http.body].
  split; [now right |].
  apply RouteFacts.error_body_or_else.
Qed.

Lemma POST_hands_on_error_only_witness :
  (GenerateRoute.response
     (GenerateRoute.POST Sample.environment (fun _ => Some Sample.refused)
        (Some (Home.request_body (lit "bob_42"))))
   = GenerateRoute.internal_server_error
   \/ Http.status
        (GenerateRoute.response
           (GenerateRoute.POST Sample.environment
              (fun _ => Some Sample.refused)
              (Some (Home.request_body (lit "bob_42")))))
      = Http.backend_status Sample.refused)
  /\ exists v,
       Http.body
         (GenerateRoute.response
            (GenerateRoute.POST Sample.environment
               (fun _ => Some Sample.refused)
               (Some (Home.request_body (lit "bob_42")))))
       = Js.JObject [(lit "error", v)].
Proof.
  apply (@POST_hands_on_error_only Sample.environment
           (fun _ => Some Sample.refused)
           (Some (Home.request_body (lit "bob_42")))
           {| GenerateRoute.url := lit "http://backend:3001/api/email/generate";
              GenerateRoute.payload := Home.request_body (lit "bob_42") |}
           Sample.refused
           (Js.JObject
              [(lit "error", Js.JString (lit "Address already exists"));
               (lit "constraint",
                Js.JString (lit "temporary_emails_address_key"))]));
    reflexivity.
Defined.

(** The two kinds of answers of [GET /api/emails/[id]], on the value handed
    to [NextResponse.json]. *)
Lemma GET_value_200_or_error (fetch : text -> option Http.backend_response)
    (id : text) (address : option text) :
  (exists a r,
      address = Some a
      /\ fetch (EmailRoute.backendUrl a id) = Some r
      /\ Http.ok (Http.backend_status r) = true
      /\ Http.JSON_parse r = Some (Http.body (EmailRoute.GET fetch id address))
      /\ Http.status (EmailRoute.GET fetch id address) = 200%Z)
  \/ (Http.ok (Http.status (EmailRoute.GET fetch id address)) = false
      /\ exists v,
           Http.body (EmailRoute.GET fetch id address)
           = Js.JObject [(lit "error", v)]).
Proof.
  unfold EmailRoute.GET.
  destruct (Js.blank (Some id) || Js.blank address) eqn:B.
  { right. split; [reflexivity | eexists; reflexivity]. }
  destruct address as [a |]; [| now rewrite orb_true_r in B].
  destruct (fetch (EmailRoute.backendUrl a id)) as [r |] eqn:F;
    [| right; split; [reflexivity | eexists; reflexivity]].
  destruct (Http.ok (Http.backend_status r)) eqn:K; cbn [negb].
  - destruct (Http.JSON_parse r) as [email |] eqn:P;
      [| right; split; [reflexivity | eexists; reflexivity]].
    left. exists a, r. repeat split; auto.
  - right. unfold EmailRoute.relay_failure. cbv zeta.
    destruct (Http.JSON_parse r) as [errorJson |];
      [destruct (Js.get errorJson (lit "error")) as [e |] |];
      rewrite !RouteFacts.json_response_constructible;
      destruct (Status.constructible (Http.backend_status r));
      cbn [EmailRoute.or_internal_error Http.status Http.body];
      (split; [assumption || reflexivity |]);
      try (eexists; reflexivity).
    apply RouteFacts.error_body_or_else.
Qed.

(** X16.  [GET /api/emails/[id]] delivers two kinds of answers.  Either
    the backend answered the call to
    [http://127.0.0.1:3001/api/email/<address>/<id>] with an ok status and
    JSON, and the route answers 200 with that JSON as [JSON.stringify]
    writes it (the same value, but for a number that is not finite, read
    back as [null], and a negative zero, read back as [0]); or the route's
    status is not a success status and its body is an object with the
    single member [error].  Nothing else of a failed backend answer reaches
    the client. *)
Theorem GET_answers_200_or_error (fetch : text -> option Http.backend_response)
    (id : text) (address : option text) :
  (exists a r email,
      address = Some a
      /\ fetch (lit "http://127.0.0.1:3001/api/email/" ++ a ++ lit "/" ++ id)
         = Some r
      /\ Http.ok (Http.backend_status r) = true
      /\ Http.JSON_parse r = Some email
      /\ Wire.delivered (EmailRoute.GET fetch id address)
         = {| Http.status := 200; Http.body := Wire.written email |})
  \/ (Http.ok (Http.status (Wire.delivered (EmailRoute.GET fetch id address)))
      = false
      /\ exists v,
           Http.body (Wire.delivered (EmailRoute.GET fetch id address))
           = Js.JObject [(lit "error", v)]).
Proof.
  destruct (GET_value_200_or_error fetch id address)
    as [(a & r & Ha & Hf & Hok & Hp & Hs) | (Hnot & v & Hv)].
  - left. exists a, r, (Http.body (EmailRoute.GET fetch id address)).
    repeat split; auto.
    unfold Wire.delivered. now rewrite Hs.
  - right. split; [exact Hnot |].
    exists (Wire.written v).
    unfold Wire.delivered. cbn [Http.body]. now rewrite Hv.
Qed.

(** X17.  [DELETE /api/emails/[id]] answers as [GET /api/emails/[id]] does
    when the backend answers both alike: the same status, and the same
    body but for the text the route puts in when a failed backend answer
    names no error. *)
Theorem DELETE_answers_as_GET (fetch : text -> option Http.backend_response)
    (id : text) (address : option text) :
  Http.status (DeleteEmailRoute.DELETE fetch id address)
  = Http.status (EmailRoute.GET fetch id address)
  /\ (Http.body (DeleteEmailRoute.DELETE fetch id address)
      = Http.body (EmailRoute.GET fetch id address)
      \/ (Http.body (EmailRoute.GET fetch id address)
          = EmailRoute.error_body
              (Some (Js.JString (lit "Failed to fetch email.")))
          /\ Http.body (DeleteEmailRoute.DELETE fetch id address)
             = EmailRoute.error_body
                 (Some (Js.JString (lit "Failed to delete email."))))).
Proof.
  unfold EmailRoute.GET, DeleteEmailRoute.DELETE.
  destruct (Js.blank (Some id) || Js.blank address); [now auto |].
  destruct address as [a |];
    (destruct (fetch (EmailRoute.backendUrl _ id)) as [r |]; [| now auto]);
    (destruct (Http.ok (Http.backend_status r)); cbn [negb]; [now auto |]);
    unfold EmailRoute.relay_failure, DeleteEmailRoute.relay_failure; cbv zeta;
    (destruct (Http.JSON_parse r) as [errorJson |];
     [destruct (Js.get errorJson (lit "error")) as [e |] |]);
    rewrite ?RouteFacts.json_response_constructible;
    destruct (Status.constructible (Http.backend_status r));
    cbn [EmailRoute.or_internal_error Http.status Http.body];
    try (now auto);
    unfold Js.or_else; destruct (Js.truthy e); auto.
Qed.

(** The two kinds of answers of [DELETE /api/emails/all], on the value
    handed to [NextResponse.json]. *)
Lemma DELETE_all_value_200_or_error
    (fetch : text -> option Http.backend_response) (address : option text) :
  (exists a r,
      address = Some a
      /\ fetch (DeleteAllRoute.backendUrl a) = Some r
      /\ Http.ok (Http.backend_status r) = true
      /\ Http.JSON_parse r
         = Some (Http.body (DeleteAllRoute.DELETE fetch address))
      /\ Http.status (DeleteAllRoute.DELETE fetch address) = 200%Z)
  \/ (Http.ok (Http.status (DeleteAllRoute.DELETE fetch address)) = false
      /\ exists v,
           Http.body (DeleteAllRoute.DELETE fetch address)
           = Js.JObject [(lit "error", v)]).
Proof.
  unfold DeleteAllRoute.DELETE.
  destruct address as [[| c a] |];
    try (right; split; [reflexivity | eexists; reflexivity]).
  cbn [Js.blank].
  destruct (fetch (DeleteAllRoute.backendUrl (c :: a))) as [r |] eqn:F;
    [| right; split; [reflexivity | eexists; reflexivity]].
  destruct (Http.ok (Http.backend_status r)) eqn:K; cbn [negb].
  - destruct (Http.JSON_parse r) as [data |] eqn:P;
      [| right; split; [reflexivity | eexists; reflexivity]].
    left. exists (c :: a), r. repeat split; auto.
  - right. unfold DeleteAllRoute.relay_failure. cbv zeta.
    destruct (Http.JSON_parse r) as [errorJson |];
      [destruct (Js.get errorJson (lit "error")) as [e |] |];
      rewrite !RouteFacts.json_response_constructible;
      destruct (Status.constructible (Http.backend_status r));
      cbn [EmailRoute.or_internal_error Http.status Http.body];
      (split; [assumption || reflexivity |]);
      try (eexists; reflexivity).
    apply RouteFacts.error_body_or_else.
Qed.

(** X18.  [DELETE /api/emails/all] delivers the same two kinds of answers:
    200 with the backend's JSON as [JSON.stringify] writes it (a number
    that is not finite read back as [null], a negative zero as [0]) when
    the backend answered the call to
    [http://127.0.0.1:3001/api/email/<address>/all] with an ok status and
    JSON, and otherwise a status that is not a success status with a body
    that holds [error] alone; so a deletion the backend confirms without a
    JSON body is reported as a failure. *)
Theorem DELETE_all_answers_200_or_error
    (fetch : text -> option Http.backend_response) (address : option text) :
  (exists a r data,
      address = Some a
      /\ fetch (lit "http://127.0.0.1:3001/api/email/" ++ a ++ lit "/all")
         = Some r
      /\ Http.ok (Http.backend_status r) = true
      /\ Http.JSON_parse r = Some data
      /\ Wire.delivered (DeleteAllRoute.DELETE fetch address)
         = {| Http.status := 200; Http.body := Wire.written data |})
  \/ (Http.ok (Http.status (Wire.delivered (DeleteAllRoute.DELETE fetch address)))
      = false
      /\ exists v,
           Http.body (Wire.delivered (DeleteAllRoute.DELETE fetch address))
           = Js.JObject [(lit "error", v)]).
Proof.
  destruct (DELETE_all_value_200_or_error fetch address)
    as [(a & r & Ha & Hf & Hok & Hp & Hs) | (Hnot & v & Hv)].
  - left. exists a, r, (Http.body (DeleteAllRoute.DELETE fetch address)).
    repeat split; auto.
    unfold Wire.delivered. now rewrite Hs.
  - right. split; [exact Hnot |].
    exists (Wire.written v).
    unfold Wire.delivered. cbn [Http.body]. now rewrite Hv.
Qed.

(** A success status of the list route comes from the backend, and the
    value handed to [NextResponse.json] is the one [JSON.parse] returned. *)
Lemma list_GET_success_value (e : GenerateRoute.env)
    (fetch : text -> option Http.backend_response) (address : option text)
    (H : Http.ok (Http.status (EmailsRoute.GET e fetch address)) = true) :
  exists a b r,
    address = Some a
    /\ GenerateRoute.BACKEND_URL e = Some b
    /\ fetch (EmailsRoute.backendUrl (GenerateRoute.remove_trailing_slash b) a)
       = Some r
    /\ Http.ok (Http.backend_status r) = true
    /\ Http.status (EmailsRoute.GET e fetch address) = Http.backend_status r
    /\ Http.body (EmailsRoute.GET e fetch address)
       = match Http.JSON_parse r with
         | Some data => data
         | None =>
             Js.JObject
               [(lit "error",
                 Js.JString
                   (match Http.responseText r with
                    | [] => lit "Received an invalid response from the backend."
                    | c :: t => c :: t
                    end))]
         end.
Proof.
  revert H. unfold EmailsRoute.GET.
  destruct address as [[| c a] |]; try discriminate.
  destruct (GenerateRoute.BACKEND_URL e) as [[| c' b] |] eqn:B;
    try discriminate.
  cbn [Js.blank]. cbv zeta.
  destruct (fetch _) as [r |] eqn:F; [| discriminate].
  unfold EmailsRoute.relay.
  destruct (Http.JSON_parse r) as [data |] eqn:P.
  - destruct (Http.ok (Http.backend_status r)) eqn:K; cbn [negb].
    + rewrite RouteFacts.json_response_constructible.
      destruct (Status.constructible (Http.backend_status r));
        [| discriminate].
      intros _. exists (c :: a), (c' :: b), r. repeat split; auto.
      now rewrite P.
    + destruct (Js.get data (lit "error")) as [x |]; [| discriminate].
      rewrite RouteFacts.json_response_constructible.
      destruct (Status.constructible (Http.backend_status r));
        [| discriminate].
      cbn [GenerateRoute.or_internal_error Http.status]. congruence.
  - rewrite RouteFacts.json_response_constructible.
    destruct (Status.constructible (Http.backend_status r)); [| discriminate].
    cbn [GenerateRoute.or_internal_error Http.status]. intro K.
    exists (c :: a), (c' :: b), r. repeat split; auto.
    rewrite P. cbn [GenerateRoute.or_internal_error Http.body].
    now destruct (Http.responseText r).
Qed.

(** X19.  The list route reports success only on the backend's word, and
    with the backend's own status: when the response it delivers has a
    success status, the address and [BACKEND_URL] were there, the backend
    answered the call to [BACKEND_URL] (less its trailing slash) followed
    by [/api/email/<address>/summaries] with that very status, and the body
    is the backend's JSON as [JSON.stringify] writes it (the same value,
    but for a number that is not finite, read back as [null], and a
    negative zero, read back as [0]); or, when the backend's text was not
    JSON, an [error] that quotes the text (a fixed text when it is
    empty). *)
Theorem list_GET_success_comes_from_backend (e : GenerateRoute.env)
    (fetch : text -> option Http.backend_response) (address : option text)
    (H : Http.ok
           (Http.status (Wire.delivered (EmailsRoute.GET e fetch address)))
         = true) :
  exists a b r,
    address = Some a
    /\ GenerateRoute.BACKEND_URL e = Some b
    /\ fetch
         (GenerateRoute.remove_trailing_slash b
          ++ lit "/api/email/" ++ a ++ lit "/summaries")
       = Some r
    /\ Http.ok (Http.backend_status r) = true
    /\ Wire.delivered (EmailsRoute.GET e fetch address)
       = {| Http.status := Http.backend_status r;
            Http.body :=
              match Http.JSON_parse r with
              | Some data => Wire.written data
              | None =>
                  Js.JObject
                    [(lit "error",
                      Js.JString
                        (match Http.responseText r with
                         | [] =>
                             lit "Received an invalid response from the backend."
                         | c :: t => c :: t
                         end))]
              end |}.
Proof.
  destruct (list_GET_success_value e fetch address H)
    as (a & b & r & Ha & Hb & Hr & Hok & Hs & Hbody).
  exists a, b, r. repeat split; auto.
  unfold Wire.delivered. rewrite Hs, Hbody.
  destruct (Http.JSON_parse r); reflexivity.
Qed.

Lemma list_GET_success_comes_from_backend_witness :
  exists a b r,
    Some Example.alice = Some a
    /\ GenerateRoute.BACKEND_URL Sample.environment = Some b
    /\ (fun _ : text => Some Sample.partial)
         (GenerateRoute.remove_trailing_slash b
          ++ lit "/api/email/" ++ a ++ lit "/summaries")
       = Some r
    /\ Http.ok (Http.backend_status r) = true
    /\ Wire.delivered
         (EmailsRoute.GET Sample.environment (fun _ => Some Sample.partial)
            (Some Example.alice))
       = {| Http.status := Http.backend_status r;
            Http.body :=
              match Http.JSON_parse r with
              | Some data => Wire.written data
              | None =>
                  Js.JObject
                    [(lit "error",
                      Js.JString
                        (match Http.responseText r with
                         | [] =>
                             lit "Received an invalid response from the backend."
                         | c :: t => c :: t
                         end))]
              end |}.
Proof.
  apply list_GET_success_comes_from_backend. vm_compute. reflexivity.
Defined.

(** ** The form and the generate route *)

(** X20.  [onSubmit] ends in one of two ways, and always with [isLoading]
    false: either the reply was ok and its JSON has a truthy [address],
    which is written to [sessionStorage] before the router is sent to
    [/emails], with no error shown; or nothing is written, the router
    stays, and an error is set. *)
Theorem onSubmit_navigates_or_reports (js : Browser.engine)
    (r : Browser.reply Js.json) :
  Home.isLoading (Home.onSubmit js r) = false
  /\ ((exists data address,
          r = Browser.IsOk (Browser.Value data)
          /\ Js.get data (lit "address") = Js.Normal address
          /\ Js.truthy address = true
          /\ Home.sessionStorage_temp_address (Home.onSubmit js r)
             = Some (Browser.to_string js address)
          /\ Home.router_push (Home.onSubmit js r) = Some (lit "/emails")
          /\ Home.error (Home.onSubmit js r) = None)
      \/ (Home.sessionStorage_temp_address (Home.onSubmit js r) = None
          /\ Home.router_push (Home.onSubmit js r) = None
          /\ exists m, Home.error (Home.onSubmit js r) = Some m)).
Proof.
  destruct r as [m | [data | m] | [data | m]]; simpl;
    try (split; [reflexivity | right; repeat split; eexists; reflexivity]).
  destruct (Js.get data (lit "address")) as [address |] eqn:G;
    [| split; [reflexivity | right; repeat split; eexists; reflexivity]].
  destruct (Js.truthy address) eqn:T;
    [| split; [reflexivity | right; repeat split; eexists; reflexivity]].
  split; [reflexivity |]. left. exists data, address. repeat split; auto.
Qed.

Lemma request_body_username (u : text) :
  u <> [] ->
  Home.request_body u = Js.JObject [(lit "username", Js.JString u)].
Proof. destruct u; [congruence | reflexivity]. Qed.

(** X21.  The form and the route together: a non-empty username that is
    shorter than 3, longer than 20 or has a character outside
    [a-zA-Z0-9_] never reaches the backend, and the form ends with the
    error [Invalid username.], nothing stored and no navigation. *)
Theorem Home_reports_invalid_username (js : Browser.engine)
    (e : GenerateRoute.env)
    (fetch : GenerateRoute.forwarded -> option Http.backend_response)
    (u : text) (Hu : u <> [])
    (Hbad : (List.length u < 3)%nat \/ (20 < List.length u)%nat
            \/ (exists c, In c u /\ Username.allowed c = false)) :
  GenerateRoute.forward
    (GenerateRoute.POST e fetch (Some (Home.request_body u))) = None
  /\ Home.onSubmit js
       (Browser.seen
          (GenerateRoute.response
             (GenerateRoute.POST e fetch (Some (Home.request_body u)))))
     = Home.failed (lit "Invalid username.").
Proof.
  apply UsernameFacts.invalid_username_issues in Hbad.
  rewrite (request_body_username Hu).
  unfold GenerateRoute.POST, GenerateRoute.GenerateEmailRequestSchema.
  cbn [Js.member]. rewrite text_eqb_refl.
  destruct (GenerateRoute.string_issues u); [congruence |].
  split; reflexivity.
Qed.

Lemma Home_reports_invalid_username_witness :
  GenerateRoute.forward
    (GenerateRoute.POST Sample.environment (fun _ => Some Sample.created)
       (Some (Home.request_body (lit "a-b")))) = None
  /\ Home.onSubmit Sample.v8
       (Browser.seen
          (GenerateRoute.response
             (GenerateRoute.POST Sample.environment
                (fun _ => Some Sample.created)
                (Some (Home.request_body (lit "a-b"))))))
     = Home.failed (lit "Invalid username.").
Proof.
  apply Home_reports_invalid_username.
  - discriminate.
  - right. right. exists (chr "-"). split; [vm_compute; auto | reflexivity].
Defined.

(** X22.  The form, the route and the backend together: for an empty or a
    valid username, with [BACKEND_URL] set, when the backend answers the
    forwarded call with an ok status that a response can carry and JSON
    whose [address] is a non-empty string, the route forwards exactly the
    body the form sent, and the form stores that address under
    [temp_address] and goes to [/emails]. *)
Theorem Home_stores_the_backend_address (js : Browser.engine)
    (e : GenerateRoute.env) (b : text)
    (fetch : GenerateRoute.forwarded -> option Http.backend_response)
    (u : text) (r : Http.backend_response) (data : Js.json) (a : text)
    (Hu : u = [] \/ GenerateRoute.string_issues u = [])
    (Hb : GenerateRoute.BACKEND_URL e = Some b) (Hbne : b <> [])
    (Hr : fetch
            {| GenerateRoute.url :=
                 GenerateRoute.remove_trailing_slash b
                 ++ lit "/api/email/generate";
               GenerateRoute.payload := Home.request_body u |} = Some r)
    (Hok : Http.ok (Http.backend_status r) = true)
    (Hstatus : Status.constructible (Http.backend_status r) = true)
    (Hd : Http.JSON_parse r = Some data)
    (Ha : Js.get data (lit "address") = Js.Normal (Some (Js.JString a)))
    (Hane : a <> []) :
  GenerateRoute.forward
    (GenerateRoute.POST e fetch (Some (Home.request_body u)))
  = Some {| GenerateRoute.url :=
              GenerateRoute.remove_trailing_slash b
              ++ lit "/api/email/generate";
            GenerateRoute.payload := Home.request_body u |}
  /\ Home.onSubmit js
       (Browser.seen
          (GenerateRoute.response
             (GenerateRoute.POST e fetch (Some (Home.request_body u)))))
     = {| Home.isLoading := false;
          Home.error := None;
          Home.sessionStorage_temp_address := Some a;
          Home.router_push := Some (lit "/emails") |}.
Proof.
  assert (Hv : exists v,
             GenerateRoute.GenerateEmailRequestSchema (Home.request_body u)
             = GenerateRoute.Success v
             /\ Js.object [(lit "username", Some (GenerateRoute.username_or_null v))]
                = Home.request_body u).
  { destruct u as [| c u].
    - exists GenerateRoute.Null. split; reflexivity.
    - destruct Hu as [Hu | Hu]; [discriminate |].
      exists (GenerateRoute.Username (c :: u)).
      unfold GenerateRoute.GenerateEmailRequestSchema, Home.request_body,
        Js.object.
      cbn [Js.defined_members Js.member]. rewrite text_eqb_refl, Hu.
      split; reflexivity. }
  destruct Hv as (v & Hv & Hpayload).
  unfold GenerateRoute.POST. rewrite Hv, Hb.
  destruct b as [| c b]; [congruence |].
  cbn [Js.blank]. cbv zeta. rewrite Hpayload, Hr.
  cbn [GenerateRoute.forward GenerateRoute.response].
  split; [reflexivity |].
  unfold GenerateRoute.relay. rewrite Hd, Hok. cbn [negb].
  rewrite RouteFacts.json_response_constructible, Hstatus.
  cbn [GenerateRoute.or_internal_error]. unfold Browser.seen.
  cbn [Http.status Http.body]. rewrite Hok.
  unfold Home.onSubmit. rewrite Ha.
  destruct a as [| c' a]; [congruence | reflexivity].
Qed.

Lemma Home_stores_the_backend_address_witness :
  GenerateRoute.forward
    (GenerateRoute.POST Sample.environment (fun _ => Some Sample.created)
       (Some (Home.request_body (lit "bob_42"))))
  = Some {| GenerateRoute.url :=
              GenerateRoute.remove_trailing_slash (lit "http://backend:3001/")
              ++ lit "/api/email/generate";
            GenerateRoute.payload := Home.request_body (lit "bob_42") |}
  /\ Home.onSubmit Sample.v8
       (Browser.seen
          (GenerateRoute.response
             (GenerateRoute.POST Sample.environment
                (fun _ => Some Sample.created)
                (Some (Home.request_body (lit "bob_42"))))))
     = {| Home.isLoading := false;
          Home.error := None;
          Home.sessionStorage_temp_address :=
            Some (lit "bob_42@mail.example.com");
          Home.router_push := Some (lit "/emails") |}.
Proof.
  apply (@Home_stores_the_backend_address Sample.v8 Sample.environment
           (lit "http://backend:3001/") (fun _ => Some Sample.created)
           (lit "bob_42") Sample.created
           (Js.JObject
              [(lit "address", Js.JString (lit "bob_42@mail.example.com"))])
           (lit "bob_42@mail.example.com"));
    try reflexivity.
  - right. reflexivity.
  - discriminate.
  - discriminate.
Defined.

(** ** The inbox page *)

Module PageFacts.
Import EmailsPage.

(** No event clears [error], and none sets [isLoading] again. *)
Lemma step_keeps_error (js : Browser.engine) (st : state) (ev : event) :
  (error st <> None -> error (step js st ev) <> None)
  /\ (isLoading st = false -> isLoading (step js st ev) = false).
Proof.
  destruct ev as [address | r | emailId | r | | emailId | emailId r | | r | | |];
    simpl;
    repeat match goal with
           | |- context [match ?x with _ => _ end] => destruct x; simpl
           end;
    split; auto; discriminate.
Qed.

Lemma run_keeps_error (js : Browser.engine) (evs : list event) :
  forall st,
    error st <> None -> isLoading st = false ->
    error (run js st evs) <> None /\ isLoading (run js st evs) = false.
Proof.
  unfold run. induction evs as [| ev evs IH]; simpl; intros st He Hl; auto.
  destruct (step_keeps_error js st ev) as [He' Hl']. apply IH; auto.
Qed.

Lemma in_without (emailId : text) (prev : list EmailSummary)
    (e : EmailSummary) :
  In e (without emailId prev) <-> In e prev /\ id e <> emailId.
Proof.
  unfold without. rewrite filter_In, negb_true_iff.
  split; intros [H1 H2]; split; auto.
  - intro E. apply text_eqb_eq in E. congruence.
  - destruct (text_eqb (id e) emailId) eqn:E; auto.
    apply text_eqb_eq in E. contradiction.
Qed.

End PageFacts.

(** X23.  Once the inbox page has an error and has stopped loading, no
    event clears the error or brings the loading notice back; so after a
    refresh has failed, a later refresh that succeeds stores the emails it
    brings but the page keeps showing the error in their place. *)
Theorem inbox_error_is_never_cleared (js : Browser.engine)
    (st : EmailsPage.state) (m : text)
    (Herror : EmailsPage.error st = Some m) (Hm : m <> [])
    (Hloaded : EmailsPage.isLoading st = false) :
  (forall evs,
      (exists m', EmailsPage.error (EmailsPage.run js st evs) = Some m')
      /\ EmailsPage.isLoading (EmailsPage.run js st evs) = false)
  /\ (forall data,
         EmailsPage.emails
           (EmailsPage.step js st
              (EmailsPage.fetched (Browser.IsOk (Browser.Value data))))
         = data
         /\ EmailsPage.renderContent
              (EmailsPage.step js st
                 (EmailsPage.fetched (Browser.IsOk (Browser.Value data))))
            = EmailsPage.error_text m).
Proof.
  split.
  - intro evs.
    destruct (@PageFacts.run_keeps_error js evs st) as [He Hl];
      [congruence | assumption |].
    split; auto.
    destruct (EmailsPage.error (EmailsPage.run js st evs)) as [m' |];
      [eauto | congruence].
  - intro data. split; [reflexivity |].
    unfold EmailsPage.renderContent. simpl. rewrite Herror.
    destruct m; [congruence | reflexivity].
Qed.

Lemma inbox_error_is_never_cleared_witness :
  EmailsPage.emails
    (EmailsPage.step Sample.v8 Sample.stale
       (EmailsPage.fetched (Browser.IsOk (Browser.Value [Sample.summary]))))
  = [Sample.summary]
  /\ EmailsPage.renderContent
       (EmailsPage.step Sample.v8 Sample.stale
          (EmailsPage.fetched (Browser.IsOk (Browser.Value [Sample.summary]))))
     = EmailsPage.error_text (lit "Failed to fetch").
Proof.
  apply (@inbox_error_is_never_cleared Sample.v8 Sample.stale
           (lit "Failed to fetch")).
  - reflexivity.
  - discriminate.
  - reflexivity.
Defined.

(** X24.  When a delete has gone through, the page drops from its list
    exactly the emails with the deleted id, keeps the others, closes the
    popup, shows the success toast and re-enables the delete button. *)
Theorem deleted_email_leaves_the_list (js : Browser.engine)
    (st : EmailsPage.state) (emailId : text) (d : Browser.parsed unit) :
  (forall e,
      In e (EmailsPage.emails
              (EmailsPage.step js st
                 (EmailsPage.deleted emailId (Browser.IsOk d))))
      <-> In e (EmailsPage.emails st) /\ EmailsPage.id e <> emailId)
  /\ EmailsPage.render_popup
       (EmailsPage.step js st (EmailsPage.deleted emailId (Browser.IsOk d)))
     = EmailsPage.no_popup
  /\ EmailsPage.isDeleting
       (EmailsPage.step js st (EmailsPage.deleted emailId (Browser.IsOk d)))
     = false
  /\ EmailsPage.toast
       (EmailsPage.step js st (EmailsPage.deleted emailId (Browser.IsOk d)))
     = Some {| EmailsPage.message := lit "Email deleted successfully!";
               EmailsPage.type := EmailsPage.success |}.
Proof.
  split; [| repeat split].
  intro e. simpl. apply PageFacts.in_without.
Qed.

(** X25.  A delete that fails shows nothing: with an email open in the
    popup, once the handler has run from the click to the failure the page
    renders exactly what it rendered before the click.  The message of the
    failure is kept in [viewError], which the popup shows only while no
    email is selected. *)
Theorem failed_delete_shows_nothing (js : Browser.engine)
    (st : EmailsPage.state) (emailId : text) (r : Browser.reply unit)
    (email : EmailView.EmailDetail)
    (Hr : forall d, r <> Browser.IsOk d)
    (Haddress : Js.blank (EmailsPage.tempAddress st) = false)
    (Hselected : EmailsPage.selectedEmail st = Some email)
    (Hviewing : EmailsPage.isViewing st = true)
    (Hidle : EmailsPage.isDeleting st = false) :
  EmailsPage.render
    (EmailsPage.run js st
       [EmailsPage.delete_pressed emailId; EmailsPage.deleted emailId r])
  = EmailsPage.render st
  /\ EmailsPage.emails
       (EmailsPage.run js st
          [EmailsPage.delete_pressed emailId; EmailsPage.deleted emailId r])
     = EmailsPage.emails st
  /\ exists m,
       EmailsPage.viewError
         (EmailsPage.run js st
            [EmailsPage.delete_pressed emailId; EmailsPage.deleted emailId r])
       = Some m.
Proof.
  unfold EmailsPage.run. simpl. rewrite Haddress.
  destruct r as [m | data | d]; [| | now elim (Hr d)];
    (split; [| split; [reflexivity | eexists; reflexivity]]);
    unfold EmailsPage.render, EmailsPage.render_popup,
      EmailsPage.renderContent, EmailsPage.delete_all_button,
      EmailsPage.address_box; simpl;
    rewrite Hselected, Hviewing, Hidle; reflexivity.
Qed.

Lemma failed_delete_shows_nothing_witness :
  EmailsPage.render
    (EmailsPage.run Sample.v8 Sample.reading
       [EmailsPage.delete_pressed (lit "3");
        EmailsPage.deleted (lit "3")
          (Browser.NotOk (Browser.Value Sample.failure))])
  = EmailsPage.render Sample.reading
  /\ EmailsPage.emails
       (EmailsPage.run Sample.v8 Sample.reading
          [EmailsPage.delete_pressed (lit "3");
           EmailsPage.deleted (lit "3")
             (Browser.NotOk (Browser.Value Sample.failure))])
     = EmailsPage.emails Sample.reading
  /\ exists m,
       EmailsPage.viewError
         (EmailsPage.run Sample.v8 Sample.reading
            [EmailsPage.delete_pressed (lit "3");
             EmailsPage.deleted (lit "3")
               (Browser.NotOk (Browser.Value Sample.failure))])
       = Some m.
Proof.
  apply (@failed_delete_shows_nothing Sample.v8 Sample.reading (lit "3")
           (Browser.NotOk (Browser.Value Sample.failure)) Sample.detail);
    try reflexivity.
  intros d. discriminate.
Defined.

(** X26.  An email that arrives after its popup was closed is kept, and
    the next click shows it in place of the email clicked, until that one
    arrives: [handleEmailClick] opens the popup without clearing
    [selectedEmail], and the late reply sets it with the popup closed. *)
Theorem late_email_is_shown_by_the_next_click (js : Browser.engine)
    (st : EmailsPage.state) (late : EmailView.EmailDetail)
    (first next : text)
    (Haddress : Js.blank (EmailsPage.tempAddress st) = false) :
  EmailsPage.render_popup
    (EmailsPage.run js st
       [EmailsPage.clicked first; EmailsPage.closed;
        EmailsPage.opened (Browser.IsOk (Browser.Value late))])
  = EmailsPage.no_popup
  /\ EmailsPage.render_popup
       (EmailsPage.run js st
          [EmailsPage.clicked first; EmailsPage.closed;
           EmailsPage.opened (Browser.IsOk (Browser.Value late));
           EmailsPage.clicked next])
     = EmailsPage.email_view late (EmailsPage.isDeleting st).
Proof.
  unfold EmailsPage.run. simpl. rewrite Haddress. simpl. rewrite Haddress.
  split; reflexivity.
Qed.

Lemma late_email_is_shown_by_the_next_click_witness :
  EmailsPage.render_popup
    (EmailsPage.run Sample.v8 Sample.reading
       [EmailsPage.clicked (lit "3"); EmailsPage.closed;
        EmailsPage.opened (Browser.IsOk (Browser.Value Sample.detail))])
  = EmailsPage.no_popup
  /\ EmailsPage.render_popup
       (EmailsPage.run Sample.v8 Sample.reading
          [EmailsPage.clicked (lit "3"); EmailsPage.closed;
           EmailsPage.opened (Browser.IsOk (Browser.Value Sample.detail));
           EmailsPage.clicked (lit "4")])
     = EmailsPage.email_view Sample.detail false.
Proof.
  apply (@late_email_is_shown_by_the_next_click Sample.v8 Sample.reading
           Sample.detail (lit "3") (lit "4")).
  reflexivity.
Defined.

(** X27.  The single-email route and the page together: when the backend
    refuses a read with a status a response can carry and a JSON object
    whose [error] is a non-empty string, the route hands on that status
    and text, and the page, whose popup is open and empty, shows the
    backend's text. *)
Theorem refused_read_shows_backend_error (js : Browser.engine)
    (fetch : text -> option Http.backend_response) (id address : text)
    (r : Http.backend_response) (members : list (text * Js.json))
    (message : text) (st : EmailsPage.state)
    (Hid : id <> []) (Haddress : address <> [])
    (Hr : fetch (EmailRoute.backendUrl address id) = Some r)
    (Hnot : Http.ok (Http.backend_status r) = false)
    (Hstatus : Status.constructible (Http.backend_status r) = true)
    (Hd : Http.JSON_parse r = Some (Js.JObject members))
    (He : Js.member (lit "error") members = Some (Js.JString message))
    (Hm : message <> [])
    (Hviewing : EmailsPage.isViewing st = true)
    (Hselected : EmailsPage.selectedEmail st = None) :
  EmailRoute.GET fetch id (Some address)
  = {| Http.status := Http.backend_status r;
       Http.body := Js.JObject [(lit "error", Js.JString message)] |}
  /\ EmailsPage.render_popup
       (EmailsPage.step js st
          (EmailsPage.opened
             (Browser.NotOk
                (Browser.Value
                   (Http.body (EmailRoute.GET fetch id (Some address)))))))
     = EmailsPage.view_error message.
Proof.
  assert (E : EmailRoute.GET fetch id (Some address)
              = {| Http.status := Http.backend_status r;
                   Http.body :=
                     Js.JObject [(lit "error", Js.JString message)] |}).
  { unfold EmailRoute.GET.
    destruct id as [| c id]; [congruence |].
    destruct address as [| c' address]; [congruence |].
    cbn [Js.blank orb]. rewrite Hr, Hnot. cbn [negb].
    unfold EmailRoute.relay_failure. rewrite Hd. cbn [Js.get]. rewrite He.
    cbv zeta. rewrite !RouteFacts.json_response_constructible, Hstatus.
    destruct message as [| c'' message]; [congruence | reflexivity]. }
  split; [exact E |].
  rewrite E. cbn [Http.body].
  unfold EmailsPage.step, Browser.failure_message. cbn [Js.get Js.member].
  rewrite text_eqb_refl.
  destruct message as [| c message]; [congruence |].
  unfold EmailsPage.render_popup. simpl. rewrite Hviewing, Hselected.
  reflexivity.
Qed.

Lemma refused_read_shows_backend_error_witness :
  EmailRoute.GET (fun _ => Some Sample.not_found) (lit "3") (Some Example.bob)
  = {| Http.status := 404;
       Http.body := Js.JObject [(lit "error", Js.JString (lit "Email not found"))] |}
  /\ EmailsPage.render_popup
       (EmailsPage.step Sample.v8 Sample.opening
          (EmailsPage.opened
             (Browser.NotOk
                (Browser.Value
                   (Http.body
                      (EmailRoute.GET (fun _ => Some Sample.not_found)
                         (lit "3") (Some Example.bob)))))))
     = EmailsPage.view_error (lit "Email not found").
Proof.
  apply (@refused_read_shows_backend_error Sample.v8
           (fun _ => Some Sample.not_found) (lit "3") Example.bob
           Sample.not_found
           [(lit "error", Js.JString (lit "Email not found"))]
           (lit "Email not found") Sample.opening);
    try reflexivity; discriminate.
Defined.
